(** * notionapi: the caching client and the text-span parser

    A shallow embedding of [caching_client.go] (the on-disk request cache,
    the version oracle, the per-page download scope and the recursive
    crawl) and of the text-span attribute parser, with the properties of
    the specification stated and proved over it.

    Conventions.
    - A Go [string] and a Go [[]byte] are both finite byte sequences; both
      are embedded as [string] (a sequence of 8-bit [ascii]), so that the
      conversions [string(b)] and [[]byte(s)] are the identity.  A nil
      slice and an empty slice have the same bytes and are not told apart
      ([bytes.Equal] does not tell them apart either).
    - A Go [error] is its message.
    - A Go [int] is a 64-bit two's complement integer: a [Z] kept in range
      by [wrap_int].
    - A call that may return normally, return an error or panic yields a
      [result]. *)

From Stdlib Require Import Strings.String Strings.Ascii.
From Stdlib Require Import Numbers.DecimalString Numbers.DecimalNat.
From Stdlib Require Import ZArith Lia.
From stdpp Require Import gmap strings list sorting.

Local Open Scope Z_scope.

(** ** Part I: definitions *)

Definition error := string.

Inductive result (A : Type) : Type :=
| Ok (a : A)
| Err (e : error)
| Panic (msg : string).
Arguments Ok {A} a.
Arguments Err {A} e.
Arguments Panic {A} msg.

Definition is_Err {A} (r : result A) : bool :=
  match r with Err _ => true | _ => false end.

Definition is_Panic {A} (r : result A) : bool :=
  match r with Panic _ => true | _ => false end.

(** The outcome of a call without its value. *)
Definition forget {A} (r : result A) : result unit :=
  match r with
  | Ok _ => Ok tt
  | Err e => Err e
  | Panic m => Panic m
  end.

(** Go [int] arithmetic: 64 bits, two's complement, silent wrap-around. *)
Definition int_min : Z := - 2 ^ 63.
Definition int_max : Z := 2 ^ 63 - 1.
Definition wrap_int (z : Z) : Z := (z + 2 ^ 63) mod 2 ^ 64 - 2 ^ 63.
Definition int_add (a b : Z) : Z := wrap_int (a + b).
Definition in_int (z : Z) : Prop := int_min <= z <= int_max.

(** *** Byte strings *)

Definition nl : ascii := "010"%char.
Definition NL : string := String nl "".

(** [bytes.IndexByte(s, c)] together with the two slices [s[:idx]] and
    [s[idx+1:]]; [None] is the Go result [-1]. *)
Fixpoint cut (c : ascii) (s : string) : option (string * string) :=
  match s with
  | EmptyString => None
  | String a s' =>
      if Ascii.eqb a c then Some (EmptyString, s')
      else match cut c s' with
           | Some (l, r) => Some (String a l, r)
           | None => None
           end
  end.

(** The slices [s[:n]] and [s[n:]]; [None] when [n > len(s)]. *)
Fixpoint splitAt (n : nat) (s : string) : option (string * string) :=
  match n, s with
  | O, _ => Some (EmptyString, s)
  | S _, EmptyString => None
  | S n', String a s' =>
      match splitAt n' s' with
      | Some (l, r) => Some (String a l, r)
      | None => None
      end
  end.

Fixpoint lastByte (s : string) : option ascii :=
  match s with
  | EmptyString => None
  | String a EmptyString => Some a
  | String _ s' => lastByte s'
  end.

Fixpoint allBytes (p : ascii -> bool) (s : string) : bool :=
  match s with
  | EmptyString => true
  | String a s' => p a && allBytes p s'
  end.

(** [lacks c s]: the byte [c] does not occur in [s]. *)
Definition lacks (c : ascii) (s : string) : Prop :=
  allBytes (fun a => negb (Ascii.eqb a c)) s = true.

Definition HasSuffix (s suffix : string) : bool :=
  match splitAt (String.length s - String.length suffix) s with
  | Some (_, t) => String.eqb t suffix
  | None => false
  end.

Definition HasPrefix (s p : string) : bool :=
  match splitAt (String.length p) s with
  | Some (h, _) => String.eqb h p
  | None => false
  end.

(** [strings.Replace(s, old, "", -1)] for a non-empty [old]: every
    non-overlapping occurrence of [old], scanning from the left, is removed. *)
Fixpoint removeAll_go (fuel : nat) (old s : string) : string :=
  match fuel with
  | O => s
  | S fuel' =>
      match s with
      | EmptyString => EmptyString
      | String a s' =>
          if HasPrefix s old
          then match splitAt (String.length old) s with
               | Some (_, r) => removeAll_go fuel' old r
               | None => s
               end
          else String a (removeAll_go fuel' old s')
      end
  end.

Definition removeAll (old s : string) : string :=
  removeAll_go (String.length s) old s.

(** [strconv.Itoa] on a non-negative number, and the matching parse of an
    unsigned decimal numeral ([strconv.Atoi] also takes a sign, which no
    length ever carries; a signed numeral is a parse error here). *)
Definition Itoa (n : nat) : string := NilZero.string_of_uint (Nat.to_uint n).

Definition Atoi (s : string) : option nat :=
  match NilZero.uint_of_string s with
  | Some d => Some (Nat.of_uint d)
  | None => None
  end.

(** *** The record format of the [siser] library *)

Module siser.

(** Modelled from the spec: the external record library
    (github.com/kjk/siser) is not part of the sources.  Section 6 of the
    specification describes its format: a record carries a type tag and
    ordered key/value text fields, framed so that arbitrary binary
    content in a field survives a read-back that scans for record
    boundaries until end of file.  The framing is the library's: a header
    line [<size> <name>], then [size] bytes of key/value data; a value is
    written on its key's line when it is short printable ASCII and
    length-prefixed otherwise.  Timestamps are off ([NoTimestamp]) in
    every use the client makes of it. *)
Record Entry := mkEntry { Key : string; Value : string }.

Record Record := mkRecord { Entries : list Entry; Name : string }.

(** [Record.Reset] followed by [Record.Write] calls builds the entries in
    call order. *)
Definition Reset : Record := mkRecord [] "".

Definition Write (r : Record) (k v : string) : Record :=
  mkRecord (Entries r ++ [mkEntry k v]) (Name r).

Definition setName (r : Record) (n : string) : Record :=
  mkRecord (Entries r) n.

Fixpoint Get_go (es : list Entry) (key : string) : option string :=
  match es with
  | [] => None
  | e :: es' => if String.eqb (Key e) key then Some (Value e) else Get_go es' key
  end.

Definition Get (r : Record) (key : string) : option string :=
  Get_go (Entries r) key.

(** A key that the format can carry: no colon and no line break. *)
Definition goodKey (k : string) : Prop := lacks ":" k /\ lacks nl k.

Definition isASCIIByte (a : ascii) : bool :=
  (32 <=? nat_of_ascii a)%nat && (nat_of_ascii a <=? 127)%nat.

Definition isASCII (s : string) : bool := allBytes isASCIIByte s.

Definition serializeAsData (v : string) : bool :=
  (120 <? String.length v)%nat || negb (isASCII v).

Definition marshalKeyVal (e : Entry) : string :=
  if serializeAsData (Value e)
  then Key e +:+ ":+" +:+ Itoa (String.length (Value e)) +:+ NL
       +:+ Value e +:+ NL
  else Key e +:+ ": " +:+ Value e +:+ NL.

Fixpoint marshalEntries (es : list Entry) : string :=
  match es with
  | [] => ""
  | e :: es' => marshalKeyVal e +:+ marshalEntries es'
  end.

Definition Marshal (r : Record) : string := marshalEntries (Entries r).

Definition needsNewline (d : string) : bool :=
  match lastByte d with
  | Some a => negb (Ascii.eqb a nl)
  | None => false
  end.

(** [Writer.Write] with [NoTimestamp] set. *)
Definition WriterWrite (d name : string) : string :=
  let hdr := Itoa (String.length d)
             +:+ (if String.eqb name "" then "" else " " +:+ name) +:+ NL in
  hdr +:+ d +:+ (if needsNewline d then NL else "").

Definition WriteRecord (r : Record) : string :=
  WriterWrite (Marshal r) (Name r).

(** [UnmarshalRecord]: one key/value per step; [None] is a format error. *)
Fixpoint Unmarshal_go (fuel : nat) (d : string) : option (list Entry) :=
  match d with
  | EmptyString => Some []
  | String _ _ =>
      match fuel with
      | O => None
      | S fuel' =>
          match cut nl d with
          | None => None
          | Some (line, d1) =>
              match cut ":" line with
              | None => None
              | Some (key, EmptyString) => None
              | Some (key, String kind val) =>
                  if Ascii.eqb kind " " then
                    match Unmarshal_go fuel' d1 with
                    | Some es => Some (mkEntry key val :: es)
                    | None => None
                    end
                  else if Ascii.eqb kind "+" then
                    match Atoi val with
                    | None => None
                    | Some n =>
                        match splitAt n d1 with
                        | None => None
                        | Some (v, d2) =>
                            let d3 := match d2 with
                                      | String a d2' =>
                                          if Ascii.eqb a nl then d2' else d2
                                      | EmptyString => d2
                                      end in
                            match Unmarshal_go fuel' d3 with
                            | Some es => Some (mkEntry key v :: es)
                            | None => None
                            end
                        end
                    end
                  else None
              end
          end
      end
  end.

Definition UnmarshalRecord (d : string) : option (list Entry) :=
  Unmarshal_go (String.length d) d.

(** [Reader.ReadNextData] with [NoTimestamp] set: the name, the data and
    the unread input; [None] is both end of input and a framing error
    (the reader returns false for either).  The header is [size], [size
    name] or [size timestamp name]; a timestamp that is not empty must be
    a number.  The byte that pads data not ending in a line break is
    skipped. *)
Definition ReadNextData (input : string) : option (string * string * string) :=
  match cut nl input with
  | None => None
  | Some (hdr, body) =>
      let '(dataSize, rest) :=
        match cut " " hdr with
        | None => (hdr, "")
        | Some (sz, rest) => (sz, rest)
        end in
      let stamped :=
        match cut " " rest with
        | None => Some rest
        | Some (ts, name) =>
            match Atoi ts with
            | Some _ => Some name
            | None => if String.eqb ts "" then Some name else None
            end
        end in
      match stamped, Atoi dataSize with
      | Some name, Some size =>
          match splitAt size body with
          | None => None
          | Some (data, after) =>
              if needsNewline data then
                match after with
                | String _ after' => Some (name, data, after')
                | EmptyString => None
                end
              else Some (name, data, after)
          end
      | _, _ => None
      end
  end.

(** [Reader.ReadNextRecord]: the record read and the unread input. *)
Definition ReadNextRecord (input : string) : option (Record * string) :=
  match ReadNextData input with
  | None => None
  | Some (name, data, rest) =>
      match UnmarshalRecord data with
      | None => None
      | Some es => Some (mkRecord es name, rest)
      end
  end.

End siser.

(** *** Cache records *)

Definition recCacheName : string := "noahttpcache".

Record RequestCacheEntry := mkCacheEntry {
  Method : string;
  URL : string;
  Body : string;
  Response : string;
}.

Definition recGetKey (r : siser.Record) (key : string) (pErr : option error)
  : string * option error :=
  match pErr with
  | Some _ => ("", pErr)
  | None =>
      match siser.Get r key with
      | Some v => (v, None)
      | None => ("", Some ("didn't find key '" +:+ key +:+ "'"))
      end
  end.

Definition recGetKeyBytes := recGetKey.

(** [readsAs d rs]: the reader yields the records [rs] from the bytes [d],
    one [ReadNextRecord] after the other, until it returns false. *)
Inductive readsAs : string -> list siser.Record -> Prop :=
| readsAs_end d : siser.ReadNextRecord d = None -> readsAs d []
| readsAs_next d r rest rs :
    siser.ReadNextRecord d = Some (r, rest) -> readsAs rest rs ->
    readsAs d (r :: rs).

(** A record of the cache type that carries the four fields of [e]. *)
Definition cacheEntryOf (r : siser.Record) (e : RequestCacheEntry) : Prop :=
  siser.Name r = recCacheName /\
  siser.Get r "Method" = Some (Method e) /\
  siser.Get r "URL" = Some (URL e) /\
  siser.Get r "Body" = Some (Body e) /\
  siser.Get r "Response" = Some (Response e).

(** *** Collaborators that are not part of the sources *)

(** Modelled from the spec: the identity type of the identity normalizer;
    it carries the canonical dashed and no-dash forms. *)
Record NotionID := mkNotionID { DashID : string; NoDashID : string }.

(** Modelled from the spec: the externally-owned parsed download result;
    only its identity, its root version ([p.Root().Version], an int64) and
    its child-identity list ([p.GetSubPages()]) are consumed here. *)
Record Page := mkPage { ID : string; RootVersion : Z; SubPages : list string }.

(** Modelled from the spec: one result of the block/version-query API
    when the block is present (identity and version). *)
Record Block := mkBlock { BlockID : string; BlockVersion : Z }.

(** Modelled from the spec: the page-download collaborator
    ([client.DownloadPage]) issues an arbitrary number of calls through
    the scoped transport.  Seen from the transport it is a script that
    issues POST requests through the client's [httpPostOverride], each next
    step depending on the answer to the previous one, and ends with the
    page, an error or a panic. *)
Inductive Download : Type :=
| Return (r : result Page)
| Post (uri body : string) (k : result string -> Download).

(** Modelled from the spec: the transport interception of the client is a
    field, [httpPostOverride], that holds a function or nil.  A value of
    the field is the caching client's own [doPostMaybeCached] or some other
    function installed by the user. *)
Inductive PostHook := HookMaybeCached | HookOther (tag : nat).

Record Client := mkClient { httpPostOverride : option PostHook }.

(** Modelled from the spec: the environment of the caching client, none of
    it part of the sources: the helpers of the package that live in other
    files (the identity normalizer, the pretty-printer), the live network
    with the block/version-query API, and the page downloader. *)
Class Env := {
  (** pretty-prints a JSON-parseable body, returns any other body unchanged *)
  PrettyPrintJS : string -> string;
  (** validates a free-form string as an identity; [None] is Go's nil *)
  NewNotionID : string -> option NotionID;
  ToNoDashID : string -> string;
  (** dash-insensitive comparison of two ids *)
  isIDEqual : string -> string -> bool;
  (** what [normalizeIDS] stores back, in place, at each position *)
  normalizeID : string -> string;
  (** the state of the remote service and of the connection to it *)
  Net : Type;
  doPostInternal : string -> string -> Net -> result string * Net;
  GetBlockRecords : list string -> Net -> result (list (option Block)) * Net;
  clientDownloadPage : string -> Download;
}.

(** *** The file system *)

Record FileInfo := mkFileInfo { fiName : string; fiRegular : bool }.

(** Regular files by path, and what the operating system answers: whether
    creating a directory, listing it or reading a file fails; whether a
    write to a path fails and what it leaves behind when it does (the
    content of the partially written file, or no file); whether removing a
    path fails. *)
Record FS := mkFS {
  files : gmap string string;
  mkdirFault : string -> option error;
  dirEntries : string -> error + list FileInfo;
  readFault : string -> option error;
  writeFault : string -> option (error * option string);
  removeFault : string -> bool;
}.

Definition set_files (fs : FS) (m : gmap string string) : FS :=
  mkFS m (mkdirFault fs) (dirEntries fs) (readFault fs) (writeFault fs)
       (removeFault fs).

(** [filepath.Join(dir, name)] (without the final path cleaning). *)
Definition Join (dir name : string) : string := dir +:+ "/" +:+ name.

Definition MkdirAll (dir : string) (fs : FS) : option error := mkdirFault fs dir.

Definition ReadDir (dir : string) (fs : FS) : error + list FileInfo :=
  dirEntries fs dir.

Definition ReadFile (path : string) (fs : FS) : error + string :=
  match readFault fs path with
  | Some e => inl e
  | None =>
      match files fs !! path with
      | Some d => inr d
      | None => inl ("open " +:+ path +:+ ": no such file or directory")
      end
  end.

(** [ioutil.WriteFile]: truncates and rewrites the file. *)
Definition WriteFile (path data : string) (fs : FS) : option error * FS :=
  match writeFault fs path with
  | None => (None, set_files fs (<[path := data]> (files fs)))
  | Some (e, Some partial) => (Some e, set_files fs (<[path := partial]> (files fs)))
  | Some (e, None) => (Some e, set_files fs (delete path (files fs)))
  end.

(** [os.Remove]; the client ignores its error. *)
Definition Remove (path : string) (fs : FS) : FS :=
  if removeFault fs path then fs else set_files fs (delete path (files fs)).

(** *** The caching client *)

Record CachingClient := mkCachingClient {
  CacheDir : string;
  client : Client;
  RedownloadNewerVersions : bool;
  NoReadCache : bool;
  pageIDToEntries : gmap string (list RequestCacheEntry);
  currPageID : option NotionID;
  currPageRequests : list RequestCacheEntry;
  (** [None] is the nil map: reads find nothing, a write panics *)
  IdToPageLatestVersion : option (gmap string Z);
  didCheckVersionsOfCachedPages : bool;
  RequestsFromCache : Z;
  RequestsNotFromCache : Z;
  RequestsWrittenToCache : Z;
}.

Definition set_client (c : CachingClient) (x : Client) : CachingClient :=
  mkCachingClient (CacheDir c) x (RedownloadNewerVersions c) (NoReadCache c)
    (pageIDToEntries c) (currPageID c) (currPageRequests c)
    (IdToPageLatestVersion c) (didCheckVersionsOfCachedPages c)
    (RequestsFromCache c) (RequestsNotFromCache c) (RequestsWrittenToCache c).

Definition set_pageIDToEntries (c : CachingClient)
    (x : gmap string (list RequestCacheEntry)) : CachingClient :=
  mkCachingClient (CacheDir c) (client c) (RedownloadNewerVersions c)
    (NoReadCache c) x (currPageID c) (currPageRequests c)
    (IdToPageLatestVersion c) (didCheckVersionsOfCachedPages c)
    (RequestsFromCache c) (RequestsNotFromCache c) (RequestsWrittenToCache c).

Definition set_currPageID (c : CachingClient) (x : option NotionID)
  : CachingClient :=
  mkCachingClient (CacheDir c) (client c) (RedownloadNewerVersions c)
    (NoReadCache c) (pageIDToEntries c) x (currPageRequests c)
    (IdToPageLatestVersion c) (didCheckVersionsOfCachedPages c)
    (RequestsFromCache c) (RequestsNotFromCache c) (RequestsWrittenToCache c).

Definition set_currPageRequests (c : CachingClient)
    (x : list RequestCacheEntry) : CachingClient :=
  mkCachingClient (CacheDir c) (client c) (RedownloadNewerVersions c)
    (NoReadCache c) (pageIDToEntries c) (currPageID c) x
    (IdToPageLatestVersion c) (didCheckVersionsOfCachedPages c)
    (RequestsFromCache c) (RequestsNotFromCache c) (RequestsWrittenToCache c).

Definition set_IdToPageLatestVersion (c : CachingClient)
    (x : option (gmap string Z)) : CachingClient :=
  mkCachingClient (CacheDir c) (client c) (RedownloadNewerVersions c)
    (NoReadCache c) (pageIDToEntries c) (currPageID c) (currPageRequests c)
    x (didCheckVersionsOfCachedPages c)
    (RequestsFromCache c) (RequestsNotFromCache c) (RequestsWrittenToCache c).

Definition set_RequestsFromCache (c : CachingClient) (x : Z) : CachingClient :=
  mkCachingClient (CacheDir c) (client c) (RedownloadNewerVersions c)
    (NoReadCache c) (pageIDToEntries c) (currPageID c) (currPageRequests c)
    (IdToPageLatestVersion c) (didCheckVersionsOfCachedPages c)
    x (RequestsNotFromCache c) (RequestsWrittenToCache c).

Definition set_RequestsNotFromCache (c : CachingClient) (x : Z)
  : CachingClient :=
  mkCachingClient (CacheDir c) (client c) (RedownloadNewerVersions c)
    (NoReadCache c) (pageIDToEntries c) (currPageID c) (currPageRequests c)
    (IdToPageLatestVersion c) (didCheckVersionsOfCachedPages c)
    (RequestsFromCache c) x (RequestsWrittenToCache c).

Definition set_RequestsWrittenToCache (c : CachingClient) (x : Z)
  : CachingClient :=
  mkCachingClient (CacheDir c) (client c) (RedownloadNewerVersions c)
    (NoReadCache c) (pageIDToEntries c) (currPageID c) (currPageRequests c)
    (IdToPageLatestVersion c) (didCheckVersionsOfCachedPages c)
    (RequestsFromCache c) (RequestsNotFromCache c) x.

Definition set_RedownloadNewerVersions (c : CachingClient) (x : bool)
  : CachingClient :=
  mkCachingClient (CacheDir c) (client c) x (NoReadCache c)
    (pageIDToEntries c) (currPageID c) (currPageRequests c)
    (IdToPageLatestVersion c) (didCheckVersionsOfCachedPages c)
    (RequestsFromCache c) (RequestsNotFromCache c) (RequestsWrittenToCache c).

Definition set_didCheckVersionsOfCachedPages (c : CachingClient) (x : bool)
  : CachingClient :=
  mkCachingClient (CacheDir c) (client c) (RedownloadNewerVersions c)
    (NoReadCache c) (pageIDToEntries c) (currPageID c) (currPageRequests c)
    (IdToPageLatestVersion c) x
    (RequestsFromCache c) (RequestsNotFromCache c) (RequestsWrittenToCache c).

Definition nilDeref : string :=
  "invalid memory address or nil pointer dereference".

Definition nilMapWrite : string := "assignment to entry in nil map".

Section CachingClient.
Context `{Env}.

(** A write to a [bytes.Buffer] does not fail, so [WriteRecord] returns
    no error here. *)
Definition serializeCacheEntry (rr : RequestCacheEntry) : result string :=
  let r := siser.Reset in
  let r := siser.Write r "Method" (Method rr) in
  let r := siser.Write r "URL" (URL rr) in
  let r := siser.Write r "Body" (Body rr) in
  let response := PrettyPrintJS (Response rr) in
  let r := siser.Write r "Response" response in
  let r := siser.setName r recCacheName in
  Ok (siser.WriteRecord r).

(** The record [serializeCacheEntry] hands to the writer. *)
Definition cacheRecord (rr : RequestCacheEntry) : siser.Record :=
  siser.mkRecord
    [siser.mkEntry "Method" (Method rr); siser.mkEntry "URL" (URL rr);
     siser.mkEntry "Body" (Body rr);
     siser.mkEntry "Response" (PrettyPrintJS (Response rr))]
    recCacheName.

(** The bytes of a list of records, one frame after the other. *)
Fixpoint frames (rs : list RequestCacheEntry) : string :=
  match rs with
  | [] => ""
  | rr :: rs' => siser.WriteRecord (cacheRecord rr) +:+ frames rs'
  end.

(** The loop of [deserializeCacheEntry]; the reader's own error is never
    inspected, so a framing error ends the loop like end of input.  Every
    record read consumes input, so [S (length d)] rounds are enough
    ([None] is running out of them). *)
Fixpoint deserialize_go (fuel : nat) (input : string) (err : option error)
    (res : list RequestCacheEntry)
  : option (result (list RequestCacheEntry)) :=
  match fuel with
  | O => None
  | S fuel' =>
      match siser.ReadNextRecord input with
      | None =>
          Some (match err with Some e => Err e | None => Ok res end)
      | Some (r, rest) =>
          if negb (String.eqb (siser.Name r) recCacheName) then
            Some (Err ("unexpected record type '" +:+ siser.Name r
                       +:+ "', wanted '" +:+ recCacheName +:+ "'"))
          else
            let '(method, err) := recGetKey r "Method" err in
            let '(url, err) := recGetKey r "URL" err in
            let '(body, err) := recGetKeyBytes r "Body" err in
            let '(response, err) := recGetKeyBytes r "Response" err in
            deserialize_go fuel' rest err
              (res ++ [mkCacheEntry method url body response])
      end
  end.

Definition deserializeCacheEntry (d : string)
  : result (list RequestCacheEntry) :=
  match deserialize_go (S (String.length d)) d None [] with
  | Some r => r
  | None => Panic "deserializeCacheEntry: out of fuel"
  end.

(** The loop of [readRequestsCacheFile] over the directory entries: the
    outcome and the index as the loop leaves it. *)
Fixpoint readEntries (dir : string) (entries : list FileInfo) (fs : FS)
    (idx : gmap string (list RequestCacheEntry))
  : result unit * gmap string (list RequestCacheEntry) :=
  match entries with
  | [] => (Ok tt, idx)
  | fi :: entries' =>
      if negb (fiRegular fi) then readEntries dir entries' fs idx
      else
        let name := fiName fi in
        if negb (HasSuffix name ".txt") then readEntries dir entries' fs idx
        else
          let maybeID := removeAll ".txt" name in
          match NewNotionID maybeID with
          | None => readEntries dir entries' fs idx
          | Some nid =>
              let path := Join dir name in
              match ReadFile path fs with
              | inl e => (Err e, idx)
              | inr d =>
                  match deserializeCacheEntry d with
                  | Err e => (Err e, idx)
                  | Panic m => (Panic m, idx)
                  | Ok entries =>
                      readEntries dir entries' fs
                        (<[NoDashID nid := entries]> idx)
                  end
              end
          end
  end.

Definition readRequestsCacheFile (c : CachingClient) (dir : string) (fs : FS)
  : result unit * CachingClient :=
  let c := set_pageIDToEntries c ∅ in
  match MkdirAll dir fs with
  | Some e => (Err e, c)
  | None =>
      match ReadDir dir fs with
      | inl e => (Err e, c)
      | inr entries =>
          let '(r, idx) := readEntries dir entries fs ∅ in
          (r, set_pageIDToEntries c idx)
      end
  end.

(** The directory entries [readRequestsCacheFile] reads: regular files
    whose name ends in [.txt] and, once every [.txt] is removed, parses as
    an identity. *)
Definition indexable (fi : FileInfo) : bool :=
  fiRegular fi && HasSuffix (fiName fi) ".txt"
  && bool_decide (is_Some (NewNotionID (removeAll ".txt" (fiName fi)))).

(** The file of a directory entry can be read and its content
    deserializes. *)
Definition loads (dir : string) (fs : FS) (fi : FileInfo) : Prop :=
  exists d es,
    ReadFile (Join dir (fiName fi)) fs = inr d /\ deserializeCacheEntry d = Ok es.

(** The index key under which [readRequestsCacheFile] files a directory
    entry; none for an entry it skips. *)
Definition cacheKey (fi : FileInfo) : option string :=
  if indexable fi
  then NoDashID <$> NewNotionID (removeAll ".txt" (fiName fi))
  else None.

(** The scan of [tryReadFromCache]: the response of the first entry with
    this method, url and body. *)
Fixpoint findEntry (rs : list RequestCacheEntry) (method uri body : string)
  : option string :=
  match rs with
  | [] => None
  | r :: rs' =>
      if negb (String.eqb (Method r) method) then findEntry rs' method uri body
      else if negb (String.eqb (URL r) uri) then findEntry rs' method uri body
      else if negb (String.eqb (Body r) body) then findEntry rs' method uri body
      else Some (Response r)
  end.

(** [tryReadFromCache]: [Ok (Some d)] is [(d, true)], [Ok None] is
    [(nil, false)]; reading [c.currPageID.NoDashID] outside a page scope
    is a nil dereference. *)
Definition tryReadFromCache (c : CachingClient) (method uri body : string)
  : result (option string) :=
  if NoReadCache c then Ok None
  else
    match currPageID c with
    | None => Panic nilDeref
    | Some nid =>
        let pageRequests := default [] (pageIDToEntries c !! NoDashID nid) in
        Ok (findEntry pageRequests method uri body)
    end.

(** The loop of [writeCacheForCurrPage] that serializes the pending
    requests into one buffer. *)
Fixpoint serializeAll (rs : list RequestCacheEntry) (buf : string)
  : result string :=
  match rs with
  | [] => Ok buf
  | rr :: rs' =>
      match serializeCacheEntry rr with
      | Err e => Err e
      | Panic m => Panic m
      | Ok d => serializeAll rs' (buf +:+ d)
      end
  end.

(** Serializing a list of records the way [writeCacheForCurrPage] does and
    reading the bytes back. *)
Definition roundTrip (rs : list RequestCacheEntry)
  : result (list RequestCacheEntry) :=
  match serializeAll rs "" with
  | Ok buf => deserializeCacheEntry buf
  | Err e => Err e
  | Panic m => Panic m
  end.

(** A record as the cache file holds it: the response pretty-printed. *)
Definition stored (rr : RequestCacheEntry) : RequestCacheEntry :=
  mkCacheEntry (Method rr) (URL rr) (Body rr) (PrettyPrintJS (Response rr)).

Definition writeCacheForCurrPage (c : CachingClient) (fs : FS)
  : result unit * CachingClient * FS :=
  if decide (length (currPageRequests c) = 0%nat) then (Ok tt, c, fs)
  else
    match serializeAll (currPageRequests c) "" with
    | Err e => (Err e, c, fs)
    | Panic m => (Panic m, c, fs)
    | Ok buf =>
        match currPageID c with
        | None => (Panic nilDeref, c, fs)
        | Some nid =>
            let fileName := NoDashID nid +:+ ".txt" in
            let path := Join (CacheDir c) fileName in
            match WriteFile path buf fs with
            | (Some e, fs) => (Err e, c, Remove path fs)
            | (None, fs) =>
                let c := set_RequestsWrittenToCache c
                           (int_add (RequestsWrittenToCache c)
                                    (Z.of_nat (length (currPageRequests c)))) in
                let c := set_currPageRequests c [] in
                (Ok tt, c, fs)
            end
        end
    end.

Definition cacheRequest (c : CachingClient) (method uri body response : string)
  : CachingClient :=
  match currPageID c with
  | None => c
  | Some _ =>
      let rr := mkCacheEntry method uri body response in
      set_currPageRequests c (currPageRequests c ++ [rr])
  end.

Definition doPostMaybeCached (c : CachingClient) (uri body : string) (n : Net)
  : result string * CachingClient * Net :=
  match tryReadFromCache c "POST" uri body with
  | Panic m => (Panic m, c, n)
  | Err e => (Err e, c, n)
  | Ok (Some d) =>
      (Ok d, set_RequestsFromCache c (int_add (RequestsFromCache c) 1), n)
  | Ok None =>
      match doPostInternal uri body n with
      | (Err e, n) => (Err e, c, n)
      | (Panic m, n) => (Panic m, c, n)
      | (Ok d, n) =>
          let c := set_RequestsNotFromCache c
                     (int_add (RequestsNotFromCache c) 1) in
          let c := cacheRequest c "POST" uri body d in
          (Ok d, c, n)
      end
  end.

(** [client.DownloadPage] run with [httpPostOverride] bound to
    [doPostMaybeCached]: every request of the script goes through it.  A
    panic inside a request unwinds the script.  The answers handed to the
    script are collected, in order, next to the outcome. *)
Fixpoint runDownload (d : Download) (c : CachingClient) (n : Net)
  : result Page * list (result string) * CachingClient * Net :=
  match d with
  | Return r => (r, [], c, n)
  | Post uri body k =>
      match doPostMaybeCached c uri body n with
      | (Panic m, c, n) => (Panic m, [], c, n)
      | (r, c, n) =>
          let '(p, rs, c, n) := runDownload (k r) c n in
          (p, r :: rs, c, n)
      end
  end.

(** The outcome of one [DownloadPage] call: the returned page or error,
    the answers its requests received, and the client, the file system
    and the network as the call leaves them. *)
Record Downloaded := mkDownloaded {
  d_result : result Page;
  d_responses : list (result string);
  d_client : CachingClient;
  d_fs : FS;
  d_net : Net;
}.

(** [DownloadPage].  The deferred function runs whatever the outcome of
    the delegated download, a panic included; the error of the flush is
    dropped. *)
Definition DownloadPage (c : CachingClient) (pageID : string) (fs : FS)
    (n : Net) : Downloaded :=
  let c := set_currPageRequests c [] in
  let c := set_currPageID c (NewNotionID pageID) in
  match currPageID c with
  | None =>
      mkDownloaded (Err ("'" +:+ pageID +:+ "' is not a valid notion id"))
                   [] c fs n
  | Some _ =>
      let prevOverride := httpPostOverride (client c) in
      let c := set_client c (mkClient (Some HookMaybeCached)) in
      let '(r, rs, c, n) := runDownload (clientDownloadPage pageID) c n in
      (* the deferred function *)
      match writeCacheForCurrPage c fs with
      | (Panic m, c, fs) => mkDownloaded (Panic m) rs c fs n
      | (_, c, fs) =>
          let c := set_client c (mkClient prevOverride) in
          let c := set_currPageID c None in
          mkDownloaded r rs c fs n
      end
  end.
(** The client as [DownloadPage] hands it to the delegated download of a
    valid id: nothing pending, the scope bound, the hook installed. *)
Definition enterScope (c : CachingClient) (nid : NotionID) : CachingClient :=
  set_client (set_currPageID (set_currPageRequests c []) (Some nid))
             (mkClient (Some HookMaybeCached)).

(** The client as [DownloadPage] leaves it after the flush: the previous
    hook back in place, the scope unbound. *)
Definition leaveScope (c : CachingClient) (prevOverride : option PostHook)
  : CachingClient :=
  set_currPageID (set_client c (mkClient prevOverride)) None.

(** [servedFromCache d entries]: every request the script [d] issues, when
    answered from [entries], is found there. *)
Fixpoint servedFromCache (d : Download) (entries : list RequestCacheEntry)
  : Prop :=
  match d with
  | Return _ => True
  | Post uri body k =>
      match findEntry entries "POST" uri body with
      | Some resp => servedFromCache (k (Ok resp)) entries
      | None => False
      end
  end.

(** What a script returns and is answered when every request is answered
    from [entries]. *)
Fixpoint replay (d : Download) (entries : list RequestCacheEntry)
  : result Page * list (result string) :=
  match d with
  | Return r => (r, [])
  | Post uri body k =>
      match findEntry entries "POST" uri body with
      | Some resp =>
          let '(r, rs) := replay (k (Ok resp)) entries in (r, Ok resp :: rs)
      | None => (Err "not in cache", [])
      end
  end.

(** What a download leaves alone in the client: everything but the
    pending list and the two request counters. *)
Definition sameScope (c c' : CachingClient) : Prop :=
  CacheDir c' = CacheDir c /\ client c' = client c /\
  RedownloadNewerVersions c' = RedownloadNewerVersions c /\
  NoReadCache c' = NoReadCache c /\
  pageIDToEntries c' = pageIDToEntries c /\
  currPageID c' = currPageID c /\
  IdToPageLatestVersion c' = IdToPageLatestVersion c /\
  didCheckVersionsOfCachedPages c' = didCheckVersionsOfCachedPages c /\
  RequestsWrittenToCache c' = RequestsWrittenToCache c.

(** *** The version oracle *)

(** [normalizeIDS] rewrites the slice it is given in place; the caller's
    slice has the same length and the normalized elements afterwards. *)
Definition normalizeIDS (ids : list string) : list string :=
  map normalizeID ids.

Definition indexOutOfRange : string := "index out of range".

(** The loop of [getVersionsForPages] over the results, from position [i]. *)
Fixpoint collectVersions (ids : list string) (i : nat)
    (results : list (option Block)) (versions : list Z) : result (list Z) :=
  match results with
  | [] => Ok versions
  | rec :: results' =>
      match rec with
      | None => collectVersions ids (S i) results' (versions ++ [0])
      | Some b =>
          let id := BlockID b in
          match ids !! i with
          | None => Panic indexOutOfRange
          | Some idi =>
              if negb (isIDEqual idi id) then
                Panic ("got result in the wrong order, ids[i]: "
                       +:+ default "" (ids !! 0%nat) +:+ ", id: " +:+ id)
              else collectVersions ids (S i) results'
                     (versions ++ [BlockVersion b])
          end
      end
  end.

(** [getVersionsForPages]: the versions, the caller's [ids] as normalized
    in place, and the network.  The query goes through a copy of the
    client whose [httpPostOverride] is nil, that is, straight to the
    network. *)
Definition getVersionsForPages (ids : list string) (n : Net)
  : result (list Z) * list string * Net :=
  let ids := normalizeIDS ids in
  match GetBlockRecords ids n with
  | (Err e, n) => (Err e, ids, n)
  | (Panic m, n) => (Panic m, ids, n)
  | (Ok results, n) =>
      if negb (length results =? length ids)%nat then
        (Err ("getVersionsForPages(): got " +:+ Itoa (length results)
              +:+ " results, expected " +:+ Itoa (length ids)), ids, n)
      else (collectVersions ids 0 results [], ids, n)
  end.

(** The loop of [updateVersionsForPages] that records [versions[i]] under
    the no-dash form of [ids[i]]. *)
Fixpoint storeVersions (ids : list string) (versions : list Z)
    (m : option (gmap string Z)) : result (option (gmap string Z)) :=
  match ids with
  | [] => Ok m
  | id :: ids' =>
      match versions with
      | [] => Panic indexOutOfRange
      | ver :: versions' =>
          match m with
          | None => Panic nilMapWrite
          | Some m' =>
              storeVersions ids' versions' (Some (<[ToNoDashID id := ver]> m'))
          end
      end
  end.

(** [updateVersionsForPages] (the event it emits to the observer is not
    modelled). *)
Definition updateVersionsForPages (d : CachingClient) (ids : list string)
    (n : Net) : result unit * CachingClient * Net :=
  if decide (length ids = 0%nat) then (Ok tt, d, n)
  else
    let ids := merge_sort String.le ids in
    match getVersionsForPages ids n with
    | (Err e, _, n) =>
        (Err ("d.updateVersionsForPages() for " +:+ Itoa (length ids)
              +:+ " pages failed with '" +:+ e +:+ "'"), d, n)
    | (Panic m, _, n) => (Panic m, d, n)
    | (Ok versions, ids, n) =>
        if negb (length ids =? length versions)%nat then
          (Err ("d.updateVersionsForPages() asked for "
                +:+ Itoa (length ids) +:+ " pages but got "
                +:+ Itoa (length versions) +:+ " results"), d, n)
        else
          match storeVersions ids versions (IdToPageLatestVersion d) with
          | Ok m => (Ok tt, set_IdToPageLatestVersion d m, n)
          | Err e => (Err e, d, n)
          | Panic msg => (Panic msg, d, n)
          end
    end.

(** The version [getVersionsForPages] reports for one result. *)
Definition versionOf (rec : option Block) : Z :=
  match rec with
  | None => 0
  | Some b => BlockVersion b
  end.

(** The test [getVersionsForPages] makes on one result: a result that
    carries a block must carry the block of the id asked for. *)
Definition answersFor (id : string) (rec : option Block) : bool :=
  match rec with
  | Some b => isIDEqual id (BlockID b)
  | None => true
  end.

(** A read of [d.IdToPageLatestVersion[id]]: a nil map has no entry. *)
Definition latestVersion (d : CachingClient) (id : string) : option Z :=
  match IdToPageLatestVersion d with
  | Some m => m !! id
  | None => None
  end.

(** [canReturnCachedPage]; [p = None] is the nil page. *)
Definition canReturnCachedPage (d : CachingClient) (p : option Page) (n : Net)
  : result bool * CachingClient * Net :=
  match p with
  | None => (Ok false, d, n)
  | Some p =>
      if negb (RedownloadNewerVersions d) then (Ok true, d, n)
      else
        let pageID := ToNoDashID (ID p) in
        let compare (d : CachingClient) (n : Net) :=
          let newestVer := default 0 (latestVersion d pageID) in
          let pageVer := RootVersion p in
          (Ok (pageVer >=? newestVer), d, n) in
        match latestVersion d pageID with
        | Some _ => compare d n
        | None =>
            match updateVersionsForPages d [pageID] n with
            | (Err _, d, n) => (Ok false, d, n)
            | (Panic m, d, n) => (Panic m, d, n)
            | (Ok _, d, n) => compare d n
            end
        end
  end.

(** *** The crawl *)

(** The loop of [DownloadPagesRecursively].  [calls] is not a variable of
    the program: it lists, in call order, the ids [DownloadPage] was
    called with and what each call returned.  The callback is a function
    of the page.  [None] is running out of [fuel] (the Go loop has no
    bound of its own). *)
Fixpoint crawl (fuel : nat) (afterDownload : option (Page -> option error))
    (toVisit : list string) (downloaded : gmap string Page)
    (calls : list (string * result Page))
    (c : CachingClient) (fs : FS) (n : Net)
  : option (result (gmap string Page) * list (string * result Page)
            * CachingClient * FS * Net) :=
  match fuel with
  | O => None
  | S fuel' =>
      match toVisit with
      | [] => Some (Ok downloaded, calls, c, fs, n)
      | first :: toVisit =>
          let pageID := ToNoDashID first in
          match downloaded !! pageID with
          | Some _ =>
              crawl fuel' afterDownload toVisit downloaded calls c fs n
          | None =>
              let r := DownloadPage c pageID fs n in
              let calls := calls ++ [(pageID, d_result r)] in
              let '(c, fs, n) := (d_client r, d_fs r, d_net r) in
              match d_result r with
              | Err e => Some (Err e, calls, c, fs, n)
              | Panic m => Some (Panic m, calls, c, fs, n)
              | Ok page =>
                  let downloaded := <[pageID := page]> downloaded in
                  match from_option (fun f => f page) None afterDownload with
                  | Some e => Some (Err e, calls, c, fs, n)
                  | None =>
                      let subPages := SubPages page in
                      crawl fuel' afterDownload (toVisit ++ subPages)
                            downloaded calls c fs n
                  end
              end
          end
      end
  end.

Definition nilPage : Page := mkPage "" 0 [].

(** The tail of [DownloadPagesRecursively]: the downloaded pages in
    ascending order of their keys ([sort.Strings] is byte-wise). *)
Definition sortedPages (downloaded : gmap string Page) : list Page :=
  let n := size downloaded in
  if decide (n = 0%nat) then []
  else
    let ids := (map_to_list downloaded).*1 in
    let ids := merge_sort String.le ids in
    map (fun id => default nilPage (downloaded !! id)) ids.

Definition DownloadPagesRecursively (fuel : nat) (c : CachingClient)
    (startPageID : string) (afterDownload : option (Page -> option error))
    (fs : FS) (n : Net)
  : option (result (list Page) * list (string * result Page)
            * CachingClient * FS * Net) :=
  match crawl fuel afterDownload [startPageID] ∅ [] c fs n with
  | None => None
  | Some (Ok downloaded, calls, c, fs, n) =>
      Some (Ok (sortedPages downloaded), calls, c, fs, n)
  | Some (Err e, calls, c, fs, n) => Some (Err e, calls, c, fs, n)
  | Some (Panic m, calls, c, fs, n) => Some (Panic m, calls, c, fs, n)
  end.
(** A call of the crawl after which it goes on: the download returned a
    page and the callback, if there is one, returned no error for it. *)
Definition accepted (afterDownload : option (Page -> option error))
    (call : string * result Page) : Prop :=
  exists page,
    call.2 = Ok page /\
    from_option (fun f => f page) None afterDownload = None.

(** How a crawl that returned [res] made its calls: all of them accepted
    when it succeeded; otherwise all but the last accepted, and the last
    one the failure returned. *)
Definition stoppedAt (afterDownload : option (Page -> option error))
    (res : result unit) (calls : list (string * result Page)) : Prop :=
  match res with
  | Ok _ => Forall (accepted afterDownload) calls
  | Err e =>
      exists calls0 last,
        calls = calls0 ++ [last] /\ Forall (accepted afterDownload) calls0 /\
        (last.2 = Err e \/
         exists page,
           last.2 = Ok page /\
           from_option (fun f => f page) None afterDownload = Some e)
  | Panic m =>
      exists calls0 last,
        calls = calls0 ++ [last] /\ Forall (accepted afterDownload) calls0 /\
        last.2 = Panic m
  end.




(** *** The rest of the client *)

(** [NewCachingClient]; [client = None] is the nil client.  The struct
    literal sets [CacheDir] and [client] and leaves every other field at
    its zero value: the version map is nil, and the index, nil too, is
    replaced by the loader before anything reads it. *)
Definition NewCachingClient (cacheDir : string) (client : option Client)
    (fs : FS) : result CachingClient :=
  if String.eqb cacheDir "" then Err "must provide cacheDir"
  else
    match client with
    | None => Err "must provide client"
    | Some client =>
        let res := mkCachingClient cacheDir client false false ∅ None []
                                   None false 0 0 0 in
        match readRequestsCacheFile res cacheDir fs with
        | (Err e, _) => Err e
        | (Panic m, _) => Panic m
        | (Ok _, res) => Ok res
        end
    end.

(** [GetPageIDs]: the keys of the index, in the order the map iteration
    yields them (Go leaves that order unspecified). *)
Definition GetPageIDs (c : CachingClient) : list string :=
  (map_to_list (pageIDToEntries c)).*1.

(** [checkVersionsOfCachedPages]. *)
Definition checkVersionsOfCachedPages (d : CachingClient) (n : Net)
  : result unit * CachingClient * Net :=
  if negb (RedownloadNewerVersions d) then (Ok tt, d, n)
  else if didCheckVersionsOfCachedPages d then (Ok tt, d, n)
  else
    let ids := GetPageIDs d in
    match updateVersionsForPages d ids n with
    | (Err e, d, n) => (Err e, d, n)
    | (Panic m, d, n) => (Panic m, d, n)
    | (Ok _, d, n) => (Ok tt, set_didCheckVersionsOfCachedPages d true, n)
    end.




(** [matches method uri body r]: the test of [tryReadFromCache] on one
    entry. *)
Definition matches (method uri body : string) (r : RequestCacheEntry) : Prop :=
  Method r = method /\ URL r = uri /\ Body r = body.

End CachingClient.

(** *** JSON *)

#[local] Set Warnings "-register-all".

Module JSON.

(** Modelled from the spec: [PrettyPrintJS] and the JSON encoder are not
    part of the sources.  The specification says that a response body is
    stored pretty-printed when it is JSON-parseable and verbatim
    otherwise.  This model decodes and re-encodes the JSON texts whose
    re-encoding is determined by their syntax alone: objects, arrays,
    [true], [false], [null], strings of printable ASCII without escapes,
    and whole numbers; the encoding is the indented one of Go's
    [json.MarshalIndent(m, "", "  ")].  Every other text is returned
    unchanged, also a JSON text outside this fragment (escapes, fractions,
    exponents), whose re-encoding is not modelled. *)

(** What [encoding/json] decodes into an [interface{}]: nil, a bool, a
    number, a string, a [[]interface{}] or a [map[string]interface{}]. *)
Inductive Value : Type :=
| Null
| Bool (b : bool)
| Number (z : Z)
| Str (s : string)
| Arr (l : list Value)
| Obj (m : list (string * Value)).

Definition quote : ascii := "034"%char.

Definition isSpace (a : ascii) : bool :=
  Ascii.eqb a " " || Ascii.eqb a "009" || Ascii.eqb a nl || Ascii.eqb a "013".

Definition isDigit (a : ascii) : bool :=
  (48 <=? nat_of_ascii a)%nat && (nat_of_ascii a <=? 57)%nat.

(** The bytes a JSON string may hold here: printable ASCII that the
    encoder writes back unescaped. *)
Definition isPlain (a : ascii) : bool :=
  (32 <=? nat_of_ascii a)%nat && (nat_of_ascii a <=? 126)%nat
  && negb (Ascii.eqb a quote) && negb (Ascii.eqb a "\")
  && negb (Ascii.eqb a "<") && negb (Ascii.eqb a ">")
  && negb (Ascii.eqb a "&").

Fixpoint skipSpace (s : string) : string :=
  match s with
  | String a s' => if isSpace a then skipSpace s' else s
  | EmptyString => s
  end.

(** The body of a string literal, after its opening quote. *)
Fixpoint scanString (s : string) : option (string * string) :=
  match s with
  | EmptyString => None
  | String a s' =>
      if Ascii.eqb a quote then Some (EmptyString, s')
      else if isPlain a then
        match scanString s' with
        | Some (t, r) => Some (String a t, r)
        | None => None
        end
      else None
  end.

Fixpoint scanDigits (s : string) (acc : Z) : Z * string :=
  match s with
  | String a s' =>
      if isDigit a
      then scanDigits s' (10 * acc + Z.of_nat (nat_of_ascii a - 48))
      else (acc, s)
  | EmptyString => (acc, s)
  end.

(** A whole number written the way the encoder writes it back: no
    leading zero, no minus zero, no fraction or exponent, and small
    enough to be exact as a float64. *)
Definition scanNumber (s : string) : option (Z * string) :=
  let '(neg, s1) := match s with
                    | String "-" s' => (true, s')
                    | _ => (false, s)
                    end in
  match s1 with
  | String a s2 =>
      if isDigit a then
        let '(z, r) := scanDigits s1 0 in
        let leadingZero := Ascii.eqb a "0" && negb (String.eqb s2 r) in
        let more := match r with
                    | String b _ =>
                        Ascii.eqb b "." || Ascii.eqb b "e" || Ascii.eqb b "E"
                    | EmptyString => false
                    end in
        if leadingZero || more || (neg && (z =? 0)) || (2 ^ 53 <? z)
        then None
        else Some (if neg then - z else z, r)
      else None
  | EmptyString => None
  end.

Definition expect (lit : string) (s : string) : option string :=
  if String.prefix lit s
  then Some (String.substring (String.length lit)
               (String.length s - String.length lit) s)
  else None.

(** A Go map keeps one value per key, the last one decoded. *)
Fixpoint setKey (k : string) (v : Value) (m : list (string * Value))
  : list (string * Value) :=
  match m with
  | [] => [(k, v)]
  | (k', v') :: m' =>
      if String.eqb k k' then (k, v) :: m' else (k', v') :: setKey k v m'
  end.

(** [elements value fuel s acc]: the rest of an array after a value. *)
Fixpoint elements (value : string -> option (Value * string)) (fuel : nat)
    (s : string) (acc : list Value) : option (Value * string) :=
  match fuel with
  | O => None
  | S fuel' =>
      match skipSpace s with
      | String "]" r => Some (Arr acc, r)
      | String "," r =>
          match value r with
          | Some (v, r') => elements value fuel' r' (acc ++ [v])
          | None => None
          end
      | _ => None
      end
  end.

Definition member (value : string -> option (Value * string)) (s : string)
  : option (string * Value * string) :=
  match skipSpace s with
  | String a r =>
      if Ascii.eqb a quote then
        match scanString r with
        | Some (k, r1) =>
            match skipSpace r1 with
            | String ":" r2 =>
                match value r2 with
                | Some (v, r3) => Some (k, v, r3)
                | None => None
                end
            | _ => None
            end
        | None => None
        end
      else None
  | EmptyString => None
  end.

Fixpoint members (value : string -> option (Value * string)) (fuel : nat)
    (s : string) (acc : list (string * Value)) : option (Value * string) :=
  match fuel with
  | O => None
  | S fuel' =>
      match skipSpace s with
      | String "}" r => Some (Obj acc, r)
      | String "," r =>
          match member value r with
          | Some (k, v, r') => members value fuel' r' (setKey k v acc)
          | None => None
          end
      | _ => None
      end
  end.

Fixpoint value (fuel : nat) (s : string) : option (Value * string) :=
  match fuel with
  | O => None
  | S fuel' =>
      match skipSpace s with
      | String "{" r =>
          match skipSpace r with
          | String "}" r' => Some (Obj [], r')
          | _ =>
              match member (value fuel') r with
              | Some (k, v, r') => members (value fuel') fuel' r' [(k, v)]
              | None => None
              end
          end
      | String "[" r =>
          match skipSpace r with
          | String "]" r' => Some (Arr [], r')
          | _ =>
              match value fuel' r with
              | Some (v, r') => elements (value fuel') fuel' r' [v]
              | None => None
              end
          end
      | String "t" _ as s' =>
          match expect "true" s' with Some r => Some (Bool true, r) | None => None end
      | String "f" _ as s' =>
          match expect "false" s' with Some r => Some (Bool false, r) | None => None end
      | String "n" _ as s' =>
          match expect "null" s' with Some r => Some (Null, r) | None => None end
      | String a r as s' =>
          if Ascii.eqb a quote then
            match scanString r with
            | Some (t, r') => Some (Str t, r')
            | None => None
            end
          else
            match scanNumber s' with
            | Some (z, r') => Some (Number z, r')
            | None => None
            end
      | EmptyString => None
      end
  end.

(** [json.Unmarshal(js, &m)] for [m] a [map[string]interface{}]: the
    text must be one object, or [null], which leaves the map nil. *)
Definition Unmarshal (js : string) : option (option (list (string * Value))) :=
  match value (S (String.length js)) js with
  | Some (Obj m, r) => if String.eqb (skipSpace r) "" then Some (Some m) else None
  | Some (Null, r) => if String.eqb (skipSpace r) "" then Some None else None
  | _ => None
  end.

Fixpoint indent (depth : nat) : string :=
  match depth with
  | O => ""
  | S d => "  " +:+ indent d
  end.

Fixpoint joinLines (sep : string) (items : list string) : string :=
  match items with
  | [] => ""
  | [x] => x
  | x :: rest => x +:+ sep +:+ joinLines sep rest
  end.

Definition ItoaZ (z : Z) : string :=
  if z <? 0 then "-" +:+ Itoa (Z.to_nat (- z)) else Itoa (Z.to_nat z).

Definition keyLe (x y : string * string) : Prop := String.le x.1 y.1.

Definition quoted (s : string) : string :=
  String quote s +:+ String quote "".

(** The indented encoding: two spaces per level, the keys of an object
    in byte order, one key or element per line. *)
Fixpoint encode (depth : nat) (v : Value) : string :=
  match v with
  | Null => "null"
  | Bool true => "true"
  | Bool false => "false"
  | Number z => ItoaZ z
  | Str s => quoted s
  | Arr [] => "[]"
  | Arr l =>
      let items := map (fun x => indent (S depth) +:+ encode (S depth) x) l in
      "[" +:+ NL +:+ joinLines ("," +:+ NL) items +:+ NL
      +:+ indent depth +:+ "]"
  | Obj [] => "{}"
  | Obj m =>
      let items :=
        map (fun kv : string * Value =>
               (kv.1, indent (S depth) +:+ quoted kv.1 +:+ ": "
                      +:+ encode (S depth) kv.2)) m in
      let items := merge_sort keyLe items in
      "{" +:+ NL +:+ joinLines ("," +:+ NL) (map snd items) +:+ NL
      +:+ indent depth +:+ "}"
  end.

Definition PrettyPrintJS (js : string) : string :=
  match Unmarshal js with
  | None => js
  | Some None => "null"
  | Some (Some m) => encode 0 (Obj m)
  end.

End JSON.

(** *** Text spans *)

Module TextSpans.
Import JSON.

Definition TextSpanSpecial : string :=
  String "226" (String "128" (String "163" "")).

Definition Attr2Bold : string := "b".
Definition Attr2Code : string := "c".
Definition Attr2Italic : string := "i".
Definition Attr2StrikeThrought : string := "s".
Definition Attr2Comment : string := "m".
Definition Attr2Link : string := "a".
Definition Attr2User : string := "u".
Definition Attr2Highlight : string := "h".
Definition Attr2Date : string := "d".

Definition TextAttr := list string.

Record TextSpan := mkTextSpan { Text : string; Attrs : list TextAttr }.

Definition IsPlain (t : TextSpan) : bool :=
  bool_decide (length (Attrs t) = 0%nat).

Definition appendAttr (b : TextSpan) (attr : TextAttr) : TextSpan :=
  mkTextSpan (Text b) (Attrs b ++ [attr]).

(** The wrong shapes of a raw input, as the specification lists them: not
    a list of lists (at the level of the spans, of a span's attribute
    list, or of an attribute), a span of length other than 1 or 2, a
    non-string first element (of a span or of an attribute), a non-string
    value in a simple attribute, a date attribute whose length is not 2 or
    whose second value is not a map. *)
Inductive wrongShape : Value -> Prop :=
| ws_not_list raw :
    (forall l, raw <> Arr l) -> wrongShape raw
| ws_span_not_list spans v :
    v ∈ spans -> (forall l, v <> Arr l) -> wrongShape (Arr spans)
| ws_span_length spans a :
    Arr a ∈ spans -> length a <> 1%nat -> length a <> 2%nat ->
    wrongShape (Arr spans)
| ws_span_text spans a v :
    Arr a ∈ spans -> a !! 0%nat = Some v -> (forall s, v <> Str s) ->
    wrongShape (Arr spans)
| ws_attrs_not_list spans t v :
    Arr [t; v] ∈ spans -> (forall l, v <> Arr l) -> wrongShape (Arr spans)
| ws_attr_not_list spans t attrs v :
    Arr [t; Arr attrs] ∈ spans -> v ∈ attrs -> (forall l, v <> Arr l) ->
    wrongShape (Arr spans)
| ws_attr_kind spans t attrs a v :
    Arr [t; Arr attrs] ∈ spans -> Arr a ∈ attrs ->
    a !! 0%nat = Some v -> (forall s, v <> Str s) -> wrongShape (Arr spans)
| ws_attr_value spans t attrs k vals v :
    Arr [t; Arr attrs] ∈ spans -> Arr (Str k :: vals) ∈ attrs ->
    k <> Attr2Date -> v ∈ vals -> (forall s, v <> Str s) ->
    wrongShape (Arr spans)
| ws_date_length spans t attrs vals :
    Arr [t; Arr attrs] ∈ spans -> Arr (Str Attr2Date :: vals) ∈ attrs ->
    length vals <> 1%nat -> wrongShape (Arr spans)
| ws_date_map spans t attrs v :
    Arr [t; Arr attrs] ∈ spans -> Arr [Str Attr2Date; v] ∈ attrs ->
    (forall m, v <> Obj m) -> wrongShape (Arr spans).

Definition AttrGetType (attr : TextAttr) : result string :=
  match attr !! 0%nat with
  | Some ty => Ok ty
  | None => Panic "index out of range"
  end.

Definition panicIfAttrNot (attr : TextAttr) (fnName expectedType : string)
  : result unit :=
  match AttrGetType attr with
  | Ok ty =>
      if negb (String.eqb ty expectedType) then
        Panic ("don't call " +:+ fnName +:+ " on attribute of type " +:+ ty)
      else Ok tt
  | Err e => Err e
  | Panic m => Panic m
  end.

(** The index expression [attr[1]]. *)
Definition attrSecond (attr : TextAttr) : result string :=
  match attr !! 1%nat with
  | Some v => Ok v
  | None => Panic "index out of range"
  end.

Definition AttrGetLink (attr : TextAttr) : result string :=
  match panicIfAttrNot attr "AttrGetLink" Attr2Link with
  | Ok _ => attrSecond attr
  | Err e => Err e
  | Panic m => Panic m
  end.

Definition AttrGetUserID (attr : TextAttr) : result string :=
  match panicIfAttrNot attr "AttrGetUserID" Attr2User with
  | Ok _ => attrSecond attr
  | Err e => Err e
  | Panic m => Panic m
  end.

Definition AttrGetComment (attr : TextAttr) : result string :=
  match panicIfAttrNot attr "AttrGetComment" Attr2Comment with
  | Ok _ => attrSecond attr
  | Err e => Err e
  | Panic m => Panic m
  end.

Definition AttrGetHighlight (attr : TextAttr) : result string :=
  match panicIfAttrNot attr "AttrGetHighlight" Attr2Highlight with
  | Ok _ => attrSecond attr
  | Err e => Err e
  | Panic m => Panic m
  end.

Section Dates.
(** The [Date] type and [json.Unmarshal] into a [*Date] are not part of the
    sources: the decoder returns an error or the pointer it filled
    ([None] is the nil pointer that the text [null] leaves). *)
Variable Date : Type.
Variable UnmarshalDate : string -> error + option Date.

Definition AttrGetDate (attr : TextAttr) : result (option Date) :=
  match panicIfAttrNot attr "AttrGetDate" Attr2Date with
  | Ok _ =>
      match attrSecond attr with
      | Ok js =>
          match UnmarshalDate js with
          | inl err => Panic err
          | inr d => Ok d
          end
      | Err e => Err e
      | Panic m => Panic m
      end
  | Err e => Err e
  | Panic m => Panic m
  end.
End Dates.

(** A raw span without attributes: a text alone, or a text with an empty
    attribute list. *)
Definition plainRaw (a : list Value) : Prop :=
  exists t, a = [Str t] \/ a = [Str t; Arr []].

Section Parse.
(** [json.MarshalIndent(v, "", "  ")] on a map. *)
Variable MarshalIndent : list (string * Value) -> error + string.

(** What a well-shaped raw attribute parses to: a date attribute carries
    its kind and the marshaled map, any other attribute its kind and its
    trailing strings. *)
Inductive attrRel : Value -> TextAttr -> Prop :=
| attr_date m js :
    MarshalIndent m = inr js ->
    attrRel (Arr [Str Attr2Date; Obj m]) [Attr2Date; js]
| attr_simple k vals :
    k <> Attr2Date ->
    attrRel (Arr (Str k :: map Str vals)) (k :: vals).

(** What a well-shaped raw span parses to. *)
Inductive spanRel : Value -> TextSpan -> Prop :=
| span_plain t : spanRel (Arr [Str t]) (mkTextSpan t [])
| span_attrs t rawAttrs attrs :
    Forall2 attrRel rawAttrs attrs ->
    spanRel (Arr [Str t; Arr rawAttrs]) (mkTextSpan t attrs).

(** The loop of [parseTextSpanAttribute] over [a[1:]]. *)
Fixpoint trailingStrings (vs : list Value) (attr : TextAttr)
  : result TextAttr :=
  match vs with
  | [] => Ok attr
  | Str s :: vs' => trailingStrings vs' (attr ++ [s])
  | _ :: _ => Err "got unexpected type (expected string)"
  end.

(** An index expression [a[i]] panics when [i] is out of range; a type
    assertion in its two-result form does not panic. *)
Definition parseTextSpanAttribute (b : TextSpan) (a : list Value)
  : result TextSpan :=
  if decide (length a = 0%nat) then Err "attribute array is empty"
  else
    match a !! 0%nat with
    | None => Panic "index out of range"
    | Some (Str s) =>
        let attr := [s] in
        if String.eqb s Attr2Date then
          if decide (length a ≠ 2%nat) then
            Err "unexpected date attribute. Expected 2 values"
          else
            match a !! 1%nat with
            | None => Panic "index out of range"
            | Some (Obj v) =>
                match MarshalIndent v with
                | inl err => Err err
                | inr js => Ok (appendAttr b (attr ++ [js]))
                end
            | Some _ =>
                Err "got unexpected type (expected map[string]interface{}"
            end
        else
          match trailingStrings (drop 1 a) attr with
          | Ok attr => Ok (appendAttr b attr)
          | Err e => Err e
          | Panic m => Panic m
          end
    | Some _ => Err "a[0] is not string"
    end.

Fixpoint parseTextSpanAttributes (b : TextSpan) (a : list Value)
  : result TextSpan :=
  match a with
  | [] => Ok b
  | rawAttr :: a' =>
      match rawAttr with
      | Arr attrList =>
          match parseTextSpanAttribute b attrList with
          | Ok b => parseTextSpanAttributes b a'
          | Err e => Err e
          | Panic m => Panic m
          end
      | _ => Err "rawAttr is not []interface{}"
      end
  end.

Definition parseTextSpan (a : list Value) : result TextSpan :=
  if decide (length a = 0%nat) then Err "a is empty"
  else if decide (length a = 1%nat) then
    match a !! 0%nat with
    | None => Panic "index out of range"
    | Some (Str s) => Ok (mkTextSpan s [])
    | Some _ => Err "a is of length 1 but not string"
    end
  else if decide (length a ≠ 2%nat) then Err "a is of length != 2"
  else
    match a !! 0%nat with
    | None => Panic "index out of range"
    | Some (Str s) =>
        let res := mkTextSpan s [] in
        match a !! 1%nat with
        | None => Panic "index out of range"
        | Some (Arr a) => parseTextSpanAttributes res a
        | Some _ =>
            (* [a, ok = a[1].([]interface{})] has set [a] to nil; the
               arguments [a[1]] of the error message index it *)
            Panic "index out of range [1] with length 0"
        end
    | Some _ => Err "a[0] is not string"
    end.

(** The loop of [ParseTextSpans]. *)
Fixpoint parseSpans (a : list Value) (res : list TextSpan)
  : result (list TextSpan) :=
  match a with
  | [] => Ok res
  | v :: a' =>
      match v with
      | Arr a2 =>
          match parseTextSpan a2 with
          | Ok span => parseSpans a' (res ++ [span])
          | Err e => Err e
          | Panic m => Panic m
          end
      | _ => Err "v is not []interface{}"
      end
  end.

(** [ParseTextSpans]; [Ok []] is the Go result [(nil, nil)]. *)
Definition ParseTextSpans (raw : Value) : result (list TextSpan) :=
  match raw with
  | Null => Ok []
  | Arr a =>
      if decide (length a = 0%nat) then Err "raw is empty"
      else parseSpans a []
  | _ => Err "raw is not of []interface{}"
  end.
End Parse.

End TextSpans.

(** *** A concrete environment *)

Module Model.

(** Modelled from the spec: the identity normalizer is not part of the
    sources.  It validates free-form strings as legal identities and
    produces canonical dashed and no-dash forms; equality is defined on
    the no-dash form.  Here a legal identity is 32 hexadecimal digits,
    with or without dashes. *)
Definition isHex (a : ascii) : bool :=
  let n := nat_of_ascii a in
  ((48 <=? n) && (n <=? 57) || (97 <=? n) && (n <=? 102)
   || (65 <=? n) && (n <=? 70))%nat.

Definition IsValidNoDashID (id : string) : bool :=
  (String.length id =? 32)%nat && allBytes isHex id.

Definition ToNoDashID (id : string) : string :=
  let s := removeAll "-" id in
  if IsValidNoDashID s then s else "".

Definition ToDashID (id : string) : string :=
  let s := removeAll "-" id in
  if IsValidNoDashID s then
    String.substring 0 8 s +:+ "-" +:+ String.substring 8 4 s +:+ "-"
    +:+ String.substring 12 4 s +:+ "-" +:+ String.substring 16 4 s +:+ "-"
    +:+ String.substring 20 12 s
  else id.

Definition NewNotionID (maybeID : string) : option NotionID :=
  let s := removeAll "-" maybeID in
  if IsValidNoDashID s then Some (mkNotionID (ToDashID s) s) else None.

Definition isIDEqual (id1 id2 : string) : bool :=
  String.eqb (ToNoDashID id1) (ToNoDashID id2).

(** The network is the number of live requests made so far; what it
    answers is given by [post] and [blocks], and the script of a page
    download by [download]. *)
Definition env (post : string -> string -> nat -> result string)
    (blocks : list string -> nat -> result (list (option Block)))
    (download : string -> Download) : Env :=
  Build_Env JSON.PrettyPrintJS NewNotionID ToNoDashID isIDEqual ToDashID nat
    (fun uri body n => (post uri body n, S n))
    (fun ids n => (blocks ids n, S n))
    download.

Definition MarshalIndent (v : list (string * JSON.Value)) : error + string :=
  inr (JSON.encode 0 (JSON.Obj v)).

Definition idA : string := "0000000000000000000000000000000a".
Definition idB : string := "0000000000000000000000000000000b".
Definition dashA : string := "00000000-0000-0000-0000-00000000000a".
Definition pathA : string := Join "cache" (idA +:+ ".txt").

Definition noPost : string -> string -> nat -> result string :=
  fun _ _ _ => Err "offline".
Definition noBlocks : list string -> nat -> result (list (option Block)) :=
  fun _ _ => Err "offline".
Definition noDownload : string -> Download :=
  fun _ => Return (Err "offline").

Definition offline : Env := env noPost noBlocks noDownload.

Definition noFS : FS :=
  mkFS ∅ (fun _ => None) (fun _ => inr []) (fun _ => None) (fun _ => None)
       (fun _ => false).

Definition newClient : CachingClient :=
  mkCachingClient "cache" (mkClient None) false false ∅ None [] None false
                  0 0 0.

(** A record whose response is JSON with a blank inside the braces. *)
Definition blankObject : RequestCacheEntry :=
  mkCacheEntry "POST" "/api/v3/loadPageChunk" "{}" "{ }".

(** A page download that asks for one chunk and returns a page without
    children. *)
Definition oneChunk (pageID : string) : Download :=
  Post "/api/v3/loadPageChunk" pageID
       (fun r => match r with
                 | Ok _ => Return (Ok (mkPage pageID 1 []))
                 | Err e => Return (Err e)
                 | Panic m => Return (Panic m)
                 end).

(** A network that answers every request with an empty object. *)
Definition online : Env := env (fun _ _ _ => Ok "{}") noBlocks oneChunk.

(** A client that has the chunk of page A in its index. *)
Definition warmClient : CachingClient :=
  set_pageIDToEntries newClient
    {[ idA := [mkCacheEntry "POST" "/api/v3/loadPageChunk" idA "{}"] ]}.

(** A version service that answers every query with the block of page B. *)
Definition wrongOrder : Env :=
  env noPost (fun _ _ => Ok [Some (mkBlock idB 7)]) noDownload.

(** A version service that knows no page: every id is reported absent. *)
Definition allAbsent : Env :=
  env noPost (fun ids _ => Ok (map (fun _ => None) ids)) noDownload.

(** A version service that knows every page at version 7. *)
Definition allAtSeven : Env :=
  env noPost (fun ids _ => Ok (map (fun id => Some (mkBlock id 7)) ids))
      noDownload.

(** A client, not in freshness mode, that has recorded version 5 as the
    latest of page A. *)
Definition knowsA : CachingClient :=
  set_IdToPageLatestVersion newClient (Some {[ idA := 5 ]}).

(** A client in freshness mode with an empty version map. *)
Definition freshClient : CachingClient :=
  mkCachingClient "cache" (mkClient None) true false ∅ None [] (Some ∅) false
                  0 0 0.

Definition oldPageA : Page := mkPage idA 3 [].

(** A cache directory with one file for page A that holds a record of
    another type. *)
Definition badCache : FS :=
  mkFS {[ pathA := "0 other" +:+ NL ]} (fun _ => None)
       (fun _ => inr [mkFileInfo (idA +:+ ".txt") true])
       (fun _ => None) (fun _ => None) (fun _ => false).

(** A cache directory with a stray file, a sub-directory and the file of
    page A with one record. *)
Definition goodCache : FS :=
  mkFS {[ pathA := frames (H := offline) [blankObject] ]} (fun _ => None)
       (fun _ => inr [mkFileInfo "notes.md" true; mkFileInfo "old" false;
                      mkFileInfo (idA +:+ ".txt") true])
       (fun _ => None) (fun _ => None) (fun _ => false).

Definition dashB : string := "00000000-0000-0000-0000-00000000000b".

(** Two pages that refer to each other: A lists B and B lists A, each by
    its dashed id. *)
Definition cycle (id : string) : list string :=
  if String.eqb id idA then [dashB]
  else if String.eqb id idB then [dashA]
  else [].

Definition cyclic : Env :=
  env noPost noBlocks (fun id => Return (Ok (mkPage id 1 (cycle id)))).

Definition scopeA : option NotionID := NewNotionID idA.

(** A client in the scope of page A with one exchange pending. *)
Definition pendingClient : CachingClient :=
  set_currPageRequests (set_currPageID newClient scopeA) [blankObject].

(** A client in the scope of page A with nothing pending. *)
Definition idleClient : CachingClient := set_currPageID newClient scopeA.

(** A disk on which every write fails half way. *)
Definition fullDisk : FS :=
  mkFS {[ pathA := "old" ]} (fun _ => None) (fun _ => inr []) (fun _ => None)
       (fun _ => Some ("no space left on device", Some "87 noah"))
       (fun _ => false).

(** A disk that holds a cache file for page A. *)
Definition oneFile : FS :=
  mkFS {[ pathA := "old" ]} (fun _ => None) (fun _ => inr []) (fun _ => None)
       (fun _ => None) (fun _ => false).

End Model.

(** ** Part II: properties *)

(** *** Byte strings *)

Lemma app_cons a s t : String a s +:+ t = String a (s +:+ t).
Proof. reflexivity. Qed.

Lemma app_empty_l s : "" +:+ s = s.
Proof. reflexivity. Qed.

Lemma app_empty_r s : s +:+ "" = s.
Proof. induction s as [|a s IH]; [done|]. by rewrite app_cons, IH. Qed.

Lemma app_assoc_s s t u : (s +:+ t) +:+ u = s +:+ (t +:+ u).
Proof. induction s as [|a s IH]; [done|]. by rewrite !app_cons, IH. Qed.

Lemma length_app_s s t :
  String.length (s +:+ t) = (String.length s + String.length t)%nat.
Proof. induction s as [|a s IH]; [done|]. rewrite app_cons. simpl. by rewrite IH. Qed.

Lemma lacks_app c s t : lacks c s -> lacks c t -> lacks c (s +:+ t).
Proof.
  unfold lacks. induction s as [|a s IH]; [done|].
  rewrite app_cons. simpl. intros [-> Hs]%andb_true_iff Ht. simpl. auto.
Qed.

Lemma allBytes_impl (p q : ascii -> bool) s :
  (forall a, p a = true -> q a = true) -> allBytes p s = true -> allBytes q s = true.
Proof.
  intros Hpq. induction s as [|a s IH]; [done|]. simpl.
  intros [Ha Hs]%andb_true_iff. rewrite (Hpq _ Ha). simpl. auto.
Qed.

Lemma cut_app c s t : lacks c s -> cut c (s +:+ String c t) = Some (s, t).
Proof.
  unfold lacks. induction s as [|a s IH].
  - intros _. rewrite app_empty_l. simpl. by rewrite Ascii.eqb_refl.
  - simpl. intros [Ha Hs]%andb_true_iff.
    apply negb_true_iff in Ha. rewrite Ha. by rewrite IH.
Qed.

Lemma cut_none c s : lacks c s -> cut c s = None.
Proof.
  unfold lacks. induction s as [|a s IH]; [done|]. simpl.
  intros [Ha Hs]%andb_true_iff. apply negb_true_iff in Ha.
  rewrite Ha. by rewrite IH.
Qed.

Lemma cut_length c s l r :
  cut c s = Some (l, r) -> (String.length r < String.length s)%nat.
Proof.
  revert l r. induction s as [|a s IH]; intros l r; [done|]. simpl.
  destruct (Ascii.eqb a c).
  - intros [= <- <-]. lia.
  - destruct (cut c s) as [[l' r']|] eqn:E; [|done].
    intros [= <- <-]. specialize (IH _ _ eq_refl). lia.
Qed.

Lemma splitAt_app s t : splitAt (String.length s) (s +:+ t) = Some (s, t).
Proof.
  induction s as [|a s IH]; [done|]. rewrite app_cons. simpl. by rewrite IH.
Qed.

Lemma splitAt_length n s l r :
  splitAt n s = Some (l, r) -> (String.length r <= String.length s)%nat.
Proof.
  revert s l r. induction n as [|n IH]; intros s l r.
  - simpl. intros [= <- <-]. lia.
  - destruct s as [|a s]; [done|]. simpl.
    destruct (splitAt n s) as [[l' r']|] eqn:E; [|done].
    intros [= <- <-]. specialize (IH _ _ _ E). lia.
Qed.

Lemma Atoi_Itoa n : Atoi (Itoa n) = Some n.
Proof.
  unfold Atoi, Itoa.
  destruct (Nat.to_uint n) eqn:E;
    [ by rewrite <- (Unsigned.of_to n), E | .. ];
    rewrite NilZero.usu by done; by rewrite <- E, Unsigned.of_to.
Qed.

Lemma digits_lack c d :
  JSON.isDigit c = false -> lacks c (NilEmpty.string_of_uint d).
Proof.
  intros Hc. unfold lacks.
  induction d; cbn [allBytes NilEmpty.string_of_uint]; [done|..];
    rewrite IHd, andb_true_r;
    apply negb_true_iff, Ascii.eqb_neq; by intros <-.
Qed.

Lemma Itoa_lacks c n : JSON.isDigit c = false -> lacks c (Itoa n).
Proof.
  intros Hc. unfold Itoa, NilZero.string_of_uint.
  destruct (Nat.to_uint n) eqn:E; try (rewrite <- E; by apply digits_lack).
  unfold lacks. cbn [allBytes]. rewrite andb_true_r.
  apply negb_true_iff, Ascii.eqb_neq. by intros <-.
Qed.

(** *** The record format *)

Lemma isASCII_lacks_nl v : siser.isASCII v = true -> lacks nl v.
Proof.
  apply allBytes_impl. intros a Ha.
  apply negb_true_iff, Ascii.eqb_neq. by intros ->.
Qed.

Lemma Unmarshal_go_step fuel d :
  d <> "" ->
  siser.Unmarshal_go (S fuel) d =
  match cut nl d with
  | None => None
  | Some (line, d1) =>
      match cut ":" line with
      | None => None
      | Some (key, EmptyString) => None
      | Some (key, String kind val) =>
          if Ascii.eqb kind " " then
            match siser.Unmarshal_go fuel d1 with
            | Some es => Some (siser.mkEntry key val :: es)
            | None => None
            end
          else if Ascii.eqb kind "+" then
            match Atoi val with
            | None => None
            | Some n =>
                match splitAt n d1 with
                | None => None
                | Some (v, d2) =>
                    let d3 := match d2 with
                              | String a d2' => if Ascii.eqb a nl then d2' else d2
                              | EmptyString => d2
                              end in
                    match siser.Unmarshal_go fuel d3 with
                    | Some es => Some (siser.mkEntry key v :: es)
                    | None => None
                    end
                end
            end
          else None
      end
  end.
Proof. by destruct d. Qed.

Lemma marshalKeyVal_nonempty e rest : siser.marshalKeyVal e +:+ rest <> "".
Proof.
  unfold siser.marshalKeyVal.
  destruct (siser.serializeAsData _); rewrite !app_assoc_s;
    destruct (siser.Key e); done.
Qed.

Lemma Unmarshal_marshalKeyVal fuel e rest :
  siser.goodKey (siser.Key e) ->
  siser.Unmarshal_go (S fuel) (siser.marshalKeyVal e +:+ rest) =
  match siser.Unmarshal_go fuel rest with
  | Some es => Some (e :: es)
  | None => None
  end.
Proof.
  intros [Hcolon Hnl].
  rewrite Unmarshal_go_step by apply marshalKeyVal_nonempty.
  destruct e as [k v]. unfold siser.marshalKeyVal. cbn [siser.Key siser.Value] in *.
  destruct (siser.serializeAsData v) eqn:Hdata.
  - set (n := String.length v).
    assert (E : (k +:+ ":+" +:+ Itoa n +:+ NL +:+ v +:+ NL) +:+ rest
                = (k +:+ ":+" +:+ Itoa n) +:+ String nl (v +:+ String nl rest)).
    { unfold NL. by rewrite !app_assoc_s. }
    rewrite E, cut_app.
    2:{ apply lacks_app; [done|]. apply lacks_app; [done|]. by apply Itoa_lacks. }
    change (k +:+ ":+" +:+ Itoa n) with (k +:+ String ":" (String "+" (Itoa n))).
    rewrite (cut_app ":" k (String "+" (Itoa n))) by done.
    cbv iota. change (Ascii.eqb "+" " ") with false.
    change (Ascii.eqb "+" "+") with true. cbv iota.
    rewrite Atoi_Itoa. unfold n. rewrite splitAt_app.
    cbv zeta iota. by rewrite Ascii.eqb_refl.
  - apply orb_false_iff in Hdata as [_ Hascii].
    apply negb_false_iff in Hascii.
    assert (E : (k +:+ ": " +:+ v +:+ NL) +:+ rest
                = (k +:+ ": " +:+ v) +:+ String nl rest).
    { unfold NL. by rewrite !app_assoc_s. }
    rewrite E, cut_app.
    2:{ apply lacks_app; [done|]. apply lacks_app; [done|]. by apply isASCII_lacks_nl. }
    change (k +:+ ": " +:+ v) with (k +:+ String ":" (String " " v)).
    rewrite (cut_app ":" k (String " " v)) by done. cbv iota.
    by rewrite Ascii.eqb_refl.
Qed.

Lemma marshalKeyVal_length e : (1 <= String.length (siser.marshalKeyVal e))%nat.
Proof.
  pose proof (marshalKeyVal_nonempty e "") as Hne. rewrite app_empty_r in Hne.
  destruct (siser.marshalKeyVal e); [done|simpl; lia].
Qed.

Lemma Unmarshal_marshalEntries es fuel :
  Forall (fun e => siser.goodKey (siser.Key e)) es ->
  (String.length (siser.marshalEntries es) <= fuel)%nat ->
  siser.Unmarshal_go fuel (siser.marshalEntries es) = Some es.
Proof.
  intros Hkeys. revert fuel. induction Hkeys as [|e es He Hes IH]; intros fuel Hfuel.
  - by destruct fuel.
  - cbn [siser.marshalEntries] in *. rewrite length_app_s in Hfuel.
    pose proof (marshalKeyVal_length e).
    destruct fuel as [|fuel]; [lia|].
    rewrite Unmarshal_marshalKeyVal by done. rewrite IH by lia. done.
Qed.

Lemma UnmarshalRecord_Marshal r :
  Forall (fun e => siser.goodKey (siser.Key e)) (siser.Entries r) ->
  siser.UnmarshalRecord (siser.Marshal r) = Some (siser.Entries r).
Proof. intros. by apply Unmarshal_marshalEntries. Qed.

Lemma ReadNextData_WriterWrite d name rest :
  lacks " " name -> lacks nl name ->
  siser.ReadNextData (siser.WriterWrite d name +:+ rest) = Some (name, d, rest).
Proof.
  intros Hsp Hnl. unfold siser.WriterWrite, siser.ReadNextData.
  set (n := String.length d).
  set (pad := if siser.needsNewline d then NL else "").
  assert (Hn_sp : lacks " " (Itoa n)) by by apply Itoa_lacks.
  assert (Hn_nl : lacks nl (Itoa n)) by by apply Itoa_lacks.
  destruct (String.eqb name "") eqn:Hname.
  - apply String.eqb_eq in Hname as ->.
    assert (E : ((Itoa n +:+ "" +:+ NL) +:+ d +:+ pad) +:+ rest
                = Itoa n +:+ String nl (d +:+ pad +:+ rest)).
    { unfold NL. by rewrite !app_assoc_s. }
    rewrite E, cut_app by done.
    rewrite (cut_none " " (Itoa n)) by done. cbn [cut].
    rewrite Atoi_Itoa. unfold n. rewrite splitAt_app.
    unfold pad. by destruct (siser.needsNewline d).
  - assert (E : ((Itoa n +:+ (" " +:+ name) +:+ NL) +:+ d +:+ pad) +:+ rest
                = (Itoa n +:+ String " " name) +:+ String nl (d +:+ pad +:+ rest)).
    { unfold NL. by rewrite !app_assoc_s. }
    rewrite E, cut_app by (apply lacks_app; [done|]; by apply (lacks_app nl " " name)).
    rewrite cut_app by done.
    rewrite (cut_none " " name) by done.
    rewrite Atoi_Itoa. unfold n. rewrite splitAt_app.
    unfold pad. by destruct (siser.needsNewline d).
Qed.

Lemma ReadNextRecord_WriteRecord r rest :
  Forall (fun e => siser.goodKey (siser.Key e)) (siser.Entries r) ->
  lacks " " (siser.Name r) -> lacks nl (siser.Name r) ->
  siser.ReadNextRecord (siser.WriteRecord r +:+ rest) = Some (r, rest).
Proof.
  intros Hkeys Hsp Hnl. unfold siser.ReadNextRecord, siser.WriteRecord.
  rewrite ReadNextData_WriterWrite by done.
  rewrite UnmarshalRecord_Marshal by done. by destruct r.
Qed.

Lemma ReadNextData_length input name data rest :
  siser.ReadNextData input = Some (name, data, rest) ->
  (String.length rest < String.length input)%nat.
Proof.
  unfold siser.ReadNextData.
  destruct (cut nl input) as [[hdr body]|] eqn:Hcut; [|done].
  apply cut_length in Hcut.
  destruct (match cut " " hdr with Some (sz, r) => (sz, r) | None => (hdr, "") end)
    as [dataSize rest0].
  destruct (match cut " " rest0 with
            | Some (ts, name0) => _ | None => Some rest0 end) as [name0|]; [|done].
  destruct (Atoi dataSize) as [size|]; [|done].
  destruct (splitAt size body) as [[data0 after]|] eqn:Hsplit; [|done].
  apply splitAt_length in Hsplit.
  destruct (siser.needsNewline data0).
  - destruct after as [|a after]; [done|]. intros [= _ _ <-]. simpl in *. lia.
  - intros [= _ _ <-]. lia.
Qed.

Lemma ReadNextRecord_length input r rest :
  siser.ReadNextRecord input = Some (r, rest) ->
  (String.length rest < String.length input)%nat.
Proof.
  unfold siser.ReadNextRecord.
  destruct (siser.ReadNextData input) as [[[name data] rest0]|] eqn:Hdata; [|done].
  apply ReadNextData_length in Hdata.
  destruct (siser.UnmarshalRecord data); [|done]. by intros [= _ <-].
Qed.

(** *** Cache records *)

Section CacheRecords.
Context `{Env}.

Lemma serializeCacheEntry_frame rr :
  serializeCacheEntry rr = Ok (siser.WriteRecord (cacheRecord rr)).
Proof. reflexivity. Qed.

Lemma serializeAll_frames rs buf : serializeAll rs buf = Ok (buf +:+ frames rs).
Proof.
  revert buf. induction rs as [|rr rs IH]; intros buf.
  - cbn [serializeAll frames]. by rewrite app_empty_r.
  - cbn [serializeAll frames]. rewrite serializeCacheEntry_frame, IH.
    by rewrite app_assoc_s.
Qed.

Lemma cacheRecord_read rr rest :
  siser.ReadNextRecord (siser.WriteRecord (cacheRecord rr) +:+ rest)
  = Some (cacheRecord rr, rest).
Proof.
  apply ReadNextRecord_WriteRecord; [|done..].
  repeat constructor.
Qed.

Lemma deserialize_go_frames rs fuel acc :
  (length rs < fuel)%nat ->
  deserialize_go fuel (frames rs) None acc = Some (Ok (acc ++ map stored rs)).
Proof.
  revert fuel acc. induction rs as [|rr rs IH]; intros fuel acc Hfuel.
  - destruct fuel as [|fuel]; [simpl in Hfuel; lia|].
    cbn [frames map deserialize_go]. change (siser.ReadNextRecord "") with (@None (siser.Record * string)).
    by rewrite app_nil_r.
  - destruct fuel as [|fuel]; [simpl in Hfuel; lia|].
    cbn [frames map deserialize_go]. rewrite cacheRecord_read.
    change (negb (String.eqb (siser.Name (cacheRecord rr)) recCacheName)) with false.
    cbv iota.
    change (recGetKey (cacheRecord rr) "Method" None) with (Method rr, @None error).
    cbv iota beta.
    change (recGetKey (cacheRecord rr) "URL" None) with (URL rr, @None error).
    cbv iota beta.
    change (recGetKeyBytes (cacheRecord rr) "Body" None) with (Body rr, @None error).
    cbv iota beta.
    change (recGetKeyBytes (cacheRecord rr) "Response" None)
      with (PrettyPrintJS (Response rr), @None error).
    cbv iota beta. rewrite IH by (simpl in Hfuel; lia).
    by rewrite <- app_assoc.
Qed.

Lemma frames_length rs : (length rs <= String.length (frames rs))%nat.
Proof.
  induction rs as [|rr rs IH]; [done|]. cbn [frames length].
  rewrite length_app_s.
  assert (1 <= String.length (siser.WriteRecord (cacheRecord rr)))%nat; [|lia].
  unfold siser.WriteRecord, siser.WriterWrite. rewrite !length_app_s.
  change (String.length NL) with 1%nat. lia.
Qed.

Lemma deserialize_go_enough fuel input err res :
  (String.length input < fuel)%nat ->
  is_Some (deserialize_go fuel input err res).
Proof.
  revert input err res. induction fuel as [|fuel IH]; intros input err res Hfuel; [lia|].
  cbn [deserialize_go].
  destruct (siser.ReadNextRecord input) as [[r rest]|] eqn:Hread; [|done].
  apply ReadNextRecord_length in Hread.
  destruct (negb _); [done|].
  destruct (recGetKey r "Method" err) as [? err1].
  destruct (recGetKey r "URL" err1) as [? err2].
  destruct (recGetKeyBytes r "Body" err2) as [? err3].
  destruct (recGetKeyBytes r "Response" err3) as [? err4].
  apply IH. lia.
Qed.

Lemma deserializeCacheEntry_fuel d :
  is_Some (deserialize_go (S (String.length d)) d None []).
Proof. apply deserialize_go_enough. lia. Qed.

Lemma roundTrip_stored rs : roundTrip rs = Ok (map stored rs).
Proof.
  unfold roundTrip. rewrite serializeAll_frames, app_empty_l.
  unfold deserializeCacheEntry.
  rewrite deserialize_go_frames; [done|]. pose proof (frames_length rs). lia.
Qed.

End CacheRecords.

(** C1 (amended).  For every list of cache records, whatever bytes their
    fields hold, serializing each record with [serializeCacheEntry],
    concatenating the results and reading them back with
    [deserializeCacheEntry] yields a list of the same length whose records
    have exactly the original Method, URL and Body, and whose Response is
    [PrettyPrintJS] of the original Response. *)
Theorem roundTrip_preserves_request `{Env} (rs : list RequestCacheEntry) :
  exists out,
    roundTrip rs = Ok out /\ length out = length rs /\
    Forall2 (fun rr o =>
               Method o = Method rr /\ URL o = URL rr /\ Body o = Body rr /\
               Response o = PrettyPrintJS (Response rr)) rs out.
Proof.
  exists (map stored rs). split; [apply roundTrip_stored|].
  split; [by rewrite length_map|].
  induction rs as [|rr rs IH]; constructor; [done|exact IH].
Qed.

(** C1 as stated fails: a response that is JSON with a blank between its
    braces comes back without the blank. *)
Lemma roundTrip_response_reprinted :
  roundTrip (H := Model.offline) [Model.blankObject]
  = Ok [mkCacheEntry "POST" "/api/v3/loadPageChunk" "{}" "{}"]
  /\ Response Model.blankObject = "{ }"
  /\ [mkCacheEntry "POST" "/api/v3/loadPageChunk" "{}" "{}"]
     <> [Model.blankObject].
Proof. split; [by vm_compute|]. split; [done|]. by intros [=]. Qed.

(** *** The flush *)

Section Flush.
Context `{Env}.

Lemma serializeAll_ok rs : serializeAll rs "" = Ok (frames rs).
Proof. by rewrite serializeAll_frames. Qed.

Lemma writeCacheForCurrPage_pending c fs nid :
  currPageRequests c <> [] -> currPageID c = Some nid ->
  writeCacheForCurrPage c fs =
  let path := Join (CacheDir c) (NoDashID nid +:+ ".txt") in
  match WriteFile path (frames (currPageRequests c)) fs with
  | (Some e, fs) => (Err e, c, Remove path fs)
  | (None, fs) =>
      (Ok tt,
       set_currPageRequests
         (set_RequestsWrittenToCache c
            (int_add (RequestsWrittenToCache c)
                     (Z.of_nat (length (currPageRequests c))))) [],
       fs)
  end.
Proof.
  intros Hpending Hid. unfold writeCacheForCurrPage.
  destruct (decide _) as [Hlen|_].
  { by apply length_zero_iff_nil in Hlen. }
  by rewrite serializeAll_ok, Hid.
Qed.

Lemma writeCacheForCurrPage_empty c fs :
  currPageRequests c = [] -> writeCacheForCurrPage c fs = (Ok tt, c, fs).
Proof. intros Hpending. unfold writeCacheForCurrPage. by rewrite Hpending. Qed.

Lemma wrap_int_id z : in_int z -> wrap_int z = z.
Proof.
  unfold in_int, int_min, int_max, wrap_int. intros Hz.
  rewrite Z.mod_small by lia. lia.
Qed.

End Flush.

(** C3 (amended).  With requests pending in the scope of a page, when the
    file write of [writeCacheForCurrPage] fails the error is returned and
    the page's file is removed ([os.Remove], whose own failure is
    ignored), while the pending list and [RequestsWrittenToCache] are left
    as they were; when the write succeeds the file holds exactly the
    serialized pending records, whatever it held before, the pending list
    is cleared and [RequestsWrittenToCache] grows by the number of pending
    records (modulo 2^64). *)
Theorem writeCacheForCurrPage_write `{Env} c fs nid :
  currPageRequests c <> [] -> currPageID c = Some nid ->
  let path := Join (CacheDir c) (NoDashID nid +:+ ".txt") in
  let n := Z.of_nat (length (currPageRequests c)) in
  (forall e left, writeFault fs path = Some (e, left) ->
     exists fs',
       writeCacheForCurrPage c fs = (Err e, c, fs') /\
       (removeFault fs path = false -> files fs' !! path = None) /\
       (forall p, p <> path -> files fs' !! p = files fs !! p)) /\
  (writeFault fs path = None ->
     exists c' fs' buf,
       writeCacheForCurrPage c fs = (Ok tt, c', fs') /\
       serializeAll (currPageRequests c) "" = Ok buf /\
       files fs' !! path = Some buf /\
       (forall p, p <> path -> files fs' !! p = files fs !! p) /\
       currPageRequests c' = [] /\
       RequestsWrittenToCache c' = int_add (RequestsWrittenToCache c) n /\
       (in_int (RequestsWrittenToCache c + n) ->
        RequestsWrittenToCache c' = RequestsWrittenToCache c + n)).
Proof.
  intros Hpending Hid path n. split.
  - intros e left Hfault.
    rewrite (writeCacheForCurrPage_pending c fs nid) by done.
    cbv zeta. fold path. unfold WriteFile. rewrite Hfault.
    destruct left as [partial|]; (eexists; split; [reflexivity|]);
      unfold Remove; cbn [removeFault set_files];
      (split; [intros ->; cbn [files set_files]; apply lookup_delete_eq|]);
      intros p Hp; destruct (removeFault fs path); cbn [files set_files];
      rewrite ?lookup_delete_ne, ?lookup_insert_ne by done; done.
  - intros Hfault.
    rewrite (writeCacheForCurrPage_pending c fs nid) by done.
    cbv zeta. fold path. unfold WriteFile. rewrite Hfault.
    eexists _, _, _. split; [reflexivity|].
    split; [apply serializeAll_ok|]. cbn [files set_files].
    split; [apply lookup_insert_eq|].
    split; [by intros p Hp; rewrite lookup_insert_ne|].
    split; [done|]. split; [done|].
    intros Hrange. cbn. unfold int_add. by apply wrap_int_id.
Qed.

(** The flush of one pending record: onto a good disk that already holds a
    file for the page, and onto a disk where every write fails. *)
Lemma writeCacheForCurrPage_write_witness :
  (exists c' fs' buf,
     writeCacheForCurrPage (H := Model.offline) Model.pendingClient Model.oneFile
     = (Ok tt, c', fs') /\
     serializeAll (H := Model.offline) [Model.blankObject] "" = Ok buf /\
     files fs' !! Model.pathA = Some buf /\
     currPageRequests c' = [] /\ RequestsWrittenToCache c' = 1) /\
  (exists fs',
     writeCacheForCurrPage (H := Model.offline) Model.pendingClient Model.fullDisk
     = (Err "no space left on device", Model.pendingClient, fs') /\
     files fs' !! Model.pathA = None).
Proof.
  pose proof (writeCacheForCurrPage_write (H := Model.offline)
                Model.pendingClient Model.oneFile
                (mkNotionID (Model.ToDashID Model.idA) Model.idA)
                ltac:(discriminate) ltac:(reflexivity)) as [_ Hok].
  pose proof (writeCacheForCurrPage_write (H := Model.offline)
                Model.pendingClient Model.fullDisk
                (mkNotionID (Model.ToDashID Model.idA) Model.idA)
                ltac:(discriminate) ltac:(reflexivity)) as [Hfail _].
  split.
  - destruct (Hok eq_refl) as (c' & fs' & buf & Hrun & Hbuf & Hfile & _ & Hp & Hn & _).
    exists c', fs', buf. repeat split; assumption.
  - destruct (Hfail _ _ eq_refl) as (fs' & Hrun & Hgone & _).
    exists fs'. split; [exact Hrun|exact (Hgone eq_refl)].
Defined.

(** C3 as stated fails: after a failed write the pending list still holds
    its record and the counter has not moved. *)
Lemma writeCacheForCurrPage_failure_keeps_pending :
  let '(r, c', fs') :=
    writeCacheForCurrPage (H := Model.offline) Model.pendingClient Model.fullDisk in
  r = Err "no space left on device" /\
  currPageRequests c' = [Model.blankObject] /\
  RequestsWrittenToCache c' = RequestsWrittenToCache Model.pendingClient /\
  files fs' !! Model.pathA = None.
Proof. by vm_compute. Qed.

(** C10.  When nothing is pending, [writeCacheForCurrPage] returns nil and
    leaves the client, its [RequestsWrittenToCache] counter and the file
    system, the page's existing cache file included, exactly as they
    were: it neither writes nor removes a file. *)
Theorem writeCacheForCurrPage_nothing_pending `{Env} c fs :
  currPageRequests c = [] ->
  writeCacheForCurrPage c fs = (Ok tt, c, fs).
Proof. apply writeCacheForCurrPage_empty. Qed.

Lemma writeCacheForCurrPage_nothing_pending_witness :
  currPageRequests Model.idleClient = [] /\
  writeCacheForCurrPage (H := Model.offline) Model.idleClient Model.oneFile
  = (Ok tt, Model.idleClient, Model.oneFile) /\
  files Model.oneFile !! Model.pathA = Some "old".
Proof.
  split; [reflexivity|]. split.
  - apply (writeCacheForCurrPage_nothing_pending (H := Model.offline)).
    reflexivity.
  - reflexivity.
Defined.

(** *** The page scope *)

Section Scope.
Context `{Env}.

Lemma sameScope_refl c : sameScope c c.
Proof. by repeat split. Qed.

Lemma sameScope_trans c1 c2 c3 :
  sameScope c1 c2 -> sameScope c2 c3 -> sameScope c1 c3.
Proof.
  unfold sameScope. intros (?&?&?&?&?&?&?&?&?) (?&?&?&?&?&?&?&?&?).
  repeat split; congruence.
Qed.

Lemma doPostMaybeCached_scope c uri body n r c' n' :
  doPostMaybeCached c uri body n = (r, c', n') -> sameScope c c'.
Proof.
  unfold doPostMaybeCached.
  destruct (tryReadFromCache c "POST" uri body) as [[d|]|e|m].
  - intros [= _ <- _]. by repeat split.
  - destruct (doPostInternal uri body n) as [[d|e|m] n1].
    + intros [= _ <- _]. unfold cacheRequest.
      cbn [currPageID set_RequestsNotFromCache].
      destruct (currPageID c) eqn:Hid; repeat split; cbn; done.
    + intros [= _ <- _]. apply sameScope_refl.
    + intros [= _ <- _]. apply sameScope_refl.
  - intros [= _ <- _]. apply sameScope_refl.
  - intros [= _ <- _]. apply sameScope_refl.
Qed.

Lemma runDownload_scope d c n r rs c' n' :
  runDownload d c n = (r, rs, c', n') -> sameScope c c'.
Proof.
  revert c n r rs c' n'.
  induction d as [r0|uri body k IH]; intros c n r rs c' n'.
  - cbn [runDownload]. intros [= _ _ <- _]. apply sameScope_refl.
  - cbn [runDownload].
    destruct (doPostMaybeCached c uri body n) as [[r1 c1] n1] eqn:Hpost.
    apply doPostMaybeCached_scope in Hpost.
    destruct r1 as [d1|e1|m1].
    + destruct (runDownload (k (Ok d1)) c1 n1) as [[[p rs1] c2] n2] eqn:Hrun.
      intros [= _ _ <- _]. eapply sameScope_trans; [done|]. by eapply IH.
    + destruct (runDownload (k (Err e1)) c1 n1) as [[[p rs1] c2] n2] eqn:Hrun.
      intros [= _ _ <- _]. eapply sameScope_trans; [done|]. by eapply IH.
    + by intros [= _ _ <- _].
Qed.

Lemma writeCacheForCurrPage_no_panic c fs nid :
  currPageID c = Some nid ->
  is_Panic (writeCacheForCurrPage c fs).1.1 = false.
Proof.
  intros Hid. unfold writeCacheForCurrPage.
  destruct (decide _); [done|].
  rewrite serializeAll_ok, Hid.
  by destruct (WriteFile _ _ fs) as [[e|] fs'].
Qed.

Lemma writeCacheForCurrPage_scope c fs r c' fs' :
  writeCacheForCurrPage c fs = (r, c', fs') ->
  sameScope (set_RequestsWrittenToCache c 0) (set_RequestsWrittenToCache c' 0).
Proof.
  unfold writeCacheForCurrPage.
  destruct (decide _); [by intros [= _ <- _]; apply sameScope_refl|].
  rewrite serializeAll_ok.
  destruct (currPageID c); [|by intros [= _ <- _]; apply sameScope_refl].
  destruct (WriteFile _ _ fs) as [[e|] fs1];
    intros [= _ <- _]; by repeat split.
Qed.

Lemma DownloadPage_valid c pageID fs n nid :
  NewNotionID pageID = Some nid ->
  exists r rs c1 n1 flushed c2 fs2,
    runDownload (clientDownloadPage pageID) (enterScope c nid) n
      = (r, rs, c1, n1) /\
    sameScope (enterScope c nid) c1 /\
    writeCacheForCurrPage c1 fs = (flushed, c2, fs2) /\
    is_Panic flushed = false /\
    DownloadPage c pageID fs n
      = mkDownloaded r rs (leaveScope c2 (httpPostOverride (client c))) fs2 n1.
Proof.
  intros Hid. unfold DownloadPage. cbn [currPageID set_currPageID]. rewrite Hid.
  cbn [client set_currPageID set_currPageRequests].
  fold (enterScope c nid).
  destruct (runDownload (clientDownloadPage pageID) (enterScope c nid) n)
    as [[[r rs] c1] n1] eqn:Hrun.
  pose proof (runDownload_scope _ _ _ _ _ _ _ Hrun) as Hscope.
  assert (Hid1 : currPageID c1 = Some nid).
  { destruct Hscope as (_&_&_&_&_&->&_). reflexivity. }
  pose proof (writeCacheForCurrPage_no_panic c1 fs nid Hid1) as Hnp.
  destruct (writeCacheForCurrPage c1 fs) as [[flushed c2] fs2] eqn:Hflush.
  cbn [fst] in Hnp.
  exists r, rs, c1, n1, flushed, c2, fs2.
  repeat split; try done; try apply Hscope.
  by destruct flushed.
Qed.

Lemma DownloadPage_invalid c pageID fs n :
  NewNotionID pageID = None ->
  DownloadPage c pageID fs n
  = mkDownloaded (Err ("'" +:+ pageID +:+ "' is not a valid notion id")) []
      (set_currPageID (set_currPageRequests c []) None) fs n.
Proof.
  intros Hid. unfold DownloadPage. cbn [currPageID set_currPageID]. by rewrite Hid.
Qed.

Lemma runDownload_served d c n nid entries :
  NoReadCache c = false -> currPageID c = Some nid ->
  default [] (pageIDToEntries c !! NoDashID nid) = entries ->
  servedFromCache d entries ->
  exists c',
    runDownload d c n = ((replay d entries).1, (replay d entries).2, c', n) /\
    sameScope c c' /\
    RequestsNotFromCache c' = RequestsNotFromCache c /\
    currPageRequests c' = currPageRequests c.
Proof.
  revert c. induction d as [r0|uri body k IH]; intros c Hread Hid Hentries Hserved.
  - exists c. cbn [runDownload replay fst snd]. by repeat split.
  - cbn [servedFromCache] in Hserved. cbn [runDownload replay].
    destruct (findEntry entries "POST" uri body) as [resp|] eqn:Hfind; [|done].
    unfold doPostMaybeCached, tryReadFromCache. rewrite Hread, Hid, Hentries, Hfind.
    set (c1 := set_RequestsFromCache c (int_add (RequestsFromCache c) 1)).
    destruct (IH (Ok resp) c1) as (c' & Hrun & Hscope & Hlive & Hpending);
      [done..|].
    rewrite Hrun. exists c'.
    destruct (replay (k (Ok resp)) entries) as [r rs]. cbn [fst snd] in *.
    repeat split; try done; apply Hscope.
Qed.

Lemma DownloadPage_served c pageID fs n nid :
  NoReadCache c = false -> NewNotionID pageID = Some nid ->
  servedFromCache (clientDownloadPage pageID)
    (default [] (pageIDToEntries c !! NoDashID nid)) ->
  exists c',
    DownloadPage c pageID fs n
    = mkDownloaded
        (replay (clientDownloadPage pageID)
                (default [] (pageIDToEntries c !! NoDashID nid))).1
        (replay (clientDownloadPage pageID)
                (default [] (pageIDToEntries c !! NoDashID nid))).2
        c' fs n /\
    NoReadCache c' = NoReadCache c /\
    pageIDToEntries c' = pageIDToEntries c /\
    RequestsNotFromCache c' = RequestsNotFromCache c.
Proof.
  intros Hread Hid Hserved.
  destruct (DownloadPage_valid c pageID fs n nid Hid)
    as (r & rs & c1 & n1 & flushed & c2 & fs2 & Hrun & Hscope & Hflush & _ & ->).
  destruct (runDownload_served (clientDownloadPage pageID) (enterScope c nid) n nid
              (default [] (pageIDToEntries c !! NoDashID nid)))
    as (c1' & Hrun' & _ & Hlive & Hpending); [done..|].
  rewrite Hrun in Hrun'. injection Hrun' as -> -> <- ->.
  rewrite writeCacheForCurrPage_empty in Hflush by done.
  injection Hflush as <- <- <-.
  eexists. split; [reflexivity|].
  destruct Hscope as (_&_&_&Hnr&Hidx&_). cbn in *. by rewrite Hnr, Hidx, Hlive.
Qed.

Lemma DownloadPage_index c pageID fs n :
  pageIDToEntries (d_client (DownloadPage c pageID fs n)) = pageIDToEntries c.
Proof.
  destruct (NewNotionID pageID) as [nid|] eqn:Hid.
  - destruct (DownloadPage_valid c pageID fs n nid Hid)
      as (r & rs & c1 & n1 & flushed & c2 & fs2 & _ & Hscope & Hflush & _ & ->).
    apply writeCacheForCurrPage_scope in Hflush.
    destruct Hflush as (_&_&_&_&Hidx2&_), Hscope as (_&_&_&_&Hidx1&_).
    cbn in *. congruence.
  - by rewrite DownloadPage_invalid.
Qed.

End Scope.

(** C7.  [DownloadPage] on a string that fails identity parsing returns the
    invalid-identity error and leaves the network, the file system, the
    index and the counters as they were; on a valid id, whatever the
    delegated download returns (a page, an error or a panic), the call
    returns that outcome after flushing the requests left pending in the
    scope of that page with [writeCacheForCurrPage] (which cannot panic
    there), putting the previous [httpPostOverride] back and clearing
    [currPageID]. *)
Theorem DownloadPage_always_flushes `{Env} c pageID fs n :
  (NewNotionID pageID = None ->
   let d := DownloadPage c pageID fs n in
   d_result d = Err ("'" +:+ pageID +:+ "' is not a valid notion id") /\
   d_responses d = [] /\ d_net d = n /\ d_fs d = fs /\
   pageIDToEntries (d_client d) = pageIDToEntries c /\
   RequestsFromCache (d_client d) = RequestsFromCache c /\
   RequestsNotFromCache (d_client d) = RequestsNotFromCache c /\
   RequestsWrittenToCache (d_client d) = RequestsWrittenToCache c) /\
  (forall nid, NewNotionID pageID = Some nid ->
   exists r rs c1 n1 flushed c2 fs2,
     runDownload (clientDownloadPage pageID) (enterScope c nid) n
       = (r, rs, c1, n1) /\
     currPageID c1 = Some nid /\ CacheDir c1 = CacheDir c /\
     writeCacheForCurrPage c1 fs = (flushed, c2, fs2) /\
     is_Panic flushed = false /\
     let d := DownloadPage c pageID fs n in
     d_result d = r /\ d_responses d = rs /\ d_fs d = fs2 /\ d_net d = n1 /\
     currPageRequests (d_client d) = currPageRequests c2 /\
     httpPostOverride (client (d_client d)) = httpPostOverride (client c) /\
     currPageID (d_client d) = None).
Proof.
  split.
  - intros Hid. by rewrite DownloadPage_invalid.
  - intros nid Hid.
    destruct (DownloadPage_valid c pageID fs n nid Hid)
      as (r & rs & c1 & n1 & flushed & c2 & fs2 & Hrun & Hscope & Hflush & Hnp & ->).
    exists r, rs, c1, n1, flushed, c2, fs2.
    destruct Hscope as (Hdir&_&_&_&_&Hcur&_).
    by repeat split.
Qed.

(** The two cases of C7 on the model: a string that is not an id, and
    page A downloaded over the network onto an empty disk. *)
Lemma DownloadPage_always_flushes_witness :
  d_result (DownloadPage (H := Model.online) Model.newClient "not an id"
              Model.noFS 0%nat)
  = Err "'not an id' is not a valid notion id" /\
  let d := DownloadPage (H := Model.online) Model.newClient Model.idA
             Model.noFS 0%nat in
  httpPostOverride (client (d_client d)) = None /\
  currPageID (d_client d) = None /\
  is_Some (files (d_fs d) !! Model.pathA).
Proof.
  pose proof (DownloadPage_always_flushes (H := Model.online) Model.newClient
                "not an id" Model.noFS 0%nat) as [Hbad _].
  pose proof (DownloadPage_always_flushes (H := Model.online) Model.newClient
                Model.idA Model.noFS 0%nat) as [_ Hgood].
  split; [exact (proj1 (Hbad eq_refl))|].
  destruct (Hgood _ eq_refl)
    as (r & rs & c1 & n1 & flushed & c2 & fs2 & _ & _ & _ & _ & _ & Hd).
  cbv zeta in Hd. destruct Hd as (_ & _ & _ & _ & _ & Hhook & Hcur).
  split; [exact Hhook|]. split; [exact Hcur|]. eexists. by vm_compute.
Defined.

(** C2 (amended).  [DownloadPage] never changes the in-memory index, so a
    request answered live in one call is not found by a later call of the
    same session.  With [NoReadCache] false, when every request that the
    download of a valid page id issues is found in that page's entry of
    the index loaded at startup, calling [DownloadPage] twice within one
    session issues no live request in either call (the network is not
    contacted and [RequestsNotFromCache] does not change), and the second
    call's responses and result are identical to the first call's. *)
Theorem DownloadPage_twice_from_index `{Env} c pageID fs n :
  let d1 := DownloadPage c pageID fs n in
  let d2 := DownloadPage (d_client d1) pageID (d_fs d1) (d_net d1) in
  pageIDToEntries (d_client d1) = pageIDToEntries c /\
  pageIDToEntries (d_client d2) = pageIDToEntries c /\
  (NoReadCache c = false ->
   forall nid, NewNotionID pageID = Some nid ->
   servedFromCache (clientDownloadPage pageID)
     (default [] (pageIDToEntries c !! NoDashID nid)) ->
   d_net d1 = n /\ d_net d2 = n /\
   RequestsNotFromCache (d_client d1) = RequestsNotFromCache c /\
   RequestsNotFromCache (d_client d2) = RequestsNotFromCache c /\
   d_responses d2 = d_responses d1 /\ d_result d2 = d_result d1 /\
   d_fs d1 = fs /\ d_fs d2 = fs).
Proof.
  intros d1 d2. split; [apply DownloadPage_index|].
  split; [unfold d2, d1; by rewrite !DownloadPage_index|].
  intros Hread nid Hid Hserved.
  destruct (DownloadPage_served c pageID fs n nid Hread Hid Hserved)
    as (c1 & H1 & Hread1 & Hidx1 & Hlive1).
  assert (Hserved1 : servedFromCache (clientDownloadPage pageID)
            (default [] (pageIDToEntries c1 !! NoDashID nid))) by by rewrite Hidx1.
  destruct (DownloadPage_served c1 pageID fs n nid ltac:(congruence) Hid Hserved1)
    as (c2 & H2 & Hread2 & Hidx2 & Hlive2).
  subst d2 d1. rewrite H1. cbn [d_client d_fs d_net d_result d_responses].
  rewrite H2. cbn [d_client d_fs d_net d_result d_responses].
  rewrite Hidx1. repeat split; congruence.
Qed.

(** Page A is in the index of the client: both downloads are answered
    from it. *)
Lemma DownloadPage_twice_from_index_witness :
  let d1 := DownloadPage (H := Model.online) Model.warmClient Model.idA
              Model.noFS 0%nat in
  let d2 := DownloadPage (H := Model.online) (d_client d1) Model.idA
              (d_fs d1) (d_net d1) in
  d_net d2 = 0%nat /\ RequestsNotFromCache (d_client d2) = 0 /\
  d_responses d2 = d_responses d1.
Proof.
  pose proof (DownloadPage_twice_from_index (H := Model.online)
                Model.warmClient Model.idA Model.noFS 0%nat) as Hthm.
  cbv zeta in Hthm. destruct Hthm as (_ & _ & Hserved).
  destruct (Hserved eq_refl (mkNotionID (Model.ToDashID Model.idA) Model.idA)
              eq_refl ltac:(by vm_compute))
    as (_ & Hnet & _ & Hlive & Hresp & _).
  by repeat split.
Defined.

(** C2 as stated fails: with an empty index the request of the first call
    is answered live, and so is the same request of the second call. *)
Lemma DownloadPage_twice_goes_live_twice :
  let d1 := DownloadPage (H := Model.online) Model.newClient Model.idA
              Model.noFS 0%nat in
  let d2 := DownloadPage (H := Model.online) (d_client d1) Model.idA
              (d_fs d1) (d_net d1) in
  NoReadCache Model.newClient = false /\
  RedownloadNewerVersions Model.newClient = false /\
  d_result d1 = Ok (mkPage Model.idA 1 []) /\
  RequestsNotFromCache (d_client d1) = 1 /\
  RequestsNotFromCache (d_client d2) = 2 /\
  d_net d1 = 1%nat /\ d_net d2 = 2%nat.
Proof. by vm_compute. Qed.

(** *** The version oracle *)

Section Versions.
Context `{Env}.

Lemma collectVersions_aligned ids i results acc :
  (forall j b, results !! j = Some (Some b) ->
     exists idi, ids !! (i + j)%nat = Some idi /\ isIDEqual idi (BlockID b) = true) ->
  collectVersions ids i results acc = Ok (acc ++ map versionOf results).
Proof.
  revert i acc. induction results as [|rec results IH]; intros i acc Hall.
  - cbn. by rewrite app_nil_r.
  - cbn [collectVersions map].
    assert (Hrest : forall j b, results !! j = Some (Some b) ->
              exists idi, ids !! (S i + j)%nat = Some idi
                          /\ isIDEqual idi (BlockID b) = true).
    { intros j b Hj. destruct (Hall (S j) b Hj) as (idi & Hidi & Heq).
      exists idi. split; [|done]. by replace (S i + j)%nat with (i + S j)%nat by lia. }
    destruct rec as [b|].
    + destruct (Hall 0%nat b eq_refl) as (idi & Hidi & Heq).
      rewrite Nat.add_0_r in Hidi. rewrite Hidi, Heq. cbn [negb].
      rewrite IH by done. cbn [versionOf]. by rewrite <- app_assoc.
    + rewrite IH by done. cbn [versionOf]. by rewrite <- app_assoc.
Qed.

Lemma collectVersions_mismatch ids i results acc j b idi :
  (i + length results <= length ids)%nat ->
  results !! j = Some (Some b) -> ids !! (i + j)%nat = Some idi ->
  isIDEqual idi (BlockID b) = false ->
  exists m, collectVersions ids i results acc = Panic m.
Proof.
  revert i acc j. induction results as [|rec results IH]; intros i acc j Hlen Hj Hidi Hne.
  - done.
  - cbn [collectVersions]. cbn [length] in Hlen.
    destruct j as [|j].
    + injection Hj as ->. rewrite Nat.add_0_r in Hidi. rewrite Hidi, Hne.
      cbn [negb]. eauto.
    + cbn in Hj.
      assert (Hidi' : ids !! (S i + j)%nat = Some idi)
        by by replace (S i + j)%nat with (i + S j)%nat by lia.
      destruct rec as [b0|]; [|eapply IH; eauto; lia].
      destruct (ids !! i) as [id0|] eqn:Hi0.
      * destruct (negb (isIDEqual id0 (BlockID b0))); [eauto|].
        eapply IH; eauto; lia.
      * eauto.
Qed.

Lemma collectVersions_ok ids i results acc versions :
  collectVersions ids i results acc = Ok versions ->
  versions = acc ++ map versionOf results.
Proof.
  revert i acc. induction results as [|rec results IH]; intros i acc.
  - cbn. intros [= <-]. by rewrite app_nil_r.
  - cbn [collectVersions map]. destruct rec as [b|].
    + destruct (ids !! i) as [idi|]; [|done].
      destruct (negb _); [done|]. intros Hrun%IH. by rewrite Hrun, <- app_assoc.
    + intros Hrun%IH. by rewrite Hrun, <- app_assoc.
Qed.

Lemma normalizeIDS_length ids : length (normalizeIDS ids) = length ids.
Proof. apply length_map. Qed.

Lemma getVersionsForPages_ok ids n results n1 versions ids' n' :
  GetBlockRecords (normalizeIDS ids) n = (Ok results, n1) ->
  getVersionsForPages ids n = (Ok versions, ids', n') ->
  versions = map versionOf results /\ length results = length ids /\
  ids' = normalizeIDS ids /\ n' = n1.
Proof.
  intros Hget. unfold getVersionsForPages. rewrite Hget.
  destruct (length results =? length (normalizeIDS ids))%nat eqn:Hlen; [|done].
  apply Nat.eqb_eq in Hlen. rewrite normalizeIDS_length in Hlen.
  cbn [negb]. intros [= Hrun <- <-].
  apply collectVersions_ok in Hrun. by rewrite Hrun.
Qed.

End Versions.

(** C4 (amended).  When the remote response does not contain exactly one
    result per id, [getVersionsForPages] returns an error; when it does
    and a non-nil result at some position has an id that is not equal
    (under [isIDEqual]) to the normalized requested id at that position,
    it panics instead of returning an error. *)
Theorem getVersionsForPages_count_or_order `{Env} ids n results n' :
  GetBlockRecords (normalizeIDS ids) n = (Ok results, n') ->
  (length results <> length ids ->
   exists e, getVersionsForPages ids n = (Err e, normalizeIDS ids, n')) /\
  (length results = length ids ->
   (exists i b idi,
      results !! i = Some (Some b) /\ normalizeIDS ids !! i = Some idi /\
      isIDEqual idi (BlockID b) = false) ->
   exists m, getVersionsForPages ids n = (Panic m, normalizeIDS ids, n')).
Proof.
  intros Hget. unfold getVersionsForPages. rewrite Hget.
  rewrite normalizeIDS_length. split.
  - intros Hlen. apply Nat.eqb_neq in Hlen. rewrite Hlen. cbn [negb]. eauto.
  - intros Hlen (i & b & idi & Hi & Hidi & Hne).
    rewrite Hlen, Nat.eqb_refl. cbn [negb].
    destruct (collectVersions_mismatch (normalizeIDS ids) 0 results [] i b idi)
      as [m Hm]; try done.
    { rewrite normalizeIDS_length. cbn. lia. }
    rewrite Hm. eauto.
Qed.

(** The two cases on the model: two ids asked and one result, and page A
    asked and the block of page B returned. *)
Lemma getVersionsForPages_count_or_order_witness :
  (exists e, getVersionsForPages (H := Model.wrongOrder) [Model.idA; Model.idB] 0%nat
             = (Err e, normalizeIDS (H := Model.wrongOrder) [Model.idA; Model.idB], 1%nat)) /\
  (exists m, getVersionsForPages (H := Model.wrongOrder) [Model.idA] 0%nat
             = (Panic m, normalizeIDS (H := Model.wrongOrder) [Model.idA], 1%nat)).
Proof.
  split.
  - apply (getVersionsForPages_count_or_order (H := Model.wrongOrder)
             [Model.idA; Model.idB] 0%nat [Some (mkBlock Model.idB 7)] 1%nat eq_refl).
    by vm_compute.
  - apply (getVersionsForPages_count_or_order (H := Model.wrongOrder)
             [Model.idA] 0%nat [Some (mkBlock Model.idB 7)] 1%nat eq_refl);
      [reflexivity|].
    exists 0%nat, (mkBlock Model.idB 7), (Model.ToDashID Model.idA).
    by vm_compute.
Defined.

(** C4 as stated fails: one id asked, one result returned, for another
    page; the call panics and returns no error. *)
Lemma getVersionsForPages_wrong_order_panics :
  (getVersionsForPages (H := Model.wrongOrder) [Model.idA] 0%nat).1.1
  = Panic ("got result in the wrong order, ids[i]: "
           +:+ Model.dashA +:+ ", id: " +:+ Model.idB)
  /\ is_Err (getVersionsForPages (H := Model.wrongOrder) [Model.idA] 0%nat).1.1
     = false.
Proof. by vm_compute. Qed.

Section Freshness.
Context `{Env}.

Lemma canReturnCachedPage_known d p n v :
  RedownloadNewerVersions d = true ->
  latestVersion d (ToNoDashID (ID p)) = Some v ->
  canReturnCachedPage d (Some p) n = (Ok (RootVersion p >=? v), d, n).
Proof.
  intros Hmode Hv. unfold canReturnCachedPage. by rewrite Hmode, Hv.
Qed.

Lemma canReturnCachedPage_unknown d p n :
  RedownloadNewerVersions d = true ->
  latestVersion d (ToNoDashID (ID p)) = None ->
  canReturnCachedPage d (Some p) n =
  match updateVersionsForPages d [ToNoDashID (ID p)] n with
  | (Err _, d, n) => (Ok false, d, n)
  | (Panic m, d, n) => (Panic m, d, n)
  | (Ok _, d, n) =>
      (Ok (RootVersion p >=? default 0 (latestVersion d (ToNoDashID (ID p)))),
       d, n)
  end.
Proof.
  intros Hmode Hv. unfold canReturnCachedPage. by rewrite Hmode, Hv.
Qed.

(** The single-id oracle call of [canReturnCachedPage] when the service
    reports the page absent: the sentinel 0 is recorded. *)
Lemma updateVersionsForPages_absent d id n m n' :
  IdToPageLatestVersion d = Some m ->
  GetBlockRecords (normalizeIDS [id]) n = (Ok [None], n') ->
  updateVersionsForPages d [id] n
  = (Ok tt,
     set_IdToPageLatestVersion d
       (Some (<[ToNoDashID (normalizeID id) := 0]> m)), n').
Proof.
  intros Hmap Hget. unfold updateVersionsForPages.
  destruct (decide _) as [Hlen|_]; [done|].
  change (merge_sort String.le [id]) with [id].
  unfold getVersionsForPages. rewrite Hget.
  cbn. by rewrite Hmap.
Qed.

End Freshness.

(** C6 (amended).  For every id of a batch whose result carries no block
    record, [getVersionsForPages] reports version 0 at that id's position.
    With [RedownloadNewerVersions] on, [canReturnCachedPage] accepts a
    non-nil page exactly when its root version is at least the latest
    version recorded for its no-dash id.  When the version map is not nil
    and holds no version for that id, a single-id oracle call is made
    first: the page is rejected when the call returns an error or does
    not return exactly one result; the call panics when the result
    carries the block of another page; otherwise the version reported (0
    for a page the oracle does not know) is recorded under the no-dash
    form of the normalized id, and the page is accepted exactly when its
    root version is at least the version then recorded for its no-dash
    id (0 when there is none).  So a cached page with version at least 1
    is not judged stale because the oracle reported the sentinel 0.  With
    [RedownloadNewerVersions] off every non-nil page is accepted,
    whatever the recorded version; the nil page is always rejected. *)
Theorem sentinel_and_freshness `{Env} (d : CachingClient) (p : Page) (n : Net) :
  (forall ids results n1 versions ids' n',
     GetBlockRecords (normalizeIDS ids) n = (Ok results, n1) ->
     getVersionsForPages ids n = (Ok versions, ids', n') ->
     length versions = length ids /\
     forall i, results !! i = Some None -> versions !! i = Some 0) /\
  (RedownloadNewerVersions d = true ->
   let pageID := ToNoDashID (ID p) in
   (forall v, latestVersion d pageID = Some v ->
      canReturnCachedPage d (Some p) n
      = (Ok (bool_decide (v <= RootVersion p)), d, n)) /\
   (forall m r n',
      IdToPageLatestVersion d = Some m -> m !! pageID = None ->
      GetBlockRecords (normalizeIDS [pageID]) n = (r, n') ->
      match r with
      | Ok [rec] =>
          if answersFor (normalizeID pageID) rec then
            let m' := <[ToNoDashID (normalizeID pageID) := versionOf rec]> m in
            canReturnCachedPage d (Some p) n
            = (Ok (bool_decide (default 0 (m' !! pageID) <= RootVersion p)),
               set_IdToPageLatestVersion d (Some m'), n')
          else exists msg, canReturnCachedPage d (Some p) n = (Panic msg, d, n')
      | Ok _ => canReturnCachedPage d (Some p) n = (Ok false, d, n')
      | Err _ => canReturnCachedPage d (Some p) n = (Ok false, d, n')
      | Panic msg => canReturnCachedPage d (Some p) n = (Panic msg, d, n')
      end) /\
   (1 <= RootVersion p -> latestVersion d pageID = Some 0 ->
      canReturnCachedPage d (Some p) n = (Ok true, d, n)) /\
   (1 <= RootVersion p ->
      forall m n', IdToPageLatestVersion d = Some m -> m !! pageID = None ->
      GetBlockRecords (normalizeIDS [pageID]) n = (Ok [None], n') ->
      exists d', canReturnCachedPage d (Some p) n = (Ok true, d', n'))) /\
  (RedownloadNewerVersions d = false ->
   canReturnCachedPage d (Some p) n = (Ok true, d, n)) /\
  canReturnCachedPage d None n = (Ok false, d, n).
Proof.
  assert (Hge : forall a b, (a >=? b) = bool_decide (b <= a)).
  { intros a b. rewrite Z.geb_leb. case_bool_decide.
    - by apply Z.leb_le.
    - apply Z.leb_gt. lia. }
  split; [|split; [|split]].
  - intros ids results n1 versions ids' n' Hget Hrun.
    destruct (getVersionsForPages_ok _ _ _ _ _ _ _ Hget Hrun) as (-> & Hlen & _ & _).
    split; [by rewrite length_map|].
    intros i Hi. by rewrite list_lookup_fmap, Hi.
  - intros Hmode pageID.
    assert (Hcall : forall m r n',
      IdToPageLatestVersion d = Some m -> m !! pageID = None ->
      GetBlockRecords (normalizeIDS [pageID]) n = (r, n') ->
      match r with
      | Ok [rec] =>
          if answersFor (normalizeID pageID) rec then
            let m' := <[ToNoDashID (normalizeID pageID) := versionOf rec]> m in
            canReturnCachedPage d (Some p) n
            = (Ok (bool_decide (default 0 (m' !! pageID) <= RootVersion p)),
               set_IdToPageLatestVersion d (Some m'), n')
          else exists msg, canReturnCachedPage d (Some p) n = (Panic msg, d, n')
      | Ok _ => canReturnCachedPage d (Some p) n = (Ok false, d, n')
      | Err _ => canReturnCachedPage d (Some p) n = (Ok false, d, n')
      | Panic msg => canReturnCachedPage d (Some p) n = (Panic msg, d, n')
      end).
    { intros m r n' Hmap Hnone Hget.
      assert (Hv : latestVersion d pageID = None).
      { unfold latestVersion. by rewrite Hmap. }
      rewrite canReturnCachedPage_unknown by done. fold pageID.
      unfold updateVersionsForPages.
      destruct (decide _) as [Hlen|_]; [done|].
      change (merge_sort String.le [pageID]) with [pageID].
      unfold getVersionsForPages. rewrite Hget.
      destruct r as [results|e|msg]; [|done|done].
      destruct results as [|rec [|rec2 results]]; [done| |done].
      change (negb (length [rec] =? length (normalizeIDS [pageID]))%nat)
        with false. cbv iota.
      destruct rec as [b|]; cbn [answersFor collectVersions].
      - change (normalizeIDS [pageID] !! 0%nat) with (Some (normalizeID pageID)).
        cbv iota. destruct (isIDEqual (normalizeID pageID) (BlockID b));
          cbn [negb]; [|by eexists].
        cbn. rewrite Hmap. cbv zeta. by rewrite Hge.
      - cbn. rewrite Hmap. cbv zeta. by rewrite Hge. }
    split; [|split; [exact Hcall|split]].
    + intros v Hv. rewrite <- Hge. by apply canReturnCachedPage_known.
    + intros Hp Hv. rewrite (canReturnCachedPage_known d p n 0) by done.
      do 2 f_equal. f_equal. apply Z.geb_le. lia.
    + intros Hp m n' Hmap Hnone Hget.
      pose proof (Hcall m (Ok [None]) n' Hmap Hnone Hget) as Hrun.
      cbn [answersFor versionOf] in Hrun. cbv zeta in Hrun.
      eexists. rewrite Hrun. do 2 f_equal. f_equal. apply bool_decide_eq_true.
      destruct (decide (ToNoDashID (normalizeID pageID) = pageID)) as [->|Hne].
      * rewrite lookup_insert_eq. cbn. lia.
      * rewrite lookup_insert_ne, Hnone by done. cbn. lia.
  - intros Hmode. unfold canReturnCachedPage. by rewrite Hmode.
  - reflexivity.
Qed.

(** Freshness mode, nothing recorded for page A, the service reports it
    absent: the cached page of version 3 is accepted and the sentinel is
    recorded. *)
Lemma sentinel_and_freshness_witness :
  exists d',
    canReturnCachedPage (H := Model.allAbsent) Model.freshClient
      (Some Model.oldPageA) 0%nat = (Ok true, d', 1%nat).
Proof.
  pose proof (sentinel_and_freshness (H := Model.allAbsent) Model.freshClient
                Model.oldPageA 0%nat) as (_ & Hon & _ & _).
  destruct (Hon eq_refl) as (_ & _ & _ & Habsent).
  apply (Habsent ltac:(by vm_compute) ∅ 1%nat eq_refl eq_refl eq_refl).
Defined.

(** C6 as stated fails: freshness mode off, version 5 recorded for page A,
    and the cached page of version 3 is accepted. *)
Lemma canReturnCachedPage_ignores_recorded_version :
  canReturnCachedPage (H := Model.offline) Model.knowsA (Some Model.oldPageA) 0%nat
  = (Ok true, Model.knowsA, 0%nat)
  /\ latestVersion Model.knowsA (@ToNoDashID Model.offline (ID Model.oldPageA))
     = Some 5
  /\ RootVersion Model.oldPageA = 3.
Proof. by vm_compute. Qed.

(** *** Loading the cache *)

Section Load.
Context `{Env}.

Lemma deserializeCacheEntry_no_panic d :
  is_Panic (deserializeCacheEntry d) = false.
Proof.
  unfold deserializeCacheEntry.
  destruct (deserializeCacheEntry_fuel d) as [r Hr]. rewrite Hr.
  revert Hr. generalize (S (String.length d)) (@None error) (@nil RequestCacheEntry).
  intros fuel. revert d r.
  induction fuel as [|fuel IH]; intros d r err res; [done|].
  cbn [deserialize_go].
  destruct (siser.ReadNextRecord d) as [[rec rest]|].
  - destruct (negb _); [by intros [= <-]|].
    destruct (recGetKey rec "Method" err) as [? err1].
    destruct (recGetKey rec "URL" err1) as [? err2].
    destruct (recGetKeyBytes rec "Body" err2) as [? err3].
    destruct (recGetKeyBytes rec "Response" err3) as [? err4].
    apply IH.
  - intros [= <-]. by destruct err.
Qed.

Lemma readEntries_skip dir fi entries fs idx :
  indexable fi = false ->
  readEntries dir (fi :: entries) fs idx = readEntries dir entries fs idx.
Proof.
  unfold indexable. cbn [readEntries].
  destruct (fiRegular fi); [|done]. cbn [negb andb].
  destruct (HasSuffix (fiName fi) ".txt"); [|done]. cbn [negb andb].
  destruct (NewNotionID _); [|done].
  intros Hskip%bool_decide_eq_false. by destruct Hskip.
Qed.

Lemma readEntries_indexable dir fi entries fs idx :
  indexable fi = true ->
  exists nid,
    NewNotionID (removeAll ".txt" (fiName fi)) = Some nid /\
    readEntries dir (fi :: entries) fs idx =
    match ReadFile (Join dir (fiName fi)) fs with
    | inl e => (Err e, idx)
    | inr d =>
        match deserializeCacheEntry d with
        | Err e => (Err e, idx)
        | Panic m => (Panic m, idx)
        | Ok es => readEntries dir entries fs (<[NoDashID nid := es]> idx)
        end
    end.
Proof.
  unfold indexable. cbn [readEntries].
  intros [[-> ->]%andb_true_iff Hid%bool_decide_eq_true]%andb_true_iff.
  destruct Hid as [nid Hid]. exists nid. by rewrite Hid.
Qed.

Lemma readEntries_ok dir entries fs idx :
  (readEntries dir entries fs idx).1 = Ok tt <->
  Forall (fun fi => indexable fi = true -> loads dir fs fi) entries.
Proof.
  revert idx. induction entries as [|fi entries IH]; intros idx.
  - split; [constructor|done].
  - rewrite Forall_cons. destruct (indexable fi) eqn:Hfi.
    + destruct (readEntries_indexable dir fi entries fs idx Hfi) as (nid & _ & ->).
      unfold loads at 1.
      destruct (ReadFile (Join dir (fiName fi)) fs) as [e|d].
      { split; [done|]. intros [Hload _]. by destruct (Hload eq_refl) as (? & ? & ? & _). }
      destruct (deserializeCacheEntry d) as [es|e|m] eqn:Hd.
      * rewrite IH. split; [|by intros [_ ?]].
        intros Hrest. split; [|done]. intros _. by exists d, es.
      * split; [done|]. intros [Hload _].
        destruct (Hload eq_refl) as (d' & es & [= <-] & Hes). congruence.
      * split; [done|]. intros [Hload _].
        destruct (Hload eq_refl) as (d' & es & [= <-] & Hes). congruence.
    + rewrite readEntries_skip by done. rewrite IH. split; [|by intros [_ ?]].
      intros Hrest. split; [|done]. intros Hcontra. done.
Qed.

Lemma readEntries_no_panic dir entries fs idx :
  is_Panic (readEntries dir entries fs idx).1 = false.
Proof.
  revert idx. induction entries as [|fi entries IH]; intros idx; [done|].
  destruct (indexable fi) eqn:Hfi.
  - destruct (readEntries_indexable dir fi entries fs idx Hfi) as (nid & _ & ->).
    destruct (ReadFile _ fs) as [e|d]; [done|].
    pose proof (deserializeCacheEntry_no_panic d).
    destruct (deserializeCacheEntry d); [apply IH|done|done].
  - by rewrite readEntries_skip.
Qed.

Lemma readEntries_filter dir entries fs idx :
  readEntries dir (List.filter indexable entries) fs idx
  = readEntries dir entries fs idx.
Proof.
  revert idx. induction entries as [|fi entries IH]; intros idx; [done|].
  cbn [List.filter]. destruct (indexable fi) eqn:Hfi.
  - destruct (readEntries_indexable dir fi entries fs idx Hfi) as (nid & Hid & ->).
    destruct (readEntries_indexable dir fi (List.filter indexable entries) fs idx Hfi)
      as (nid' & Hid' & ->).
    assert (nid' = nid) as -> by congruence.
    destruct (ReadFile _ fs) as [e|d]; [done|].
    destruct (deserializeCacheEntry d); [apply IH|done|done].
  - by rewrite readEntries_skip.
Qed.

End Load.

(** C5 (amended).  [readRequestsCacheFile] returns an error on a
    directory-creation failure, on a directory read failure, and when the
    file of a directory entry that is regular, ends in [.txt] and parses
    as an identity cannot be read or fails record deserialization: it
    succeeds exactly when every such file is read and deserialized.  It
    never panics.  Directory entries that are not regular files, do not
    end in [.txt] or do not parse as an identity are skipped without
    effect. *)
Theorem readRequestsCacheFile_outcome `{Env} c dir fs :
  (forall e, MkdirAll dir fs = Some e ->
     (readRequestsCacheFile c dir fs).1 = Err e) /\
  (MkdirAll dir fs = None -> forall e, ReadDir dir fs = inl e ->
     (readRequestsCacheFile c dir fs).1 = Err e) /\
  (MkdirAll dir fs = None -> forall entries, ReadDir dir fs = inr entries ->
     ((readRequestsCacheFile c dir fs).1 = Ok tt <->
      Forall (fun fi => indexable fi = true -> loads dir fs fi) entries) /\
     is_Panic (readRequestsCacheFile c dir fs).1 = false /\
     (readRequestsCacheFile c dir fs).1
     = (readEntries dir (List.filter indexable entries) fs ∅).1 /\
     pageIDToEntries (readRequestsCacheFile c dir fs).2
     = (readEntries dir (List.filter indexable entries) fs ∅).2).
Proof.
  unfold readRequestsCacheFile. split; [|split].
  - by intros e ->.
  - by intros -> e ->.
  - intros Hmk entries Hdir. rewrite Hmk, Hdir.
    rewrite readEntries_filter.
    pose proof (readEntries_ok dir entries fs ∅) as Hok.
    pose proof (readEntries_no_panic dir entries fs ∅) as Hnp.
    by destruct (readEntries dir entries fs ∅) as [r idx].
Qed.

(** A directory with a stray file, a sub-directory and one well-formed
    cache file loads without error. *)
Lemma readRequestsCacheFile_outcome_witness :
  (readRequestsCacheFile (H := Model.offline) Model.newClient "cache"
     Model.goodCache).1 = Ok tt.
Proof.
  pose proof (readRequestsCacheFile_outcome (H := Model.offline) Model.newClient
                "cache" Model.goodCache) as (_ & _ & Hdir).
  destruct (Hdir eq_refl _ eq_refl) as (Hok & _).
  apply Hok. repeat constructor.
  - by vm_compute.
  - by vm_compute.
  - intros _. eexists _, _. split; by vm_compute.
Defined.

(** C5 as stated fails: a cache file whose record has another type fails
    deserialization, and the load returns that error. *)
Lemma readRequestsCacheFile_malformed_file_fails :
  deserializeCacheEntry ("0 other" +:+ NL)
  = Err "unexpected record type 'other', wanted 'noahttpcache'" /\
  (readRequestsCacheFile (H := Model.offline) Model.newClient "cache"
     Model.badCache).1
  = Err "unexpected record type 'other', wanted 'noahttpcache'".
Proof. by vm_compute. Qed.

(** *** Text spans *)

Module TextSpansFacts.
Import JSON TextSpans.

Section Parse.
Variable MarshalIndent : list (string * Value) -> error + string.

Abbreviation attrRel := (attrRel MarshalIndent).
Abbreviation spanRel := (spanRel MarshalIndent).
Abbreviation parseTextSpanAttribute := (parseTextSpanAttribute MarshalIndent).
Abbreviation parseTextSpanAttributes := (parseTextSpanAttributes MarshalIndent).
Abbreviation parseTextSpan := (parseTextSpan MarshalIndent).
Abbreviation parseSpans := (parseSpans MarshalIndent).
Abbreviation ParseTextSpans := (ParseTextSpans MarshalIndent).

Lemma trailingStrings_no_panic vs attr :
  is_Panic (trailingStrings vs attr) = false.
Proof.
  revert attr. induction vs as [|v vs IH]; intros attr; [done|].
  destruct v; cbn; auto.
Qed.

Lemma trailingStrings_ok vs attr attr' :
  trailingStrings vs attr = Ok attr' ->
  exists vals, vs = map Str vals /\ attr' = attr ++ vals.
Proof.
  revert attr. induction vs as [|v vs IH]; intros attr.
  - cbn. intros [= <-]. exists []. by rewrite app_nil_r.
  - destruct v; cbn; try done. intros (vals & -> & ->)%IH.
    exists (s :: vals). by rewrite <- app_assoc.
Qed.

Lemma parseTextSpanAttribute_no_panic b a :
  is_Panic (parseTextSpanAttribute b a) = false.
Proof.
  unfold TextSpans.parseTextSpanAttribute.
  destruct a as [|v0 a]; [done|]. cbn [length lookup list_lookup].
  destruct (decide _); [done|]. cbn.
  destruct v0; try done.
  destruct (String.eqb s Attr2Date).
  - destruct (decide _) as [|Hlen]; [done|].
    destruct a as [|v1 a]; [exfalso; apply Hlen; cbn; lia|]. cbn.
    destruct v1; try done. by destruct (MarshalIndent m).
  - rewrite drop_0. pose proof (trailingStrings_no_panic a [s]).
    by destruct (trailingStrings a [s]).
Qed.

Lemma parseTextSpanAttribute_ok b a b' :
  parseTextSpanAttribute b a = Ok b' ->
  exists attr, attrRel (Arr a) attr /\ b' = appendAttr b attr.
Proof.
  unfold TextSpans.parseTextSpanAttribute.
  destruct a as [|v0 a]; [done|]. cbn [length lookup list_lookup].
  destruct (decide _); [done|]. cbn.
  destruct v0; try done.
  destruct (String.eqb s Attr2Date) eqn:Hkind.
  - apply String.eqb_eq in Hkind as ->.
    destruct (decide _) as [|Hlen]; [done|].
    destruct a as [|v1 [|v2 a]]; [done| |cbn in Hlen; lia]. cbn.
    destruct v1; try done.
    destruct (MarshalIndent m) as [e|js] eqn:Hjs; [done|].
    intros [= <-]. eexists. split; [by constructor|done].
  - apply String.eqb_neq in Hkind. rewrite drop_0.
    destruct (trailingStrings a [s]) as [attr| |] eqn:Hvals; try done.
    apply trailingStrings_ok in Hvals as (vals & -> & ->).
    intros [= <-]. exists (s :: vals). split; [by constructor|done].
Qed.

Lemma parseTextSpanAttributes_no_panic b a :
  is_Panic (parseTextSpanAttributes b a) = false.
Proof.
  revert b. induction a as [|v a IH]; intros b; [done|].
  cbn [TextSpans.parseTextSpanAttributes]. destruct v; try done.
  pose proof (parseTextSpanAttribute_no_panic b l).
  destruct (parseTextSpanAttribute b l); [apply IH|done|done].
Qed.

Lemma parseTextSpanAttributes_ok b a b' :
  parseTextSpanAttributes b a = Ok b' ->
  exists attrs,
    Forall2 attrRel a attrs /\ b' = mkTextSpan (Text b) (Attrs b ++ attrs).
Proof.
  revert b. induction a as [|v a IH]; intros b.
  - cbn. intros [= <-]. exists []. split; [constructor|].
    rewrite app_nil_r. by destruct b.
  - cbn [TextSpans.parseTextSpanAttributes]. destruct v; try done.
    destruct (parseTextSpanAttribute b l) as [b1| |] eqn:Hattr; try done.
    apply parseTextSpanAttribute_ok in Hattr as (attr & Hrel & ->).
    intros (attrs & Hrels & ->)%IH. exists (attr :: attrs).
    split; [by constructor|]. cbn. by rewrite <- app_assoc.
Qed.

(** [parseTextSpan] panics on a text followed by something that is not a
    list, and only there. *)
Lemma parseTextSpan_panic a m :
  parseTextSpan a = Panic m <->
  (exists t v, a = [Str t; v] /\ forall l, v <> Arr l) /\
  m = "index out of range [1] with length 0".
Proof.
  unfold TextSpans.parseTextSpan.
  destruct a as [|v0 [|v1 a]].
  - split; [done|]. by intros [(? & ? & [=] & _) _].
  - cbn. split; [by destruct v0|]. by intros [(? & ? & [=] & _) _].
  - cbn [length]. do 2 (destruct (decide _); [done|]).
    destruct (decide _) as [|Hlen].
    { split; [done|]. intros [(t & v & [= -> -> ->] & _) _]. done. }
    destruct a; [|cbn in Hlen; lia]. cbn.
    destruct v0 as [|b0|z0|t|l0|m0]; try (split; [done|by intros [(? & ? & [=] & _) _]]).
    pose proof (parseTextSpanAttributes_no_panic (mkTextSpan t [])) as Hnp.
    destruct v1 as [|b1|z1|s1|l|m1];
      try (split;
           [intros [= <-]; split; [|done]; eexists _, _; split; [done|];
            by intros l
           |by intros [_ ->]]).
    specialize (Hnp l). split.
    + intros Hrun. by rewrite Hrun in Hnp.
    + intros [(t' & v & [= _ <-] & Hv) _]. by destruct (Hv l).
Qed.

Lemma parseTextSpan_ok a span :
  parseTextSpan a = Ok span -> spanRel (Arr a) span.
Proof.
  unfold TextSpans.parseTextSpan.
  destruct a as [|v0 [|v1 a]]; [done| |].
  - cbn. destruct v0; try done. intros [= <-]. constructor.
  - cbn [length]. do 2 (destruct (decide _); [done|]).
    destruct (decide _) as [|Hlen]; [done|].
    destruct a; [|cbn in Hlen; lia]. cbn.
    destruct v0; try done. destruct v1; try done.
    intros (attrs & Hrels & ->)%parseTextSpanAttributes_ok. by constructor.
Qed.

Lemma trailingStrings_strs vals attr :
  trailingStrings (map Str vals) attr = Ok (attr ++ vals).
Proof.
  revert attr. induction vals as [|v vals IH]; intros attr.
  - cbn. by rewrite app_nil_r.
  - cbn [map trailingStrings]. rewrite IH. by rewrite <- app_assoc.
Qed.

Lemma parseTextSpanAttribute_complete b a attr :
  attrRel (Arr a) attr ->
  parseTextSpanAttribute b a = Ok (appendAttr b attr).
Proof.
  inversion 1 as [m js Hjs|k vals Hk]; subst.
  - unfold TextSpans.parseTextSpanAttribute. cbn. by rewrite Hjs.
  - unfold TextSpans.parseTextSpanAttribute. cbn [length].
    destruct (decide _) as [|_]; [done|]. cbn [lookup list_lookup].
    destruct (String.eqb_spec k Attr2Date) as [|_]; [done|].
    cbn [drop]. rewrite drop_0. by rewrite trailingStrings_strs.
Qed.

Lemma parseTextSpanAttributes_complete b rawAttrs attrs :
  Forall2 attrRel rawAttrs attrs ->
  parseTextSpanAttributes b rawAttrs
  = Ok (mkTextSpan (Text b) (Attrs b ++ attrs)).
Proof.
  intros Hrel. revert b.
  induction Hrel as [|raw attr rawAttrs attrs Hattr _ IH]; intros b.
  - cbn. rewrite app_nil_r. by destruct b.
  - cbn [TextSpans.parseTextSpanAttributes].
    assert (Hraw : exists a, raw = Arr a) by (inversion Hattr; eauto).
    destruct Hraw as [a ->].
    rewrite (parseTextSpanAttribute_complete b a attr Hattr), IH.
    cbn. by rewrite <- app_assoc.
Qed.

Lemma parseTextSpan_complete raw span :
  spanRel raw span ->
  exists a, raw = Arr a /\ parseTextSpan a = Ok span.
Proof.
  inversion 1 as [t|t rawAttrs attrs Hattrs]; subst.
  - by exists [Str t].
  - exists [Str t; Arr rawAttrs]. split; [done|].
    unfold TextSpans.parseTextSpan. cbn.
    by rewrite (parseTextSpanAttributes_complete _ _ attrs).
Qed.

Lemma parseSpans_complete rawSpans spans res :
  Forall2 spanRel rawSpans spans ->
  parseSpans rawSpans res = Ok (res ++ spans).
Proof.
  intros Hrel. revert res.
  induction Hrel as [|raw span rawSpans spans Hspan _ IH]; intros res.
  - cbn. by rewrite app_nil_r.
  - destruct (parseTextSpan_complete raw span Hspan) as (a & -> & Hparse).
    cbn [TextSpans.parseSpans]. rewrite Hparse, IH. by rewrite <- app_assoc.
Qed.

(** The loop stops with a panic at the first span that is a text followed
    by something that is not a list, provided every span before it
    parses. *)
Lemma parseSpans_panic a res m :
  parseSpans a res = Panic m <->
  (exists pre spans t v post,
     a = pre ++ Arr [Str t; v] :: post /\ (forall l, v <> Arr l) /\
     Forall2 spanRel pre spans) /\
  m = "index out of range [1] with length 0".
Proof.
  split.
  - revert res. induction a as [|v a IH]; intros res; [done|].
    cbn [TextSpans.parseSpans]. destruct v as [|b0|z0|s0|l|m0]; try done.
    destruct (parseTextSpan l) as [span| |] eqn:Hspan; [|done|].
    + apply parseTextSpan_ok in Hspan.
      intros [(pre & spans & t & v & post & -> & Hv & Hpre) ->]%IH.
      split; [|done]. exists (Arr l :: pre), (span :: spans), t, v, post.
      split; [done|]. split; [done|]. by constructor.
    + intros [= <-]. apply parseTextSpan_panic in Hspan as [(t & v & -> & Hv) ->].
      split; [|done]. by exists [], [], t, v, a.
  - intros [(pre & spans & t & v & post & -> & Hv & Hpre) ->]. revert res.
    induction Hpre as [|raw span pre spans Hspan _ IH]; intros res.
    + cbn [app TextSpans.parseSpans].
      assert (Hp : parseTextSpan [Str t; v]
                   = Panic "index out of range [1] with length 0").
      { apply parseTextSpan_panic. split; [|done]. by exists t, v. }
      by rewrite Hp.
    + destruct (parseTextSpan_complete raw span Hspan) as (a & -> & Hparse).
      cbn [app TextSpans.parseSpans]. rewrite Hparse. apply IH.
Qed.

Lemma parseSpans_ok a res out :
  parseSpans a res = Ok out ->
  exists spans, Forall2 spanRel a spans /\ out = res ++ spans.
Proof.
  revert res. induction a as [|v a IH]; intros res.
  - cbn. intros [= <-]. exists []. split; [constructor|by rewrite app_nil_r].
  - cbn [TextSpans.parseSpans]. destruct v; try done.
    destruct (parseTextSpan l) as [span| |] eqn:Hspan; try done.
    apply parseTextSpan_ok in Hspan.
    intros (spans & Hrels & ->)%IH. exists (span :: spans).
    split; [by constructor|]. by rewrite <- app_assoc.
Qed.

Lemma ParseTextSpans_panic raw m :
  ParseTextSpans raw = Panic m <->
  (exists pre spans t v post,
     raw = Arr (pre ++ Arr [Str t; v] :: post) /\ (forall l, v <> Arr l) /\
     Forall2 spanRel pre spans) /\
  m = "index out of range [1] with length 0".
Proof.
  destruct raw as [|b0|z0|s0|a|m0];
    try (split; [done|by intros [(? & ? & ? & ? & ? & [=] & _) _]]).
  cbn. destruct (decide _) as [Hzero|_].
  - split; [done|]. intros [(pre & ? & ? & ? & ? & [= ->] & _) _].
    rewrite length_app in Hzero. simpl in Hzero. lia.
  - rewrite parseSpans_panic. split.
    + intros [(pre & spans & t & v & post & -> & ? & ?) ->].
      split; [|done]. by exists pre, spans, t, v, post.
    + intros [(pre & spans & t & v & post & [= ->] & ? & ?) ->].
      split; [|done]. by exists pre, spans, t, v, post.
Qed.

Lemma ParseTextSpans_ok raw spans :
  ParseTextSpans raw = Ok spans ->
  (raw = Null /\ spans = []) \/
  exists rawSpans, raw = Arr rawSpans /\ Forall2 spanRel rawSpans spans.
Proof.
  destruct raw; try done; cbn.
  - intros [= <-]. by left.
  - destruct (decide _); [done|]. intros (spans' & Hrels & ->)%parseSpans_ok.
    right. by exists l.
Qed.

Lemma Forall2_elem_of_l {A B} (P : A -> B -> Prop) l k x :
  Forall2 P l k -> x ∈ l -> exists y, P x y.
Proof.
  intros Hall (i & Hi)%list_elem_of_lookup.
  destruct (Forall2_lookup_l _ _ _ _ _ Hall Hi) as (y & _ & Hy). eauto.
Qed.

Lemma wrongShape_not_parsed rawSpans spans :
  wrongShape (Arr rawSpans) -> Forall2 spanRel rawSpans spans -> False.
Proof.
  intros Hwrong Hrels.
  assert (Hattrs : forall t attrs,
            Arr [t; Arr attrs] ∈ rawSpans ->
            exists parsed, Forall2 attrRel attrs parsed).
  { intros t attrs Hin.
    destruct (Forall2_elem_of_l _ _ _ _ Hrels Hin) as [span Hspan].
    inversion Hspan; subst. eauto. }
  inversion Hwrong as
    [raw Hnl | ? v Hin Hnl | ? a Hin Hl1 Hl2 | ? a v Hin Ha Hns
    | ? t v Hin Hnl | ? t attrs v Hin Hv Hnl | ? t attrs a v Hin Ha Hv Hns
    | ? t attrs k vals v Hin Ha Hk Hv Hns | ? t attrs vals Hin Ha Hlen
    | ? t attrs v Hin Ha Hnm]; subst.
  - by eapply Hnl.
  - destruct (Forall2_elem_of_l _ _ _ _ Hrels Hin) as [span Hspan].
    inversion Hspan; subst; by eapply Hnl.
  - destruct (Forall2_elem_of_l _ _ _ _ Hrels Hin) as [span Hspan].
    inversion Hspan; subst; cbn in *; lia.
  - destruct (Forall2_elem_of_l _ _ _ _ Hrels Hin) as [span Hspan].
    inversion Hspan; subst; cbn in Ha; injection Ha as <-; by eapply Hns.
  - destruct (Forall2_elem_of_l _ _ _ _ Hrels Hin) as [span Hspan].
    inversion Hspan; subst. by eapply Hnl.
  - destruct (Hattrs _ _ Hin) as [parsed Hparsed].
    destruct (Forall2_elem_of_l _ _ _ _ Hparsed Hv) as [attr Hattr].
    inversion Hattr; subst; by eapply Hnl.
  - destruct (Hattrs _ _ Hin) as [parsed Hparsed].
    destruct (Forall2_elem_of_l _ _ _ _ Hparsed Ha) as [attr Hattr].
    inversion Hattr; subst; cbn in Hv; injection Hv as <-; by eapply Hns.
  - destruct (Hattrs _ _ Hin) as [parsed Hparsed].
    destruct (Forall2_elem_of_l _ _ _ _ Hparsed Ha) as [attr Hattr].
    inversion Hattr as [m js Hjs|k' vals' Hk']; subst; [done|].
    apply list_elem_of_fmap in Hv as (s & -> & _). by eapply Hns.
  - destruct (Hattrs _ _ Hin) as [parsed Hparsed].
    destruct (Forall2_elem_of_l _ _ _ _ Hparsed Ha) as [attr Hattr].
    inversion Hattr; subst; done.
  - destruct (Hattrs _ _ Hin) as [parsed Hparsed].
    destruct (Forall2_elem_of_l _ _ _ _ Hparsed Ha) as [attr Hattr].
    inversion Hattr; subst; [by eapply Hnm|done].
Qed.

End Parse.
End TextSpansFacts.

(** C9.  [ParseTextSpans] aborts the process on a wrong shape that the
    claim says is an error: on the input [[["x", 5]]], one span whose
    second element is not a list, it panics with an index out of range.
    It panics exactly on an input in which such a span comes after spans
    that parse, and with that message.  Every other non-nil input of a
    wrong shape (not a list of lists, a span of length other than 1 or 2,
    a non-string first element, a non-string simple attribute value, a
    date attribute whose second value is not a map or whose length is not
    2) is answered with an error.  Each successfully parsed attribute
    keeps only the fields of its own kind: a date attribute carries
    exactly one extra value, the marshaled map, every other kind carries
    its trailing string values. *)
Theorem ParseTextSpans_attrs_not_list_panics
    (MarshalIndent : list (string * JSON.Value) -> error + string) :
  TextSpans.ParseTextSpans MarshalIndent
    (JSON.Arr [JSON.Arr [JSON.Str "x"; JSON.Number 5]])
  = Panic "index out of range [1] with length 0" /\
  (forall raw m,
     TextSpans.ParseTextSpans MarshalIndent raw = Panic m <->
     (exists pre spans t v post,
        raw = JSON.Arr (pre ++ JSON.Arr [JSON.Str t; v] :: post) /\
        (forall l, v <> JSON.Arr l) /\
        Forall2 (TextSpans.spanRel MarshalIndent) pre spans) /\
     m = "index out of range [1] with length 0") /\
  (forall raw,
     TextSpans.wrongShape raw -> raw <> JSON.Null ->
     is_Panic (TextSpans.ParseTextSpans MarshalIndent raw) = false ->
     exists e, TextSpans.ParseTextSpans MarshalIndent raw = Err e) /\
  (forall raw spans,
     TextSpans.ParseTextSpans MarshalIndent raw = Ok spans ->
     (raw = JSON.Null /\ spans = []) \/
     exists rawSpans,
       raw = JSON.Arr rawSpans /\
       Forall2 (TextSpans.spanRel MarshalIndent) rawSpans spans).
Proof.
  split; [reflexivity|]. split; [apply TextSpansFacts.ParseTextSpans_panic|].
  split; [|apply TextSpansFacts.ParseTextSpans_ok].
  intros raw Hwrong Hnil Hnp.
  destruct (TextSpans.ParseTextSpans MarshalIndent raw) as [spans|e|m] eqn:Hrun;
    [|eauto|done].
  apply TextSpansFacts.ParseTextSpans_ok in Hrun as [[-> _]|(rawSpans & -> & Hrels)];
    [done|].
  by destruct (TextSpansFacts.wrongShape_not_parsed MarshalIndent rawSpans spans).
Qed.

(** The nil input is not a list of lists either; it is accepted by an
    explicit test, with no spans and no error. *)
Lemma ParseTextSpans_nil_is_accepted :
  TextSpans.wrongShape JSON.Null /\
  TextSpans.ParseTextSpans Model.MarshalIndent JSON.Null = Ok [].
Proof. split; [by constructor|reflexivity]. Qed.

(** *** The crawl *)

Section Crawl.
Context `{Env}.
Variable G : string -> list string.
Variable V : list string.
Variable start : string.

Hypothesis subPages_of_graph :
  forall c id fs n page,
    d_result (DownloadPage c id fs n) = Ok page -> SubPages page = G id.
Hypothesis start_in_V : ToNoDashID start ∈ V.
Hypothesis V_closed :
  forall id child, id ∈ V -> child ∈ G id -> ToNoDashID child ∈ V.
Hypothesis V_NoDup : NoDup V.

Local Abbreviation s := (ToNoDashID start).












End Crawl.


(** The crawl of the two pages that refer to each other, started at A with
    a dashed id: three rounds of the loop download A, then B, and find A
    already downloaded. *)
Lemma crawl_of_cycle :
  match DownloadPagesRecursively (H := Model.cyclic) 4 Model.newClient
          Model.dashA None Model.noFS 0%nat with
  | Some (res, calls, _, _, _) => Some (res, calls)
  | None => None
  end
  = Some (Ok [mkPage Model.idA 1 [Model.dashB]; mkPage Model.idB 1 [Model.dashA]],
          [(Model.idA, Ok (mkPage Model.idA 1 [Model.dashB]));
           (Model.idB, Ok (mkPage Model.idB 1 [Model.dashA]))]).
Proof. by vm_compute. Qed.




(** ** Part III: further properties *)

(** *** The record codec *)

Lemma app_eq_app_s p q a b :
  p +:+ q = a +:+ b ->
  (exists r, a = p +:+ r /\ q = r +:+ b) \/
  (exists r, r <> "" /\ p = a +:+ r /\ b = r +:+ q).
Proof.
  revert a. induction p as [|c p IH]; intros a E.
  - left. exists a. by rewrite !app_empty_l in *.
  - destruct a as [|c' a].
    + right. exists (String c p). rewrite !app_empty_l in *. by split.
    + rewrite !app_cons in E. injection E as -> E.
      destruct (IH _ E) as [(r & -> & ->)|(r & Hr & -> & ->)].
      * left. by exists r.
      * right. by exists r.
Qed.

Lemma lacks_app_l c s t : lacks c (s +:+ t) -> lacks c s.
Proof.
  unfold lacks. induction s as [|a s IH]; [done|].
  rewrite app_cons. cbn [allBytes]. intros [-> ?]%andb_prop. by rewrite IH.
Qed.

Lemma splitAt_short n s : (String.length s < n)%nat -> splitAt n s = None.
Proof.
  revert s. induction n as [|n IH]; intros s Hs; [lia|].
  destruct s as [|a s]; [done|]. cbn [splitAt]. rewrite IH; [done|].
  simpl in Hs. lia.
Qed.

Lemma ReadNextData_truncated d name p q :
  lacks " " name -> lacks nl name ->
  siser.WriterWrite d name = p +:+ q -> q <> "" ->
  siser.ReadNextData p = None.
Proof.
  intros Hsp Hnl E Hq. unfold siser.WriterWrite in E.
  set (n := String.length d) in *.
  set (pad := if siser.needsNewline d then NL else "") in *.
  set (hn := if String.eqb name "" then "" else " " +:+ name) in *.
  assert (Hn_sp : lacks " " (Itoa n)) by by apply Itoa_lacks.
  assert (Hn_nl : lacks nl (Itoa n)) by by apply Itoa_lacks.
  assert (Hhn : lacks nl hn).
  { unfold hn. destruct (String.eqb name ""); [done|].
    by apply (lacks_app nl " " name). }
  assert (E' : (Itoa n +:+ hn) +:+ String nl (d +:+ pad) = p +:+ q).
  { rewrite <- E. unfold NL. by rewrite !app_assoc_s. }
  symmetry in E'.
  destruct (app_eq_app_s _ _ _ _ E') as [(r & Hp & _)|(r & Hr & -> & Hrest)].
  { unfold siser.ReadNextData. rewrite cut_none; [done|].
    apply (lacks_app_l _ _ r). rewrite <- Hp. by apply lacks_app. }
  destruct r as [|a r']; [done|]. rewrite app_cons in Hrest.
  injection Hrest as <- Hrest.
  unfold siser.ReadNextData. rewrite cut_app by by apply lacks_app.
  assert (Hhdr :
    (let '(dataSize, rest) :=
       match cut " " (Itoa n +:+ hn) with
       | Some (sz, rest) => (sz, rest)
       | None => (Itoa n +:+ hn, "")
       end in
     (match cut " " rest with
      | Some (ts, name0) =>
          match Atoi ts with
          | Some _ => Some name0
          | None => if String.eqb ts "" then Some name0 else None
          end
      | None => Some rest
      end, Atoi dataSize)) = (Some name, Some n)).
  { unfold hn. destruct (String.eqb name "") eqn:Hname.
    - apply String.eqb_eq in Hname as ->. rewrite app_empty_r.
      rewrite (cut_none " " (Itoa n)) by done. cbn [cut].
      by rewrite Atoi_Itoa.
    - change (Itoa n +:+ " " +:+ name) with (Itoa n +:+ String " " name).
      rewrite cut_app by done. rewrite (cut_none " " name) by done.
      by rewrite Atoi_Itoa. }
  destruct (match cut " " (Itoa n +:+ hn) with
            | Some (sz, rest) => (sz, rest)
            | None => (Itoa n +:+ hn, "")
            end) as [dataSize rest].
  injection Hhdr as -> ->.
  destruct (app_eq_app_s _ _ _ _ Hrest) as [(r2 & -> & Hpad)|(r2 & Hr2 & Hd & _)].
  - assert (Hlen : (String.length pad <= 1)%nat).
    { unfold pad. destruct (siser.needsNewline d); cbn; lia. }
    rewrite Hpad, length_app_s in Hlen.
    destruct r2 as [|b r2].
    + rewrite app_empty_r, app_empty_l in *.
      pose proof (splitAt_app d "") as Hs. rewrite app_empty_r in Hs.
      fold n in Hs. rewrite Hs.
      unfold pad in Hpad. destruct (siser.needsNewline d); [done|].
      by subst q.
    + destruct q; [done|]. simpl in Hlen. lia.
  - rewrite splitAt_short; [done|]. unfold n. rewrite Hd, length_app_s.
    destruct r2; [done|]. cbn [String.length]. lia.
Qed.

Section Codec.
Context `{Env}.

Lemma frames_app a b : frames (a ++ b) = frames a +:+ frames b.
Proof.
  induction a as [|rr a IH]; [by rewrite app_empty_l|].
  cbn [app frames]. by rewrite IH, app_assoc_s.
Qed.

Lemma deserialize_go_acc fuel input err acc :
  deserialize_go fuel input err acc =
  match deserialize_go fuel input err [] with
  | Some (Ok es) => Some (Ok (acc ++ es))
  | o => o
  end.
Proof.
  revert input err acc. induction fuel as [|fuel IH]; intros input err acc; [done|].
  cbn [deserialize_go].
  destruct (siser.ReadNextRecord input) as [[r rest]|].
  - destruct (negb _); [done|].
    destruct (recGetKey r "Method" err) as [? err1].
    destruct (recGetKey r "URL" err1) as [? err2].
    destruct (recGetKeyBytes r "Body" err2) as [? err3].
    destruct (recGetKeyBytes r "Response" err3) as [? err4].
    rewrite IH. rewrite (IH _ _ ([] ++ _)).
    destruct (deserialize_go fuel rest err4 []) as [[es| |]|]; [|done..].
    by rewrite app_assoc.
  - destruct err; [done|]. by rewrite app_nil_r.
Qed.

Lemma deserialize_go_mono fuel fuel' input err acc r :
  deserialize_go fuel input err acc = Some r -> (fuel <= fuel')%nat ->
  deserialize_go fuel' input err acc = Some r.
Proof.
  revert fuel' input err acc.
  induction fuel as [|fuel IH]; intros fuel' input err acc Hr Hle; [done|].
  destruct fuel' as [|fuel']; [lia|]. cbn [deserialize_go] in *.
  destruct (siser.ReadNextRecord input) as [[rec rest]|]; [|done].
  destruct (negb _); [done|].
  destruct (recGetKey rec "Method" err) as [? err1].
  destruct (recGetKey rec "URL" err1) as [? err2].
  destruct (recGetKeyBytes rec "Body" err2) as [? err3].
  destruct (recGetKeyBytes rec "Response" err3) as [? err4].
  apply IH; [done|lia].
Qed.

Lemma deserializeCacheEntry_eq fuel d r :
  deserialize_go fuel d None [] = Some r -> deserializeCacheEntry d = r.
Proof.
  intros Hr. unfold deserializeCacheEntry.
  destruct (deserializeCacheEntry_fuel d) as [r' Hr'].
  rewrite Hr'.
  destruct (Nat.le_ge_cases fuel (S (String.length d))) as [Hle|Hle].
  - rewrite (deserialize_go_mono _ _ _ _ _ _ Hr Hle) in Hr'. congruence.
  - rewrite (deserialize_go_mono _ _ _ _ _ _ Hr' Hle) in Hr. congruence.
Qed.

Lemma deserialize_go_prefix rs rest fuel acc :
  deserialize_go (length rs + fuel) (frames rs +:+ rest) None acc
  = deserialize_go fuel rest None (acc ++ map stored rs).
Proof.
  revert acc. induction rs as [|rr rs IH]; intros acc.
  - cbn [frames map length]. by rewrite app_empty_l, app_nil_r.
  - cbn [frames map length Nat.add deserialize_go].
    rewrite app_assoc_s, cacheRecord_read.
    change (negb (String.eqb (siser.Name (cacheRecord rr)) recCacheName)) with false.
    cbv iota.
    change (recGetKey (cacheRecord rr) "Method" None) with (Method rr, @None error).
    cbv iota beta.
    change (recGetKey (cacheRecord rr) "URL" None) with (URL rr, @None error).
    cbv iota beta.
    change (recGetKeyBytes (cacheRecord rr) "Body" None) with (Body rr, @None error).
    cbv iota beta.
    change (recGetKeyBytes (cacheRecord rr) "Response" None)
      with (PrettyPrintJS (Response rr), @None error).
    cbv iota beta. rewrite IH. by rewrite <- app_assoc.
Qed.

Lemma deserializeCacheEntry_prefix rs rest :
  deserializeCacheEntry (frames rs +:+ rest)
  = match deserializeCacheEntry rest with
    | Ok es => Ok (map stored rs ++ es)
    | Err e => Err e
    | Panic m => Panic m
    end.
Proof.
  destruct (deserializeCacheEntry_fuel rest) as [r Hr].
  rewrite (deserializeCacheEntry_eq _ _ _ Hr).
  apply (deserializeCacheEntry_eq (length rs + S (String.length rest))).
  rewrite deserialize_go_prefix, deserialize_go_acc, Hr.
  by destruct r.
Qed.

Lemma ReadNextRecord_truncated rr p q :
  siser.WriteRecord (cacheRecord rr) = p +:+ q -> q <> "" ->
  siser.ReadNextRecord p = None.
Proof.
  intros E Hq. unfold siser.ReadNextRecord.
  by rewrite (ReadNextData_truncated _ _ p q (eq_refl : lacks " " recCacheName)
                (eq_refl : lacks nl recCacheName) E Hq).
Qed.

Lemma deserializeCacheEntry_unread d :
  siser.ReadNextRecord d = None -> deserializeCacheEntry d = Ok [].
Proof.
  intros Hd. apply (deserializeCacheEntry_eq 1). cbn [deserialize_go].
  by rewrite Hd.
Qed.

Lemma deserialize_go_reads fuel d err acc es :
  deserialize_go fuel d err acc = Some (Ok es) ->
  err = None /\
  exists recs new, readsAs d recs /\ Forall2 cacheEntryOf recs new /\
                   es = acc ++ new.
Proof.
  revert d err acc. induction fuel as [|fuel IH]; intros d err acc; [done|].
  cbn [deserialize_go].
  destruct (siser.ReadNextRecord d) as [[r rest]|] eqn:Hread.
  - destruct (String.eqb (siser.Name r) recCacheName) eqn:Hname; [|done].
    apply String.eqb_eq in Hname. cbn [negb].
    unfold recGetKeyBytes, recGetKey.
    destruct err as [e|].
    { intros (? & _)%IH. done. }
    destruct (siser.Get r "Method") as [m|] eqn:Hm;
      [|intros (? & _)%IH; done].
    destruct (siser.Get r "URL") as [u|] eqn:Hu;
      [|intros (? & _)%IH; done].
    destruct (siser.Get r "Body") as [b|] eqn:Hb;
      [|intros (? & _)%IH; done].
    destruct (siser.Get r "Response") as [resp|] eqn:Hresp;
      [|intros (? & _)%IH; done].
    intros (_ & recs & new & Hrecs & Hnew & ->)%IH. split; [done|].
    exists (r :: recs), (mkCacheEntry m u b resp :: new).
    split; [by econstructor|]. split; [|by rewrite <- app_assoc].
    constructor; [|done]. by repeat split.
  - destruct err; [done|]. intros [= <-]. split; [done|].
    exists [], []. split; [by constructor|]. split; [constructor|].
    by rewrite app_nil_r.
Qed.

Lemma readsAs_deserialize d recs es :
  readsAs d recs -> Forall2 cacheEntryOf recs es ->
  forall acc, deserialize_go (S (length recs)) d None acc = Some (Ok (acc ++ es)).
Proof.
  intros Hreads. revert es.
  induction Hreads as [d Hd|d r rest rs Hd Hreads IH]; intros es Hes acc.
  - apply Forall2_nil_inv_l in Hes as ->. cbn [deserialize_go].
    by rewrite Hd, app_nil_r.
  - apply Forall2_cons_inv_l in Hes as (e & es' & (Hn & Hm & Hu & Hb & Hr) & Hes & ->).
    cbn [length]. change (deserialize_go (S (S (length rs))) d None acc)
      with (match siser.ReadNextRecord d with
            | None => Some (Ok acc)
            | Some (r, rest) =>
                if negb (String.eqb (siser.Name r) recCacheName) then
                  Some (Err ("unexpected record type '" +:+ siser.Name r
                             +:+ "', wanted '" +:+ recCacheName +:+ "'"))
                else
                  let '(method, err) := recGetKey r "Method" None in
                  let '(url, err) := recGetKey r "URL" err in
                  let '(body, err) := recGetKeyBytes r "Body" err in
                  let '(response, err) := recGetKeyBytes r "Response" err in
                  deserialize_go (S (length rs)) rest err
                    (acc ++ [mkCacheEntry method url body response])
            end).
    rewrite Hd, Hn, String.eqb_refl. cbn [negb].
    unfold recGetKeyBytes, recGetKey. rewrite Hm, Hu, Hb, Hr.
    rewrite (IH _ Hes). destruct e. by rewrite <- app_assoc.
Qed.

End Codec.

(** X1.  A cache file is decoded front to back: when the bytes start with
    the frames of the records [rs], the decoder returns the stored form of
    [rs] followed by whatever the rest of the bytes decodes to, and fails
    exactly when the rest fails, with the same error.  In particular two
    cache files laid end to end decode to the entries of the first followed
    by the entries of the second. *)
Theorem deserializeCacheEntry_frames_then `{Env}
    (rs : list RequestCacheEntry) (rest : string) :
  deserializeCacheEntry (frames rs +:+ rest)
  = match deserializeCacheEntry rest with
    | Ok es => Ok (map stored rs ++ es)
    | Err e => Err e
    | Panic m => Panic m
    end
  /\ forall rs',
       deserializeCacheEntry (frames rs +:+ frames rs')
       = Ok (map stored rs ++ map stored rs').
Proof.
  split; [apply deserializeCacheEntry_prefix|]. intros rs'.
  rewrite deserializeCacheEntry_prefix.
  pose proof (roundTrip_stored rs') as Hrt. unfold roundTrip in Hrt.
  rewrite serializeAll_ok in Hrt. by rewrite Hrt.
Qed.

(** X2.  A cache file whose last record was cut short, anywhere before its
    last byte, decodes without an error to the records before it: the
    incomplete record is dropped silently, because the decoder does not
    tell a framing error from the end of the file. *)
Theorem deserializeCacheEntry_truncated `{Env}
    (rs : list RequestCacheEntry) (rr : RequestCacheEntry) (p q : string) :
  siser.WriteRecord (cacheRecord rr) = p +:+ q -> q <> "" ->
  deserializeCacheEntry (frames rs +:+ p) = Ok (map stored rs).
Proof.
  intros E Hq. rewrite deserializeCacheEntry_prefix.
  rewrite deserializeCacheEntry_unread by by eapply ReadNextRecord_truncated.
  by rewrite app_nil_r.
Qed.

Lemma deserializeCacheEntry_truncated_witness :
  deserializeCacheEntry
    (frames (H := Model.offline) [Model.blankObject]
     +:+ "62 noahttpcache" +:+ NL +:+ "Method: PO")
  = Ok [stored (H := Model.offline) Model.blankObject].
Proof.
  apply (deserializeCacheEntry_truncated (H := Model.offline)
           [Model.blankObject] Model.blankObject
           ("62 noahttpcache" +:+ NL +:+ "Method: PO")
           (String.substring 26 200
              (siser.WriteRecord (cacheRecord (H := Model.offline) Model.blankObject)))).
  - by vm_compute.
  - by vm_compute.
Defined.

(** X3.  The decoder accepts a file exactly when every record the reader
    yields from it is of the cache type and carries the four keys Method,
    URL, Body and Response; the entries returned are those fields, one
    entry per record, in file order. *)
Theorem deserializeCacheEntry_accepts `{Env}
    (d : string) (es : list RequestCacheEntry) :
  deserializeCacheEntry d = Ok es <->
  exists recs, readsAs d recs /\ Forall2 cacheEntryOf recs es.
Proof.
  split.
  - unfold deserializeCacheEntry.
    destruct (deserializeCacheEntry_fuel d) as [r Hr]. rewrite Hr.
    intros ->. apply deserialize_go_reads in Hr as (_ & recs & new & ? & ? & ->).
    by exists recs.
  - intros (recs & Hreads & Hes).
    apply (deserializeCacheEntry_eq (S (length recs))).
    by rewrite (readsAs_deserialize _ _ _ Hreads Hes []).
Qed.

(** *** Lookups and live requests *)

Section Lookup.
Context `{Env}.

Lemma findEntry_none rs method uri body :
  findEntry rs method uri body = None <->
  Forall (fun x => ~ matches method uri body x) rs.
Proof.
  induction rs as [|r rs IH]; [by split; [constructor|]|].
  cbn [findEntry]. rewrite Forall_cons, <- IH. unfold matches.
  destruct (String.eqb_spec (Method r) method) as [Hm|Hm]; cbn [negb];
    [|by split; [intros ?; split; [intros (?&_)|]|intros (_&?)]].
  destruct (String.eqb_spec (URL r) uri) as [Hu|Hu]; cbn [negb];
    [|by split; [intros ?; split; [intros (_&?&_)|]|intros (_&?)]].
  destruct (String.eqb_spec (Body r) body) as [Hb|Hb]; cbn [negb];
    [|by split; [intros ?; split; [intros (_&_&?)|]|intros (_&?)]].
  split; [by intros [=]|]. intros (Hno & _). by destruct Hno.
Qed.

Lemma findEntry_some rs method uri body resp :
  findEntry rs method uri body = Some resp <->
  exists pre r post,
    rs = pre ++ r :: post /\ matches method uri body r /\ Response r = resp /\
    Forall (fun x => ~ matches method uri body x) pre.
Proof.
  split.
  - induction rs as [|r rs IH]; [done|]. cbn [findEntry]. unfold matches in *.
    destruct (String.eqb_spec (Method r) method) as [Hm|Hm]; cbn [negb].
    2:{ intros (pre & r' & post & -> & ? & ? & ?)%IH.
        exists (r :: pre), r', post. do 3 (split; [done|]).
        constructor; [|done]. by intros (?&_). }
    destruct (String.eqb_spec (URL r) uri) as [Hu|Hu]; cbn [negb].
    2:{ intros (pre & r' & post & -> & ? & ? & ?)%IH.
        exists (r :: pre), r', post. do 3 (split; [done|]).
        constructor; [|done]. by intros (_&?&_). }
    destruct (String.eqb_spec (Body r) body) as [Hb|Hb]; cbn [negb].
    2:{ intros (pre & r' & post & -> & ? & ? & ?)%IH.
        exists (r :: pre), r', post. do 3 (split; [done|]).
        constructor; [|done]. by intros (_&_&?). }
    intros [= <-]. exists [], r, rs. do 3 (split; [done|]). constructor.
  - intros (pre & r & post & -> & (Hm & Hu & Hb) & <- & Hpre).
    induction Hpre as [|x pre Hx Hpre IH].
    + cbn [app findEntry]. by rewrite Hm, Hu, Hb, !String.eqb_refl.
    + cbn [app findEntry]. rewrite IH. unfold matches in Hx.
      destruct (String.eqb_spec (Method x) method); cbn [negb]; [|done].
      destruct (String.eqb_spec (URL x) uri); cbn [negb]; [|done].
      destruct (String.eqb_spec (Body x) body); cbn [negb]; [|done].
      by destruct Hx.
Qed.

Lemma findEntry_stored rs method uri body :
  findEntry (map stored rs) method uri body
  = PrettyPrintJS <$> findEntry rs method uri body.
Proof.
  induction rs as [|r rs IH]; [done|]. cbn [map findEntry stored Method URL Body Response].
  rewrite IH.
  destruct (negb (String.eqb (Method r) method)); [done|].
  destruct (negb (String.eqb (URL r) uri)); [done|].
  by destruct (negb (String.eqb (Body r) body)).
Qed.

Lemma writeCacheForCurrPage_index c idx fs :
  writeCacheForCurrPage (set_pageIDToEntries c idx) fs
  = let '(r, c', fs') := writeCacheForCurrPage c fs in
    (r, set_pageIDToEntries c' idx, fs').
Proof.
  unfold writeCacheForCurrPage. cbn [currPageRequests set_pageIDToEntries].
  destruct (decide _); [done|]. rewrite serializeAll_ok.
  cbn [currPageID CacheDir set_pageIDToEntries].
  destruct (currPageID c); [|done].
  cbv zeta. by destruct (WriteFile _ _ fs) as [[e|] fs'].
Qed.

Lemma writeCacheForCurrPage_counters c fs :
  RequestsFromCache (writeCacheForCurrPage c fs).1.2 = RequestsFromCache c /\
  RequestsNotFromCache (writeCacheForCurrPage c fs).1.2 = RequestsNotFromCache c.
Proof.
  unfold writeCacheForCurrPage.
  destruct (decide _); [done|]. rewrite serializeAll_ok.
  destruct (currPageID c); [|done].
  by destruct (WriteFile _ _ fs) as [[e|] fs'].
Qed.

Lemma doPostMaybeCached_no_read c idx uri body n :
  NoReadCache c = true ->
  exists r c' n',
    doPostMaybeCached c uri body n = (r, c', n') /\
    doPostMaybeCached (set_pageIDToEntries c idx) uri body n
    = (r, set_pageIDToEntries c' idx, n') /\
    NoReadCache c' = true /\ RequestsFromCache c' = RequestsFromCache c.
Proof.
  intros Hread. unfold doPostMaybeCached, tryReadFromCache.
  cbn [NoReadCache set_pageIDToEntries]. rewrite Hread.
  destruct (doPostInternal uri body n) as [[d|e|m] n1].
  - eexists _, _, _. split; [reflexivity|]. unfold cacheRequest.
    cbn [currPageID set_RequestsNotFromCache set_pageIDToEntries].
    destruct (currPageID c); by repeat split.
  - eexists _, _, _. by repeat split.
  - eexists _, _, _. by repeat split.
Qed.

Lemma runDownload_no_read d c idx n :
  NoReadCache c = true ->
  exists r rs c' n',
    runDownload d c n = (r, rs, c', n') /\
    runDownload d (set_pageIDToEntries c idx) n
    = (r, rs, set_pageIDToEntries c' idx, n') /\
    RequestsFromCache c' = RequestsFromCache c.
Proof.
  revert c n. induction d as [r0|uri body k IH]; intros c n Hread.
  - eexists _, _, _, _. by repeat split.
  - cbn [runDownload].
    destruct (doPostMaybeCached_no_read c idx uri body n Hread)
      as (r1 & c1 & n1 & -> & -> & Hread1 & Hcnt1).
    destruct r1 as [d1|e1|m1].
    + destruct (IH (Ok d1) c1 n1 Hread1) as (r & rs & c' & n' & -> & -> & Hcnt).
      eexists _, _, _, _. repeat split. congruence.
    + destruct (IH (Err e1) c1 n1 Hread1) as (r & rs & c' & n' & -> & -> & Hcnt).
      eexists _, _, _, _. repeat split. congruence.
    + eexists _, _, _, _. by repeat split.
Qed.



End Lookup.

(** X4.  Inside a page scope, with the read cache on, a lookup answers
    with the response of the first entry of that page, in index order,
    whose method, url and body all equal the request's; entries before it
    that differ in any of the three are passed over, and the lookup misses
    exactly when no entry of the page matches.  Entries of other pages are
    never consulted. *)
Theorem tryReadFromCache_first_match
    (c : CachingClient) (method uri body : string) (nid : NotionID) :
  NoReadCache c = false -> currPageID c = Some nid ->
  let entries := default [] (pageIDToEntries c !! NoDashID nid) in
  (forall resp,
     tryReadFromCache c method uri body = Ok (Some resp) <->
     exists pre r post,
       entries = pre ++ r :: post /\ matches method uri body r /\
       Response r = resp /\
       Forall (fun x => ~ matches method uri body x) pre) /\
  (tryReadFromCache c method uri body = Ok None <->
   Forall (fun x => ~ matches method uri body x) entries).
Proof.
  intros Hread Hid entries. unfold tryReadFromCache. rewrite Hread, Hid.
  fold entries. split.
  - intros resp. rewrite <- findEntry_some. split; [by intros [= ->]|by intros ->].
  - rewrite <- findEntry_none. split; [by intros [= ->]|by intros ->].
Qed.

Lemma tryReadFromCache_first_match_witness :
  tryReadFromCache
    (set_currPageID
       (set_pageIDToEntries Model.newClient
          {[ Model.idA := [mkCacheEntry "POST" "/a" "1" "x";
                           mkCacheEntry "POST" "/b" "1" "first";
                           mkCacheEntry "POST" "/b" "1" "second"] ]})
       Model.scopeA)
    "POST" "/b" "1"
  = Ok (Some "first").
Proof.
  apply (tryReadFromCache_first_match
           (set_currPageID
              (set_pageIDToEntries Model.newClient
                 {[ Model.idA := [mkCacheEntry "POST" "/a" "1" "x";
                                  mkCacheEntry "POST" "/b" "1" "first";
                                  mkCacheEntry "POST" "/b" "1" "second"] ]})
              Model.scopeA)
           "POST" "/b" "1" (mkNotionID Model.dashA Model.idA)
           eq_refl ltac:(by vm_compute)).
  exists [mkCacheEntry "POST" "/a" "1" "x"], (mkCacheEntry "POST" "/b" "1" "first"),
         [mkCacheEntry "POST" "/b" "1" "second"].
  split; [by vm_compute|]. split; [done|]. split; [done|].
  constructor; [|constructor]. by intros (_ & [=] & _).
Defined.

(** X5.  With [NoReadCache] set, a page download never reads the index:
    run on the same client with any other index, it returns the same page
    or error, hands the script the same answers, contacts the network the
    same way and leaves the same files, and the count of requests served
    from the cache does not move. *)
Theorem DownloadPage_no_read_cache `{Env}
    (c : CachingClient) (idx : gmap string (list RequestCacheEntry))
    (pageID : string) (fs : FS) (n : Net) :
  NoReadCache c = true ->
  let d := DownloadPage c pageID fs n in
  let d' := DownloadPage (set_pageIDToEntries c idx) pageID fs n in
  d_result d' = d_result d /\ d_responses d' = d_responses d /\
  d_fs d' = d_fs d /\ d_net d' = d_net d /\
  d_client d' = set_pageIDToEntries (d_client d) idx /\
  RequestsFromCache (d_client d) = RequestsFromCache c.
Proof.
  intros Hread d d'. subst d d'.
  destruct (NewNotionID pageID) as [nid|] eqn:Hid.
  - destruct (DownloadPage_valid c pageID fs n nid Hid)
      as (r & rs & c1 & n1 & flushed & c2 & fs2 & Hrun & _ & Hflush & _ & ->).
    destruct (DownloadPage_valid (set_pageIDToEntries c idx) pageID fs n nid Hid)
      as (r' & rs' & c1' & n1' & flushed' & c2' & fs2' & Hrun' & _ & Hflush' & _ & ->).
    destruct (runDownload_no_read (clientDownloadPage pageID) (enterScope c nid)
                idx n Hread) as (r0 & rs0 & c0 & n0 & Hr0 & Hr0' & Hcnt).
    rewrite Hrun in Hr0. injection Hr0 as <- <- <- <-.
    change (enterScope (set_pageIDToEntries c idx) nid)
      with (set_pageIDToEntries (enterScope c nid) idx) in Hrun'.
    rewrite Hr0' in Hrun'. injection Hrun' as <- <- <- <-.
    rewrite writeCacheForCurrPage_index, Hflush in Hflush'.
    injection Hflush' as <- <- <-.
    pose proof (writeCacheForCurrPage_counters c1 fs) as [Hfc _].
    rewrite Hflush in Hfc. cbn in *. repeat split. congruence.
  - rewrite !DownloadPage_invalid by done. by repeat split.
Qed.

Lemma DownloadPage_no_read_cache_witness :
  let c := mkCachingClient "cache" (mkClient None) false true ∅ None [] None
             false 0 0 0 in
  let d := DownloadPage (H := Model.online) c Model.idA Model.noFS 0%nat in
  let d' := DownloadPage (H := Model.online)
              (set_pageIDToEntries c (pageIDToEntries Model.warmClient))
              Model.idA Model.noFS 0%nat in
  d_responses d' = d_responses d /\ d_net d' = d_net d /\ d_net d = 1%nat /\
  RequestsFromCache (d_client d) = 0.
Proof.
  intros c d d'.
  destruct (DownloadPage_no_read_cache (H := Model.online) c
              (pageIDToEntries Model.warmClient) Model.idA Model.noFS 0%nat
              eq_refl) as (_ & Hrs & _ & Hnet & _ & Hcnt).
  split; [exact Hrs|]. split; [exact Hnet|]. split; [by vm_compute|exact Hcnt].
Defined.



(** *** Loading the index *)

Lemma HasSuffix_app s t : HasSuffix (s +:+ t) t = true.
Proof.
  unfold HasSuffix. rewrite length_app_s.
  replace (String.length s + String.length t - String.length t)%nat
    with (String.length s) by lia.
  by rewrite splitAt_app, String.eqb_refl.
Qed.

Lemma HasPrefix_head a t b p :
  Ascii.eqb a b = false -> HasPrefix (String a t) (String b p) = false.
Proof.
  intros Hab. unfold HasPrefix. cbn [String.length splitAt].
  destruct (splitAt (String.length p) t) as [[h r]|]; [|done].
  cbn [String.eqb]. by rewrite Hab.
Qed.

Lemma removeAll_go_txt s fuel :
  lacks "." s -> (String.length s < fuel)%nat ->
  removeAll_go fuel ".txt" (s +:+ ".txt") = s.
Proof.
  revert fuel. induction s as [|a s IH]; intros fuel Hs Hfuel.
  - destruct fuel as [|fuel]; [simpl in Hfuel; lia|].
    rewrite app_empty_l. cbn [removeAll_go].
    change (HasPrefix ".txt" ".txt") with true. cbv iota.
    change (splitAt (String.length ".txt") ".txt") with (Some (".txt", "")).
    cbv iota. by destruct fuel.
  - destruct fuel as [|fuel]; [simpl in Hfuel; lia|].
    unfold lacks in Hs. cbn [allBytes] in Hs.
    apply andb_prop in Hs as [Ha Hs].
    rewrite app_cons. cbn [removeAll_go].
    apply negb_true_iff in Ha.
    rewrite (HasPrefix_head a (s +:+ ".txt") "." "txt" Ha). f_equal. apply IH; [done|]. simpl in Hfuel. lia.
Qed.

Lemma removeAll_txt s : lacks "." s -> removeAll ".txt" (s +:+ ".txt") = s.
Proof.
  intros Hs. unfold removeAll. apply removeAll_go_txt; [done|].
  rewrite length_app_s. simpl. lia.
Qed.

Section Reload.
Context `{Env}.

Lemma cacheKey_indexable fi id :
  cacheKey fi = Some id <->
  indexable fi = true /\
  exists nid, NewNotionID (removeAll ".txt" (fiName fi)) = Some nid /\
              NoDashID nid = id.
Proof.
  unfold cacheKey. destruct (indexable fi); [|by split; [|intros [? _]]].
  destruct (NewNotionID _) as [nid|]; cbn.
  - split; [intros [= <-]; split; [done|by exists nid]|].
    by intros (_ & nid' & [= <-] & <-).
  - split; [done|]. by intros (_ & ? & ? & _).
Qed.

Lemma cacheKey_file_name s nid :
  lacks "." s -> NewNotionID s = Some nid ->
  cacheKey (mkFileInfo (s +:+ ".txt") true) = Some (NoDashID nid).
Proof.
  intros Hs Hid. apply cacheKey_indexable. unfold indexable.
  cbn [fiRegular fiName]. rewrite HasSuffix_app, removeAll_txt, Hid by done.
  split; [|by exists nid]. cbn [andb]. by apply bool_decide_eq_true.
Qed.

Lemma readEntries_cons dir fi entries fs idx :
  readEntries dir (fi :: entries) fs idx =
  match cacheKey fi with
  | None => readEntries dir entries fs idx
  | Some id =>
      match ReadFile (Join dir (fiName fi)) fs with
      | inl e => (Err e, idx)
      | inr d =>
          match deserializeCacheEntry d with
          | Err e => (Err e, idx)
          | Panic m => (Panic m, idx)
          | Ok es => readEntries dir entries fs (<[id := es]> idx)
          end
      end
  end.
Proof.
  unfold cacheKey. destruct (indexable fi) eqn:Hfi.
  - destruct (readEntries_indexable dir fi entries fs idx Hfi) as (nid & Hid & ->).
    by rewrite Hid.
  - by apply readEntries_skip.
Qed.

Lemma readEntries_app dir pre rest fs idx :
  readEntries dir (pre ++ rest) fs idx =
  match readEntries dir pre fs idx with
  | (Ok _, idx1) => readEntries dir rest fs idx1
  | other => other
  end.
Proof.
  revert idx. induction pre as [|fi pre IH]; intros idx; [done|].
  rewrite <- app_comm_cons, !readEntries_cons.
  destruct (cacheKey fi); [|apply IH].
  destruct (ReadFile _ fs); [done|].
  destruct (deserializeCacheEntry _); [apply IH|done..].
Qed.

Lemma readEntries_keep dir entries fs idx idx' id :
  readEntries dir entries fs idx = (Ok tt, idx') ->
  Forall (fun fj => cacheKey fj <> Some id) entries ->
  idx' !! id = idx !! id.
Proof.
  revert idx. induction entries as [|fi entries IH]; intros idx.
  - by intros [= <-].
  - rewrite readEntries_cons, Forall_cons. intros Hread [Hfi Hrest].
    destruct (cacheKey fi) as [k|]; [|by apply IH].
    destruct (ReadFile _ fs); [done|].
    destruct (deserializeCacheEntry _) as [es| |]; [|done..].
    rewrite (IH _ Hread Hrest). apply lookup_insert_ne. congruence.
Qed.

Lemma readEntries_last dir pre fi post fs idx idx' id :
  readEntries dir (pre ++ fi :: post) fs idx = (Ok tt, idx') ->
  cacheKey fi = Some id ->
  Forall (fun fj => cacheKey fj <> Some id) post ->
  exists d es,
    ReadFile (Join dir (fiName fi)) fs = inr d /\
    deserializeCacheEntry d = Ok es /\ idx' !! id = Some es.
Proof.
  rewrite readEntries_app. intros Hread Hkey Hpost.
  destruct (readEntries dir pre fs idx) as [[[]| |] idx1]; [|done..].
  rewrite readEntries_cons, Hkey in Hread.
  destruct (ReadFile _ fs) as [|d] eqn:Hd; [done|].
  destruct (deserializeCacheEntry d) as [es| |] eqn:Hes; [|done..].
  exists d, es. split; [done|]. split; [done|].
  rewrite (readEntries_keep _ _ _ _ _ _ Hread Hpost). apply lookup_insert_eq.
Qed.

Lemma readEntries_dom dir entries fs idx idx' id :
  readEntries dir entries fs idx = (Ok tt, idx') ->
  is_Some (idx' !! id) <->
  is_Some (idx !! id) \/ exists fi, fi ∈ entries /\ cacheKey fi = Some id.
Proof.
  revert idx. induction entries as [|fi entries IH]; intros idx.
  - intros [= <-]. split; [by left|]. intros [?|(? & []%elem_of_nil & _)]. done.
  - rewrite readEntries_cons. intros Hread.
    destruct (cacheKey fi) as [k|] eqn:Hkey.
    + destruct (ReadFile _ fs); [done|].
      destruct (deserializeCacheEntry _) as [es| |]; [|done..].
      rewrite (IH _ Hread). destruct (decide (k = id)) as [->|Hne].
      * split; [|rewrite lookup_insert_eq; by left].
        intros _. right. exists fi. split; [left|done].
      * rewrite lookup_insert_ne by done. split.
        -- intros [?|(fj & ? & ?)]; [by left|right]. exists fj. split; [by right|done].
        -- intros [?|(fj & [->|?]%elem_of_cons & ?)]; [by left|congruence|].
           right. by exists fj.
    + rewrite (IH _ Hread). split.
      * intros [?|(fj & ? & ?)]; [by left|right]. exists fj. split; [by right|done].
      * intros [?|(fj & [->|?]%elem_of_cons & ?)]; [by left|congruence|].
        right. by exists fj.
Qed.

Lemma GetPageIDs_elem c id :
  id ∈ GetPageIDs c <-> is_Some (pageIDToEntries c !! id).
Proof.
  unfold GetPageIDs. rewrite list_elem_of_fmap. split.
  - intros ([k v] & -> & Hkv%elem_of_map_to_list). by exists v.
  - intros [v Hv]. exists (id, v). split; [done|]. by apply elem_of_map_to_list.
Qed.

Lemma readRequestsCacheFile_ok c dir fs c' :
  readRequestsCacheFile c dir fs = (Ok tt, c') ->
  exists entries,
    MkdirAll dir fs = None /\ ReadDir dir fs = inr entries /\
    readEntries dir entries fs ∅ = (Ok tt, pageIDToEntries c') /\
    c' = set_pageIDToEntries c (pageIDToEntries c').
Proof.
  unfold readRequestsCacheFile.
  destruct (MkdirAll dir fs); [done|].
  destruct (ReadDir dir fs) as [|entries]; [done|].
  destruct (readEntries dir entries fs ∅) as [r idx] eqn:Hread.
  intros [= -> <-]. exists entries. by repeat split.
Qed.

Lemma NewCachingClient_ok cacheDir client fs c :
  NewCachingClient cacheDir client fs = Ok c ->
  cacheDir <> "" /\
  exists cl idx,
    client = Some cl /\
    readRequestsCacheFile
      (mkCachingClient cacheDir cl false false ∅ None [] None false 0 0 0)
      cacheDir fs
    = (Ok tt, c) /\
    c = mkCachingClient cacheDir cl false false idx None [] None false 0 0 0.
Proof.
  unfold NewCachingClient. destruct (String.eqb_spec cacheDir ""); [done|].
  destruct client as [cl|]; [|done].
  destruct (readRequestsCacheFile _ cacheDir fs) as [[[]| |] c0] eqn:Hload; [|done..].
  intros [= ->]. split; [done|]. exists cl, (pageIDToEntries c).
  split; [done|]. split; [done|].
  by apply readRequestsCacheFile_ok in Hload as (_ & _ & _ & _ & ->).
Qed.

End Reload.

(** X7.  After a successful load, the index holds one entry per identity
    that some listed file maps to (a regular file whose name ends in
    [.txt] and parses as an identity once every [.txt] is removed), and
    nothing else: what the client's index held before the call is
    discarded.  When several files map to one identity, the entry is the
    content of the last of them in listing order.  [GetPageIDs] then
    lists exactly those identities, each once. *)
Theorem readRequestsCacheFile_index `{Env}
    (c : CachingClient) (dir : string) (fs : FS) (entries : list FileInfo)
    (c' : CachingClient) :
  ReadDir dir fs = inr entries ->
  readRequestsCacheFile c dir fs = (Ok tt, c') ->
  (forall id, id ∈ GetPageIDs c' <->
              exists fi, fi ∈ entries /\ cacheKey fi = Some id) /\
  NoDup (GetPageIDs c') /\
  (forall id pre fi post,
     entries = pre ++ fi :: post -> cacheKey fi = Some id ->
     Forall (fun fj => cacheKey fj <> Some id) post ->
     exists d es,
       ReadFile (Join dir (fiName fi)) fs = inr d /\
       deserializeCacheEntry d = Ok es /\
       pageIDToEntries c' !! id = Some es).
Proof.
  intros Hdir (entries' & _ & Hdir' & Hread & _)%readRequestsCacheFile_ok.
  assert (entries' = entries) as -> by congruence.
  split; [|split].
  - intros id. rewrite GetPageIDs_elem, (readEntries_dom _ _ _ _ _ id Hread).
    rewrite lookup_empty. split; [|by right].
    intros [[? [=]]|?]. done.
  - apply NoDup_fst_map_to_list.
  - intros id pre fi post -> Hkey Hpost. by eapply readEntries_last.
Qed.

Lemma readRequestsCacheFile_index_witness :
  let c' := (readRequestsCacheFile (H := Model.offline) Model.knowsA "cache"
               Model.goodCache).2 in
  GetPageIDs c' = [Model.idA] /\
  exists d es,
    ReadFile Model.pathA Model.goodCache = inr d /\
    deserializeCacheEntry d = Ok es /\
    pageIDToEntries c' !! Model.idA = Some es.
Proof.
  intros c'. split; [by vm_compute|].
  destruct (readRequestsCacheFile_index (H := Model.offline) Model.knowsA "cache"
              Model.goodCache
              [mkFileInfo "notes.md" true; mkFileInfo "old" false;
               mkFileInfo (Model.idA +:+ ".txt") true] c' eq_refl
              ltac:(by vm_compute)) as (_ & _ & Hlast).
  apply (Hlast Model.idA [mkFileInfo "notes.md" true; mkFileInfo "old" false]
           (mkFileInfo (Model.idA +:+ ".txt") true) [] eq_refl
           ltac:(by vm_compute) (Forall_nil_2 _)).
Defined.

(** X8.  What one session flushes, the next one finds.  When a flush of
    pending requests succeeds and the cache directory lists the page's
    file (and no later file of the same identity), a client that
    [NewCachingClient] then builds over that directory has, under the
    page's identity, the flushed requests in order with their responses
    pretty-printed; inside that page's scope a lookup answers every
    request with the pretty-printed response of the first flushed request
    of the same method, url and body. *)
Theorem flush_then_new_session `{Env}
    (c : CachingClient) (fs : FS) (nid nid' : NotionID) (cl : Client)
    (pre post : list FileInfo) :
  currPageRequests c <> [] -> currPageID c = Some nid ->
  lacks "." (NoDashID nid) -> NewNotionID (NoDashID nid) = Some nid' ->
  let name := NoDashID nid +:+ ".txt" in
  let path := Join (CacheDir c) name in
  writeFault fs path = None -> readFault fs path = None ->
  dirEntries fs (CacheDir c) = inr (pre ++ mkFileInfo name true :: post) ->
  Forall (fun fj => cacheKey fj <> Some (NoDashID nid')) post ->
  exists c1 fs1,
    writeCacheForCurrPage c fs = (Ok tt, c1, fs1) /\
    forall c2, NewCachingClient (CacheDir c) (Some cl) fs1 = Ok c2 ->
      pageIDToEntries c2 !! NoDashID nid'
      = Some (map stored (currPageRequests c)) /\
      forall scope method uri body,
        NoDashID scope = NoDashID nid' ->
        tryReadFromCache (set_currPageID c2 (Some scope)) method uri body
        = Ok (PrettyPrintJS <$> findEntry (currPageRequests c) method uri body).
Proof.
  intros Hpending Hid Hdot Hnid name path Hwrite Hreadable Hlist Hpost.
  rewrite (writeCacheForCurrPage_pending c fs nid) by done.
  cbv zeta. fold name path. unfold WriteFile. rewrite Hwrite.
  eexists _, _. split; [reflexivity|].
  intros c2 (_ & cl' & idx & _ & Hload & Hc2)%NewCachingClient_ok.
  apply readRequestsCacheFile_ok in Hload as (entries & _ & Hdir & Hread & _).
  unfold ReadDir in Hdir. cbn [dirEntries set_files] in Hdir.
  assert (entries = pre ++ mkFileInfo name true :: post) as -> by congruence.
  destruct (readEntries_last _ _ _ _ _ _ _ (NoDashID nid') Hread)
    as (d & es & Hd & Hes & Hidx);
    [by apply cacheKey_file_name|done|].
  cbn [fiName] in Hd. fold path in Hd. unfold ReadFile in Hd.
  cbn [readFault files set_files] in Hd.
  rewrite Hreadable, lookup_insert_eq in Hd. injection Hd as <-.
  pose proof (roundTrip_stored (currPageRequests c)) as Hrt.
  unfold roundTrip in Hrt. rewrite serializeAll_ok in Hrt.
  assert (es = map stored (currPageRequests c)) as -> by congruence.
  split; [exact Hidx|].
  intros scope method uri body Hscope. unfold tryReadFromCache.
  rewrite Hc2 in Hidx |- *. cbn [NoReadCache set_currPageID currPageID pageIDToEntries] in *.
  rewrite Hscope, Hidx. cbn [default id]. by rewrite findEntry_stored.
Qed.

Lemma flush_then_new_session_witness :
  exists c1 fs1,
    writeCacheForCurrPage (H := Model.offline) Model.pendingClient Model.badCache
    = (Ok tt, c1, fs1) /\
    forall c2,
      NewCachingClient (H := Model.offline) "cache" (Some (mkClient None)) fs1
      = Ok c2 ->
      pageIDToEntries c2 !! Model.idA
      = Some [stored (H := Model.offline) Model.blankObject].
Proof.
  destruct (flush_then_new_session (H := Model.offline) Model.pendingClient
              Model.badCache (mkNotionID Model.dashA Model.idA)
              (mkNotionID Model.dashA Model.idA) (mkClient None) [] []
              ltac:(done) ltac:(by vm_compute) ltac:(by vm_compute)
              ltac:(by vm_compute) eq_refl eq_refl eq_refl (Forall_nil_2 _))
    as (c1 & fs1 & Hflush & Hnext).
  exists c1, fs1. split; [exact Hflush|].
  intros c2 Hc2. exact (proj1 (Hnext c2 Hc2)).
Defined.

(** *** Recording versions *)

Section Recording.
Context `{Env}.

Lemma storeVersions_nil ids versions :
  ids <> [] -> length ids = length versions ->
  storeVersions ids versions None = Panic nilMapWrite.
Proof. by destruct ids, versions. Qed.

Lemma storeVersions_ok ids versions m :
  length ids = length versions ->
  exists m',
    storeVersions ids versions (Some m) = Ok (Some m') /\
    (forall k, (forall id, id ∈ ids -> ToNoDashID id <> k) -> m' !! k = m !! k) /\
    (forall i id v,
       ids !! i = Some id -> versions !! i = Some v ->
       (forall j id', (i < j)%nat -> ids !! j = Some id' ->
                      ToNoDashID id' <> ToNoDashID id) ->
       m' !! ToNoDashID id = Some v).
Proof.
  revert versions m. induction ids as [|id0 ids IH]; intros versions m Hlen.
  - exists m. split; [done|]. split; [done|]. by intros [].
  - destruct versions as [|v0 versions]; [done|]. cbn [storeVersions].
    destruct (IH versions (<[ToNoDashID id0 := v0]> m)) as (m' & -> & Hout & Hin).
    { simpl in Hlen. lia. }
    exists m'. split; [done|]. split.
    + intros k Hk. rewrite Hout.
      * apply lookup_insert_ne. apply Hk. left.
      * intros id Hid. apply Hk. by right.
    + intros [|i] id v Hid Hv Hlater.
      * injection Hid as ->. injection Hv as ->. rewrite Hout.
        -- apply lookup_insert_eq.
        -- intros id' [j Hj]%list_elem_of_lookup_1.
           apply (Hlater (S j)); [lia|done].
      * apply (Hin i); [done..|]. intros j id' Hij Hj.
        apply (Hlater (S j)); [lia|done].
Qed.

Lemma merge_sort_perm (ids ids' : list string) :
  ids ≡ₚ ids' -> merge_sort String.le ids = merge_sort String.le ids'.
Proof.
  intros Hperm. apply (Sorted_unique String.le).
  - apply Sorted_merge_sort, _.
  - apply Sorted_merge_sort, _.
  - by rewrite !merge_sort_Permutation.
Qed.

Lemma merge_sort_length (ids : list string) :
  length (merge_sort String.le ids) = length ids.
Proof. apply Permutation_length, merge_sort_Permutation. Qed.

Lemma updateVersionsForPages_aligned d ids n results n' :
  ids <> [] ->
  let sorted := normalizeIDS (merge_sort String.le ids) in
  GetBlockRecords sorted n = (Ok results, n') ->
  length results = length ids ->
  (forall j b, results !! j = Some (Some b) ->
     exists idi, sorted !! j = Some idi /\ isIDEqual idi (BlockID b) = true) ->
  updateVersionsForPages d ids n =
  match storeVersions sorted (map versionOf results) (IdToPageLatestVersion d) with
  | Ok m => (Ok tt, set_IdToPageLatestVersion d m, n')
  | Err e => (Err e, d, n')
  | Panic msg => (Panic msg, d, n')
  end.
Proof.
  intros Hne sorted Hget Hlen Haligned. unfold updateVersionsForPages.
  destruct (decide _) as [Hzero|_].
  { by apply length_zero_iff_nil in Hzero. }
  unfold getVersionsForPages. fold sorted. rewrite Hget.
  assert (Hsorted : length sorted = length ids).
  { unfold sorted. by rewrite normalizeIDS_length, merge_sort_length. }
  rewrite Hsorted, Hlen, Nat.eqb_refl. cbn [negb].
  rewrite collectVersions_aligned by done. cbn [app].
  by rewrite length_map, Hsorted, Hlen, Nat.eqb_refl.
Qed.

Lemma updateVersionsForPages_err d ids n e d' n' :
  updateVersionsForPages d ids n = (Err e, d', n') -> d' = d.
Proof.
  unfold updateVersionsForPages. destruct (decide _); [done|].
  destruct (getVersionsForPages _ n) as [[[versions| |] ids1] n1];
    [|by intros [= _ <- _]..].
  destruct (negb _); [by intros [= _ <- _]|].
  by destruct (storeVersions _ _ _); intros [= _ <- _].
Qed.

End Recording.

(** X9.  A client as [NewCachingClient] returns it has no version map (the
    map is nil).  Switched to freshness mode, its first freshness check of
    a page panics on the write to the nil map as soon as the version
    service answers the query: the version is never recorded and no
    decision is returned. *)
Theorem NewCachingClient_version_map_nil `{Env}
    (cacheDir : string) (cl : Client) (fs : FS) (c : CachingClient)
    (p : Page) (n n' : Net) (r : option Block) :
  NewCachingClient cacheDir (Some cl) fs = Ok c ->
  let pageID := ToNoDashID (ID p) in
  GetBlockRecords (normalizeIDS [pageID]) n = (Ok [r], n') ->
  (forall b, r = Some b -> isIDEqual (normalizeID pageID) (BlockID b) = true) ->
  IdToPageLatestVersion c = None /\
  canReturnCachedPage (set_RedownloadNewerVersions c true) (Some p) n
  = (Panic nilMapWrite, set_RedownloadNewerVersions c true, n').
Proof.
  intros (_ & cl' & idx & _ & _ & ->)%NewCachingClient_ok pageID Hget Hr.
  split; [done|].
  rewrite canReturnCachedPage_unknown by done. fold pageID.
  rewrite (updateVersionsForPages_aligned _ [pageID] n [r] n'); [done|done|done|done|].
  intros [|j] b Hj; [|done]. injection Hj as ->.
  exists (normalizeID pageID). split; [done|]. by apply Hr.
Qed.

Lemma NewCachingClient_version_map_nil_witness :
  exists c,
    NewCachingClient (H := Model.allAbsent) "cache" (Some (mkClient None))
      Model.noFS = Ok c /\
    canReturnCachedPage (H := Model.allAbsent)
      (set_RedownloadNewerVersions c true) (Some Model.oldPageA) 0%nat
    = (Panic nilMapWrite, set_RedownloadNewerVersions c true, 1%nat).
Proof.
  eexists. split; [by vm_compute|].
  apply (NewCachingClient_version_map_nil (H := Model.allAbsent) "cache"
           (mkClient None) Model.noFS _ Model.oldPageA 0%nat 1%nat None).
  - by vm_compute.
  - reflexivity.
  - by intros b [=].
Defined.

(** X10.  The outcome of a version update does not depend on the order in
    which the ids are handed over: two batches that are permutations of
    each other produce the same query, the same result and the same
    client.  The unspecified order in which [GetPageIDs] walks the index
    therefore never shows. *)
Theorem updateVersionsForPages_order `{Env}
    (d : CachingClient) (ids ids' : list string) (n : Net) :
  ids ≡ₚ ids' ->
  updateVersionsForPages d ids n = updateVersionsForPages d ids' n.
Proof.
  intros Hperm. unfold updateVersionsForPages.
  rewrite (merge_sort_perm _ _ Hperm).
  pose proof (Permutation_length Hperm) as Hlen.
  destruct (decide (length ids = 0%nat)), (decide (length ids' = 0%nat));
    [done|lia|lia|done].
Qed.

Lemma updateVersionsForPages_order_witness :
  updateVersionsForPages (H := Model.allAtSeven) Model.freshClient
    [Model.idB; Model.idA] 0%nat
  = updateVersionsForPages (H := Model.allAtSeven) Model.freshClient
      [Model.idA; Model.idB] 0%nat.
Proof.
  apply (updateVersionsForPages_order (H := Model.allAtSeven)).
  apply Permutation_swap.
Defined.

(** X11.  A successful version update of a non-empty batch changes only
    the version map, and there only the keys of the batch: every other
    key keeps its old version, and the no-dash form of each queried id
    ends up with the version of the result at the same position of the
    sorted, normalized query (the last such position, should two ids of
    the batch share a key). *)
Theorem updateVersionsForPages_records `{Env}
    (d d' : CachingClient) (ids : list string) (n n1 n' : Net)
    (m : gmap string Z) (results : list (option Block)) :
  ids <> [] -> IdToPageLatestVersion d = Some m ->
  let sorted := normalizeIDS (merge_sort String.le ids) in
  GetBlockRecords sorted n = (Ok results, n1) ->
  updateVersionsForPages d ids n = (Ok tt, d', n') ->
  n' = n1 /\
  exists m',
    d' = set_IdToPageLatestVersion d (Some m') /\
    (forall k, (forall id, id ∈ sorted -> ToNoDashID id <> k) ->
               m' !! k = m !! k) /\
    (forall i id r,
       sorted !! i = Some id -> results !! i = Some r ->
       (forall j id', (i < j)%nat -> sorted !! j = Some id' ->
                      ToNoDashID id' <> ToNoDashID id) ->
       m' !! ToNoDashID id = Some (versionOf r)).
Proof.
  intros Hne Hmap sorted Hget. unfold updateVersionsForPages.
  destruct (decide _) as [Hzero|_].
  { by apply length_zero_iff_nil in Hzero. }
  destruct (getVersionsForPages (merge_sort String.le ids) n)
    as [[[versions| |] ids1] n2] eqn:Hrun; [|done..].
  destruct (getVersionsForPages_ok _ _ _ _ _ _ _ Hget Hrun)
    as (-> & Hlen & -> & ->).
  fold sorted. rewrite length_map.
  destruct (negb _) eqn:Hcheck; [done|].
  apply negb_false_iff, Nat.eqb_eq in Hcheck.
  rewrite Hmap.
  destruct (storeVersions_ok sorted (map versionOf results) m)
    as (m' & -> & Hout & Hin); [by rewrite length_map|].
  intros [= <- <-]. split; [done|]. exists m'. split; [done|].
  split; [exact Hout|]. intros i id r Hid Hr Hlater.
  apply (Hin i); [done| |done]. by rewrite list_lookup_fmap, Hr.
Qed.

Lemma updateVersionsForPages_records_witness :
  exists m',
    (updateVersionsForPages (H := Model.allAtSeven) Model.knowsA
       [Model.idB] 0%nat).1.2
    = set_IdToPageLatestVersion Model.knowsA (Some m') /\
    m' !! Model.idA = Some 5 /\ m' !! Model.idB = Some 7.
Proof.
  destruct (updateVersionsForPages_records (H := Model.allAtSeven)
              Model.knowsA
              (updateVersionsForPages (H := Model.allAtSeven) Model.knowsA
                 [Model.idB] 0%nat).1.2
              [Model.idB] 0%nat 1%nat 1%nat {[ Model.idA := 5 ]}
              [Some (mkBlock Model.dashB 7)]
              ltac:(done) eq_refl ltac:(by vm_compute) ltac:(by vm_compute))
    as (_ & m' & Hd' & Hout & Hin).
  exists m'. split; [exact Hd'|]. split.
  - rewrite (Hout Model.idA); [by vm_compute|].
    intros id Hid. apply list_elem_of_singleton in Hid. subst id.
    by vm_compute.
  - apply (Hin 0%nat Model.dashB (Some (mkBlock Model.dashB 7)) eq_refl eq_refl).
    intros j id' Hj Hlook. destruct j as [|j]; [lia|]. by vm_compute in Hlook.
Defined.

(** X12.  [checkVersionsOfCachedPages] asks the version service at most
    once per client: outside freshness mode, or once it has succeeded, a
    call changes nothing and contacts nothing; a successful call sets the
    flag, after which every further call is such a no-op; a failed call
    leaves the client as it was, so that the next call asks again; and a
    client with an empty index succeeds without contacting the service. *)
Theorem checkVersionsOfCachedPages_once `{Env} (d : CachingClient) (n : Net) :
  (RedownloadNewerVersions d = false \/ didCheckVersionsOfCachedPages d = true ->
   checkVersionsOfCachedPages d n = (Ok tt, d, n)) /\
  (forall d' n',
     checkVersionsOfCachedPages d n = (Ok tt, d', n') ->
     RedownloadNewerVersions d = true ->
     didCheckVersionsOfCachedPages d' = true /\
     forall n2, checkVersionsOfCachedPages d' n2 = (Ok tt, d', n2)) /\
  (forall e d' n', checkVersionsOfCachedPages d n = (Err e, d', n') -> d' = d) /\
  (RedownloadNewerVersions d = true ->
   didCheckVersionsOfCachedPages d = false ->
   pageIDToEntries d = ∅ ->
   checkVersionsOfCachedPages d n
   = (Ok tt, set_didCheckVersionsOfCachedPages d true, n)).
Proof.
  unfold checkVersionsOfCachedPages. split; [|split; [|split]].
  - intros [->| ->]; [done|]. by destruct (RedownloadNewerVersions d).
  - intros d' n' Hrun Hmode. rewrite Hmode in Hrun. cbn [negb] in Hrun.
    destruct (didCheckVersionsOfCachedPages d) eqn:Hdone.
    + injection Hrun as <- <-. split; [done|]. intros n2.
      rewrite Hdone. by destruct (RedownloadNewerVersions d).
    + destruct (updateVersionsForPages d (GetPageIDs d) n) as [[[[]| |] d1] n1];
        [|done..].
      injection Hrun as <- <-. split; [done|]. intros n2.
      cbn [didCheckVersionsOfCachedPages set_didCheckVersionsOfCachedPages].
      by destruct (negb _).
  - intros e d' n'. destruct (negb _); [done|].
    destruct (didCheckVersionsOfCachedPages d); [done|].
    destruct (updateVersionsForPages d (GetPageIDs d) n) as [[[[]| |] d1] n1] eqn:Hup;
      [done| |done].
    intros [= <- <- <-]. by apply updateVersionsForPages_err in Hup.
  - intros -> -> Hidx. cbn [negb]. unfold GetPageIDs. rewrite Hidx.
    by rewrite map_to_list_empty.
Qed.

(** *** Failures of the crawl *)

Section CrawlFailure.
Context `{Env}.

Lemma crawl_stoppedAt fuel after toVisit downloaded calls c fs n
    res calls' c' fs' n' :
  Forall (accepted after) calls ->
  crawl fuel after toVisit downloaded calls c fs n
  = Some (res, calls', c', fs', n') ->
  stoppedAt after (forget res) calls'.
Proof.
  revert toVisit downloaded calls c fs n.
  induction fuel as [|fuel IH]; intros toVisit downloaded calls c fs n Hcalls;
    [done|].
  cbn [crawl]. destruct toVisit as [|first toVisit].
  { by intros [= <- <- _ _ _]. }
  destruct (downloaded !! ToNoDashID first); [by apply IH|].
  set (d := DownloadPage c (ToNoDashID first) fs n).
  destruct (d_result d) as [page|e|m] eqn:Hres.
  - destruct (from_option (fun f => f page) None after) as [e|] eqn:Hafter.
    + intros [= <- <- _ _ _]. cbn [forget stoppedAt].
      eexists calls, _. split; [done|]. split; [done|]. right. by exists page.
    + apply IH. apply Forall_app. split; [done|].
      constructor; [|done]. by exists page.
  - intros [= <- <- _ _ _]. cbn [forget stoppedAt].
    eexists calls, _. split; [done|]. split; [done|]. by left.
  - intros [= <- <- _ _ _]. cbn [forget stoppedAt].
    by eexists calls, _.
Qed.

End CrawlFailure.

(** X13.  A crawl stops at its first failure.  Whatever it returns, every
    call it made but the last returned a page that the callback accepted.
    When it returns an error, the last call is the one that failed, or
    the one whose page the callback rejected, and the error is that
    call's or that callback's; nothing is downloaded after it.  When it
    succeeds, every call returned an accepted page. *)
Theorem DownloadPagesRecursively_stops_at_failure `{Env}
    (fuel : nat) (c : CachingClient) (start : string)
    (afterDownload : option (Page -> option error)) (fs : FS) (n : Net)
    (res : result (list Page)) (calls : list (string * result Page))
    (c' : CachingClient) (fs' : FS) (n' : Net) :
  DownloadPagesRecursively fuel c start afterDownload fs n
  = Some (res, calls, c', fs', n') ->
  stoppedAt afterDownload (forget res) calls.
Proof.
  unfold DownloadPagesRecursively.
  destruct (crawl fuel afterDownload [start] ∅ [] c fs n)
    as [[[[[r calls0] c0] fs0] n0]|] eqn:Hcrawl; [|done].
  apply crawl_stoppedAt in Hcrawl; [|constructor].
  by destruct r; intros [= <- <- _ _ _].
Qed.

Lemma DownloadPagesRecursively_stops_at_failure_witness :
  stoppedAt (Some (fun p : Page =>
               if String.eqb (ID p) Model.idB then Some "stop" else None))
    (Err "stop")
    [(Model.idA, Ok (mkPage Model.idA 1 [Model.dashB]));
     (Model.idB, Ok (mkPage Model.idB 1 [Model.dashA]))].
Proof.
  apply (DownloadPagesRecursively_stops_at_failure (H := Model.cyclic) 4
           Model.newClient Model.dashA
           (Some (fun p : Page =>
              if String.eqb (ID p) Model.idB then Some "stop" else None))
           Model.noFS 0%nat (Err "stop")
           [(Model.idA, Ok (mkPage Model.idA 1 [Model.dashB]));
            (Model.idB, Ok (mkPage Model.idB 1 [Model.dashA]))]
           (d_client (DownloadPage (H := Model.cyclic)
                        (d_client (DownloadPage (H := Model.cyclic)
                                     Model.newClient Model.idA Model.noFS 0%nat))
                        Model.idB Model.noFS 0%nat))
           Model.noFS 0%nat).
  by vm_compute.
Defined.

(** *** Text spans: what the parser accepts, and the accessors *)


(** X14.  The parser accepts exactly the well-shaped inputs: a raw value
    parses to the spans [spans] if and only if it is nil and [spans] is
    empty, or it is a non-empty list of raw spans, each of which is a text
    alone or a text with a list of attributes, [spans] holding, in order,
    the text and the attributes of each (a date attribute as its kind and
    the marshaled map, any other as its kind followed by its string
    values). *)
Theorem ParseTextSpans_exactly
    (MarshalIndent : list (string * JSON.Value) -> error + string)
    (raw : JSON.Value) (spans : list TextSpans.TextSpan) :
  TextSpans.ParseTextSpans MarshalIndent raw = Ok spans <->
  (raw = JSON.Null /\ spans = []) \/
  exists rawSpans,
    raw = JSON.Arr rawSpans /\ rawSpans <> [] /\
    Forall2 (TextSpans.spanRel MarshalIndent) rawSpans spans.
Proof.
  split.
  - intros Hparse.
    destruct (TextSpansFacts.ParseTextSpans_ok MarshalIndent raw spans Hparse)
      as [?|(rawSpans & -> & Hrel)]; [by left|right].
    exists rawSpans. split; [done|]. split; [|done].
    intros ->. by cbn in Hparse.
  - intros [[-> ->]|(rawSpans & -> & Hne & Hrel)]; [done|].
    unfold TextSpans.ParseTextSpans.
    destruct (decide _) as [Hzero|_].
    { by apply length_zero_iff_nil in Hzero. }
    by rewrite (TextSpansFacts.parseSpans_complete MarshalIndent _ spans).
Qed.

(** X15.  Each value accessor returns the second element of an attribute
    whose first element is the accessor's kind, and panics on every other
    attribute: on one of another kind, on the empty one, and on one that
    carries its kind alone.  None of them returns an error.
    [AttrGetType] returns the first element and panics on the empty
    attribute only. *)
Theorem attr_accessors (attr : TextSpans.TextAttr) (v : string) :
  (TextSpans.AttrGetType attr = Ok v <-> exists rest, attr = v :: rest) /\
  (TextSpans.AttrGetLink attr = Ok v <->
   exists rest, attr = TextSpans.Attr2Link :: v :: rest) /\
  (TextSpans.AttrGetUserID attr = Ok v <->
   exists rest, attr = TextSpans.Attr2User :: v :: rest) /\
  (TextSpans.AttrGetComment attr = Ok v <->
   exists rest, attr = TextSpans.Attr2Comment :: v :: rest) /\
  (TextSpans.AttrGetHighlight attr = Ok v <->
   exists rest, attr = TextSpans.Attr2Highlight :: v :: rest) /\
  is_Err (TextSpans.AttrGetType attr) = false /\
  is_Err (TextSpans.AttrGetLink attr) = false /\
  is_Err (TextSpans.AttrGetUserID attr) = false /\
  is_Err (TextSpans.AttrGetComment attr) = false /\
  is_Err (TextSpans.AttrGetHighlight attr) = false.
Proof.
  assert (Hget : forall fn kind,
    (match TextSpans.panicIfAttrNot attr fn kind with
     | Ok _ => TextSpans.attrSecond attr
     | Err e => Err e
     | Panic m => Panic m
     end = Ok v <-> exists rest, attr = kind :: v :: rest) /\
    is_Err (match TextSpans.panicIfAttrNot attr fn kind with
            | Ok _ => TextSpans.attrSecond attr
            | Err e => Err e
            | Panic m => Panic m
            end) = false).
  { intros fn kind. unfold TextSpans.panicIfAttrNot, TextSpans.AttrGetType,
      TextSpans.attrSecond.
    destruct attr as [|k [|v' rest]]; cbn [lookup list_lookup].
    - split; [|done]. split; [done|]. by intros [? [=]].
    - destruct (String.eqb_spec k kind); cbn [negb];
        (split; [|done]); (split; [done|]); by intros [? [=]].
    - destruct (String.eqb_spec k kind) as [->|Hk]; cbn [negb].
      + split; [|done]. split; [intros [= ->]; by exists rest|].
        by intros [? [= -> ->]].
      + split; [|done]. split; [done|]. intros [? [= ? ?]]. done. }
  split; [|split; [apply Hget|split; [apply Hget|split; [apply Hget|split;
    [apply Hget|]]]]].
  - unfold TextSpans.AttrGetType. destruct attr as [|k rest]; cbn.
    + split; [done|]. by intros [? [=]].
    + split; [intros [= ->]; by exists rest|]. by intros [? [= ->]].
  - split; [by destruct attr|]. repeat split; apply Hget.
Qed.

(** X16.  On an attribute the parser produced, [AttrGetType] never panics
    and returns the kind of the raw attribute.  On a date attribute,
    [AttrGetDate] hands the marshaled map to the decoder and panics
    exactly when the decoder fails.  On an attribute of another kind the
    parser accepts any number of string values, none included: the value
    accessor of that kind then panics on an attribute the parser let
    through with its kind alone, and returns the first value otherwise. *)
Theorem accessors_on_parsed
    (MarshalIndent : list (string * JSON.Value) -> error + string)
    (Date : Type) (UnmarshalDate : string -> error + option Date)
    (raw : JSON.Value) (attr : TextSpans.TextAttr) :
  TextSpans.attrRel MarshalIndent raw attr ->
  exists k vals,
    raw = JSON.Arr (JSON.Str k :: vals) /\
    TextSpans.AttrGetType attr = Ok k /\
    (k = TextSpans.Attr2Date ->
     exists m js,
       vals = [JSON.Obj m] /\ MarshalIndent m = inr js /\
       TextSpans.AttrGetDate Date UnmarshalDate attr
       = match UnmarshalDate js with
         | inl err => Panic err
         | inr d => Ok d
         end) /\
    (k = TextSpans.Attr2Link ->
     match vals with
     | [] => TextSpans.AttrGetLink attr = Panic "index out of range"
     | v :: _ => exists s, v = JSON.Str s /\ TextSpans.AttrGetLink attr = Ok s
     end) /\
    (k = TextSpans.Attr2User ->
     match vals with
     | [] => TextSpans.AttrGetUserID attr = Panic "index out of range"
     | v :: _ => exists s, v = JSON.Str s /\ TextSpans.AttrGetUserID attr = Ok s
     end) /\
    (k = TextSpans.Attr2Comment ->
     match vals with
     | [] => TextSpans.AttrGetComment attr = Panic "index out of range"
     | v :: _ => exists s, v = JSON.Str s /\ TextSpans.AttrGetComment attr = Ok s
     end) /\
    (k = TextSpans.Attr2Highlight ->
     match vals with
     | [] => TextSpans.AttrGetHighlight attr = Panic "index out of range"
     | v :: _ =>
         exists s, v = JSON.Str s /\ TextSpans.AttrGetHighlight attr = Ok s
     end).
Proof.
  inversion 1 as [m js Hjs|k vals Hk]; subst.
  - exists TextSpans.Attr2Date, [JSON.Obj m]. split; [done|]. split; [done|].
    split; [|done]. intros _. by exists m, js.
  - exists k, (map JSON.Str vals). split; [done|]. split; [done|].
    split; [done|].
    repeat split; intros ->; (destruct vals as [|s vals]; [done|]); by exists s.
Qed.

Lemma accessors_on_parsed_witness :
  TextSpans.attrRel Model.MarshalIndent (JSON.Arr [JSON.Str "a"]) ["a"] /\
  TextSpans.AttrGetLink ["a"] = Panic "index out of range".
Proof.
  assert (Hrel : TextSpans.attrRel Model.MarshalIndent
                   (JSON.Arr [JSON.Str "a"]) ["a"]).
  { by apply (TextSpans.attr_simple Model.MarshalIndent "a" []). }
  split; [exact Hrel|].
  destruct (accessors_on_parsed Model.MarshalIndent unit (fun _ => inr None)
              _ _ Hrel) as (k & vals & [= <- <-] & _ & _ & Hlink & _).
  exact (Hlink eq_refl).
Defined.

(** X17.  A span the parser returns is plain exactly when its raw span
    carries no attribute: a text alone, or a text with an empty attribute
    list. *)
Theorem IsPlain_parsed
    (MarshalIndent : list (string * JSON.Value) -> error + string)
    (a : list JSON.Value) (span : TextSpans.TextSpan) :
  TextSpans.parseTextSpan MarshalIndent a = Ok span ->
  (TextSpans.IsPlain span = true <-> TextSpans.plainRaw a).
Proof.
  intros Hrel%TextSpansFacts.parseTextSpan_ok. unfold TextSpans.IsPlain.
  rewrite bool_decide_eq_true. unfold TextSpans.plainRaw.
  inversion Hrel as [t|t rawAttrs attrs Hattrs]; subst; cbn [TextSpans.Attrs].
  - split; [|done]. intros _. exists t. by left.
  - pose proof (Forall2_length _ _ _ Hattrs) as Hlen. split.
    + intros Hzero. exists t. right. rewrite Hzero in Hlen.
      by apply length_zero_iff_nil in Hlen as ->.
    + intros (t' & [[=]|[= _ ->]]). by rewrite <- Hlen.
Qed.

Lemma IsPlain_parsed_witness :
  TextSpans.IsPlain (TextSpans.mkTextSpan "x" []) = true.
Proof.
  apply (IsPlain_parsed Model.MarshalIndent [JSON.Str "x"; JSON.Arr []]
           (TextSpans.mkTextSpan "x" []) eq_refl).
  exists "x". by right.
Defined.

(** *** Building a client, and what a download counts *)



Section Accounting.
Context `{Env}.


End Accounting.

(** X18.  [NewCachingClient] refuses an empty cache directory, and then a
    nil client, whatever the file system holds.  Otherwise it succeeds
    exactly when the cache directory can be created and listed and every
    listed cache file can be read and decoded.  The client it returns has
    the directory and the client it was given, both modes off, no page
    scope, nothing pending, no version map and all three counters at
    zero. *)
Theorem NewCachingClient_outcome `{Env}
    (cacheDir : string) (client : option Client) (fs : FS) :
  (cacheDir = "" ->
   NewCachingClient cacheDir client fs = Err "must provide cacheDir") /\
  (cacheDir <> "" ->
   NewCachingClient cacheDir None fs = Err "must provide client") /\
  (cacheDir <> "" -> forall cl,
   ((exists c, NewCachingClient cacheDir (Some cl) fs = Ok c) <->
    MkdirAll cacheDir fs = None /\
    exists entries,
      ReadDir cacheDir fs = inr entries /\
      Forall (fun fi => indexable fi = true -> loads cacheDir fs fi) entries) /\
   forall c, NewCachingClient cacheDir (Some cl) fs = Ok c ->
     exists idx,
       c = mkCachingClient cacheDir cl false false idx None [] None false
                           0 0 0).
Proof.
  split; [|split].
  - intros ->. reflexivity.
  - intros Hdir. unfold NewCachingClient.
    by destruct (String.eqb_spec cacheDir "").
  - intros Hdir cl. split.
    + unfold NewCachingClient, readRequestsCacheFile.
      destruct (String.eqb_spec cacheDir ""); [done|].
      destruct (MkdirAll cacheDir fs).
      { split; [by intros [? ?]|by intros [? _]]. }
      destruct (ReadDir cacheDir fs) as [|entries].
      { split; [by intros [? ?]|by intros (_ & ? & ? & _)]. }
      pose proof (readEntries_ok cacheDir entries fs ∅) as Hok.
      destruct (readEntries cacheDir entries fs ∅) as [[[]| |] idx];
        cbn [fst] in Hok.
      * split; [|by eauto]. intros _. split; [done|]. exists entries.
        split; [done|]. by apply Hok.
      * split; [by intros [? ?]|]. intros (_ & entries' & [= <-] & Hall).
        by apply Hok in Hall.
      * split; [by intros [? ?]|]. intros (_ & entries' & [= <-] & Hall).
        by apply Hok in Hall.
    + intros c (_ & cl' & idx & [= <-] & _ & ->)%NewCachingClient_ok.
      by exists idx.
Qed.



(** *** The freshness check after the batch query, and requests outside a
    page *)

Section Checked.
Context `{Env}.

Lemma storeVersions_dom ids versions m m' :
  storeVersions ids versions (Some m) = Ok (Some m') ->
  (forall id, id ∈ ids -> is_Some (m' !! ToNoDashID id)) /\
  (forall k, is_Some (m !! k) -> is_Some (m' !! k)).
Proof.
  revert versions m. induction ids as [|id0 ids IH]; intros versions m.
  - intros [= <-]. split; [by intros ? ?%elem_of_nil|done].
  - destruct versions as [|v0 versions]; [done|]. cbn [storeVersions].
    intros [Hin Hkeep]%IH. split.
    + intros id [->|Hid]%elem_of_cons; [|by apply Hin].
      apply Hkeep. rewrite lookup_insert_eq. by eexists.
    + intros k Hk. apply Hkeep.
      destruct (decide (ToNoDashID id0 = k)) as [->|Hne].
      * rewrite lookup_insert_eq. by eexists.
      * by rewrite lookup_insert_ne.
Qed.

Lemma storeVersions_some ids versions m r :
  storeVersions ids versions (Some m) = Ok r -> exists m', r = Some m'.
Proof.
  revert versions m. induction ids as [|id0 ids IH]; intros versions m.
  - intros [= <-]. by exists m.
  - destruct versions as [|v0 versions]; [done|]. cbn [storeVersions]. apply IH.
Qed.

Lemma getVersionsForPages_ids ids n r ids' n' :
  getVersionsForPages ids n = (r, ids', n') -> ids' = normalizeIDS ids.
Proof.
  unfold getVersionsForPages.
  destruct (GetBlockRecords _ n) as [[results| |] n2]; [|by intros [= _ <- _]..].
  by destruct (negb _); intros [= _ <- _].
Qed.

Lemma updateVersionsForPages_dom d ids n d' n' m :
  IdToPageLatestVersion d = Some m ->
  updateVersionsForPages d ids n = (Ok tt, d', n') ->
  RedownloadNewerVersions d' = RedownloadNewerVersions d /\
  forall id, id ∈ ids ->
    is_Some (latestVersion d' (ToNoDashID (normalizeID id))).
Proof.
  intros Hmap. unfold updateVersionsForPages.
  destruct (decide _) as [Hzero|_].
  { apply length_zero_iff_nil in Hzero as ->. intros [= <- _].
    split; [done|]. by intros ? ?%elem_of_nil. }
  destruct (getVersionsForPages (merge_sort String.le ids) n)
    as [[[versions| |] ids1] n1] eqn:Hrun; [|done..].
  apply getVersionsForPages_ids in Hrun as ->.
  destruct (negb _); [done|]. rewrite Hmap.
  destruct (storeVersions _ versions (Some m)) as [r| |] eqn:Hstore; [|done..].
  destruct (storeVersions_some _ _ _ _ Hstore) as [m' ->].
  intros [= <- <-]. split; [done|]. intros id Hid.
  unfold latestVersion. cbn [IdToPageLatestVersion set_IdToPageLatestVersion].
  apply storeVersions_dom in Hstore as [Hin _]. apply Hin.
  unfold normalizeIDS. apply list_elem_of_fmap_2.
  by rewrite merge_sort_Permutation.
Qed.

End Checked.

(** X20.  The batch query does its job.  After a successful
    [checkVersionsOfCachedPages] on a client in freshness mode whose
    version map exists, every page of the index has a recorded version,
    so a freshness check of such a page compares against it without
    asking the version service again and without changing the client.
    This assumes that the keys of the index are no-dash ids that
    normalization and [ToNoDashID] bring back to themselves. *)
Theorem checkVersionsOfCachedPages_then_no_query `{Env}
    (d d' : CachingClient) (n n' : Net) (m : gmap string Z) :
  RedownloadNewerVersions d = true ->
  didCheckVersionsOfCachedPages d = false ->
  IdToPageLatestVersion d = Some m ->
  (forall id, id ∈ GetPageIDs d -> ToNoDashID (normalizeID id) = id) ->
  checkVersionsOfCachedPages d n = (Ok tt, d', n') ->
  forall p n2, ToNoDashID (ID p) ∈ GetPageIDs d ->
    exists v,
      latestVersion d' (ToNoDashID (ID p)) = Some v /\
      canReturnCachedPage d' (Some p) n2
      = (Ok (RootVersion p >=? v), d', n2).
Proof.
  intros Hmode Hfirst Hmap Hcanon. unfold checkVersionsOfCachedPages.
  rewrite Hmode, Hfirst. cbn [negb].
  destruct (updateVersionsForPages d (GetPageIDs d) n) as [[[[]| |] d1] n1] eqn:Hup;
    [|done..].
  intros [= <- <-] p n2 Hp.
  destruct (updateVersionsForPages_dom _ _ _ _ _ _ Hmap Hup) as [Hmode1 Hdom].
  destruct (Hdom _ Hp) as [v Hv]. rewrite (Hcanon _ Hp) in Hv.
  exists v. split; [exact Hv|].
  apply canReturnCachedPage_known; [|exact Hv].
  cbn. by rewrite Hmode1.
Qed.

Lemma checkVersionsOfCachedPages_then_no_query_witness :
  let d := set_pageIDToEntries Model.freshClient {[ Model.idA := [] ]} in
  let d' := (checkVersionsOfCachedPages (H := Model.allAtSeven) d 0%nat).1.2 in
  exists v,
    latestVersion d' (@ToNoDashID Model.allAtSeven (ID Model.oldPageA)) = Some v /\
    canReturnCachedPage (H := Model.allAtSeven) d' (Some Model.oldPageA) 5%nat
    = (Ok (RootVersion Model.oldPageA >=? v), d', 5%nat).
Proof.
  intros d d'.
  apply (checkVersionsOfCachedPages_then_no_query (H := Model.allAtSeven)
           d d' 0%nat 1%nat ∅ eq_refl eq_refl eq_refl).
  - intros id Hid. assert (id = Model.idA) as ->; [|by vm_compute].
    revert Hid. unfold GetPageIDs, d.
    cbn [pageIDToEntries set_pageIDToEntries].
    rewrite map_to_list_singleton. cbn. by intros ->%list_elem_of_singleton.
  - by vm_compute.
  - unfold GetPageIDs, d. cbn [pageIDToEntries set_pageIDToEntries].
    rewrite map_to_list_singleton. apply list_elem_of_singleton.
    by vm_compute.
Defined.

(** X21.  A request that goes through the caching hook outside a page
    scope: with the read cache on, the lookup dereferences the nil scope
    and panics before the network is contacted; with [NoReadCache] set,
    the request goes to the network and, when it succeeds, is counted as
    not served from the cache but is not recorded, so that it is never
    written to any cache file. *)
Theorem doPostMaybeCached_outside_scope `{Env}
    (c : CachingClient) (uri body : string) (n : Net) :
  currPageID c = None ->
  (NoReadCache c = false ->
   doPostMaybeCached c uri body n = (Panic nilDeref, c, n)) /\
  (NoReadCache c = true ->
   exists r c' n',
     doPostMaybeCached c uri body n = (r, c', n') /\
     doPostInternal uri body n = (r, n') /\
     currPageRequests c' = currPageRequests c /\
     RequestsFromCache c' = RequestsFromCache c /\
     RequestsNotFromCache c'
     = (if r is Ok _ then int_add (RequestsNotFromCache c) 1
        else RequestsNotFromCache c)).
Proof.
  intros Hscope. unfold doPostMaybeCached, tryReadFromCache. split.
  - intros ->. by rewrite Hscope.
  - intros ->. destruct (doPostInternal uri body n) as [[d|e|m] n1].
    + unfold cacheRequest. cbn [currPageID set_RequestsNotFromCache].
      rewrite Hscope. by eexists _, _, _.
    + by eexists _, _, _.
    + by eexists _, _, _.
Qed.

Lemma doPostMaybeCached_outside_scope_witness :
  doPostMaybeCached (H := Model.online) Model.newClient "/api/v3/getRecordValues"
    "{}" 0%nat
  = (Panic nilDeref, Model.newClient, 0%nat).
Proof.
  apply (doPostMaybeCached_outside_scope (H := Model.online) Model.newClient
           "/api/v3/getRecordValues" "{}" 0%nat eq_refl).
  reflexivity.
Defined.
